(** * tree_print: a shallow embedding of [tree_print/cli.py]

    The development follows the Python source function by function.
    Paths are lists of components ([pathlib.Path.parts]), the file system
    is a finite tree whose directory listings keep their enumeration
    order, text is a byte string (UTF-8, so that the box-drawing glyphs of
    the tree are the bytes that Python would encode), and exceptions are
    an explicit outcome type.  Symbolic links are not modelled: an entry
    is what [is_dir]/[is_file] see after following links. *)

From Stdlib Require Import ZArith List Bool Ascii String Lia Permutation.
From Stdlib Require Import DecimalString.
From stdpp Require Import base option list sorting gmap strings.

Set Warnings "-register-all".
Local Open Scope Z_scope.

(** ** Python runtime: outcomes of a call *)

Inductive exn : Type :=
| FileNotFoundError
| NotADirectoryError
| CalledProcessError
| OverflowError.

(** [OutOfFuel] is not a Python outcome: it marks a run of the embedding
    that was given too little fuel for a [while] loop or a recursion. *)
Inductive outcome (A : Type) : Type :=
| Ok (a : A)
| Raise (e : exn)
| OutOfFuel.

Arguments Ok {A} a.
Arguments Raise {A} e.
Arguments OutOfFuel {A}.

Definition bind {A B : Type} (m : outcome A) (k : A -> outcome B) : outcome B :=
  match m with
  | Ok a => k a
  | Raise e => Raise e
  | OutOfFuel => OutOfFuel
  end.

(** [try: body except E: handler] for the exceptions [E] that [caught] accepts. *)
Definition try_except {A : Type} (body : outcome A) (caught : exn -> bool)
    (handler : outcome A) : outcome A :=
  match body with
  | Raise e => if caught e then handler else Raise e
  | _ => body
  end.

Notation "'let*' x ':=' m 'in' k" := (bind m (fun x => k))
  (at level 10, x name, m at level 100, k at level 200).

(** ** Python runtime: strings *)

Definition ESC : string := String (ascii_of_nat 27) EmptyString.

(** [str.lower] and [fnmatch.fnmatch] belong to the Python library, not
    to this program; the builder is written against this interface. *)
Class PyStr : Type := {
  str_lower : string -> string;
  fnmatch : string -> string -> bool
}.

Definition ascii_lower (c : ascii) : ascii :=
  let n := nat_of_ascii c in
  if ((65 <=? n) && (n <=? 90))%nat then ascii_of_nat (n + 32) else c.

Fixpoint lower_ascii (s : string) : string :=
  match s with
  | EmptyString => EmptyString
  | String c s' => String (ascii_lower c) (lower_ascii s')
  end.

(** Shell globs with [*] and [?] only (no bracket classes), matched
    against the whole name, as [fnmatch] does on POSIX. *)
Fixpoint glob (pat : list ascii) (s : list ascii) {struct pat} : bool :=
  match pat with
  | [] => match s with [] => true | _ => false end
  | c :: pat' =>
      if Ascii.eqb c "*" then
        (fix star (s : list ascii) : bool :=
           glob pat' s || match s with [] => false | _ :: s' => star s' end) s
      else
        match s with
        | [] => false
        | d :: s' => (Ascii.eqb c "?" || Ascii.eqb c d) && glob pat' s'
        end
  end.

(** The library as it behaves on ASCII names and bracket-free patterns. *)
Definition posix_ascii : PyStr := {|
  str_lower := lower_ascii;
  fnmatch := fun name pat => glob (list_ascii_of_string pat) (list_ascii_of_string name)
|}.

(** ** Python runtime: numbers of [human_readable_size]

    [size] starts as an [int] and becomes a [float] at the first
    [size /= 1024].  A float is kept as the exact dyadic rational
    [mant / 2^scale] with a 53-bit significand.  The definitions that
    follow give the values inside the exponent range of a double, which
    holds every [st_size]; the [checked_] definitions after them add the
    OverflowError that Python raises outside it. *)
Inductive number : Type :=
| PyInt (n : Z)
| PyFloat (mant : Z) (scale : Z).

(** Nearest 53-bit value, ties to even: [float(n)] for [n >= 0]. *)
Definition round53 (n : Z) : Z :=
  let bits := Z.log2 n + 1 in
  if bits <=? 53 then n
  else
    let s := bits - 53 in
    let q := Z.shiftr n s in
    let r := Z.land n (Z.ones s) in
    let half := Z.shiftl 1 (s - 1) in
    let q' := if (half <? r) || ((r =? half) && Z.odd q) then q + 1 else q in
    Z.shiftl q' s.

(** [float(x)], inside the range of a double. *)
Definition to_float (x : number) : Z * Z :=
  match x with
  | PyInt n => (Z.sgn n * round53 (Z.abs n), 0)
  | PyFloat m s => (m, s)
  end.

(** [size < 1024] *)
Definition lt_1024 (x : number) : bool :=
  match x with
  | PyInt n => n <? 1024
  | PyFloat m s => m <? 1024 * 2 ^ s
  end.

(** [size / 1024] (true division, correctly rounded), inside the range of
    a double. *)
Definition truediv_1024 (x : number) : number :=
  let '(m, s) := to_float x in PyFloat m (s + 10).

Definition digits (n : Z) : string :=
  NilZero.string_of_uint (N.to_uint (Z.to_N n)).

(** Tenths of [|x|], rounded half to even on the exact value. *)
Definition tenths (x : number) : Z :=
  let '(m, s) := to_float x in
  let a := 10 * Z.abs m in
  let d := 2 ^ s in
  let q := a / d in
  let r := a mod d in
  if (d <? 2 * r) || ((2 * r =? d) && Z.odd q) then q + 1 else q.

Definition show_tenths (t : Z) : string :=
  digits (t / 10) +:+ "." +:+ digits (t mod 10).

(** [f"{size:.1f}"] *)
Definition format_1f (x : number) : string :=
  (if fst (to_float x) <? 0 then "-" else "") +:+ show_tenths (tenths x).

(** ** cli.py *)

Definition COLOR_DIR : string := (ESC +:+ "[34m") +:+ (ESC +:+ "[1m").
Definition COLOR_FILE : string := ESC +:+ "[39m".
Definition RESET_ALL : string := ESC +:+ "[0m".

Fixpoint human_readable_size_loop (units : list string) (size : number) : string :=
  match units with
  | [] => format_1f size +:+ "PB"
  | unit :: units' =>
      if lt_1024 size then format_1f size +:+ unit
      else human_readable_size_loop units' (truediv_1024 size)
  end.

Definition human_readable_size (size : Z) : string :=
  human_readable_size_loop ["B"; "KB"; "MB"; "GB"; "TB"]%string (PyInt size).

(** *** The range of a double

    An [int] becomes a [float] at two places of [human_readable_size]:
    [f"{size:.1f}"] on an [int] (a size below 1024, so possibly a large
    negative one) and the first [size /= 1024].  Both round to the nearest
    double and raise OverflowError when that is 2^1024 or more. *)
Definition float_of_int (n : Z) : outcome (Z * Z) :=
  let m := round53 (Z.abs n) in
  if 2 ^ 1024 <=? m then Raise OverflowError else Ok (Z.sgn n * m, 0).

Definition checked_to_float (x : number) : outcome (Z * Z) :=
  match x with
  | PyInt n => float_of_int n
  | PyFloat m s => Ok (m, s)
  end.

(** [size / 1024]: the quotient of an [int] is rounded once, and is out of
    range when the nearest double of [size] is 2^1034 or more; a [float]
    only gets smaller. *)
Definition checked_truediv_1024 (x : number) : outcome number :=
  match x with
  | PyInt n =>
      let m := round53 (Z.abs n) in
      if 2 ^ 1034 <=? m then Raise OverflowError else Ok (PyFloat (Z.sgn n * m) 10)
  | PyFloat m s => Ok (PyFloat m (s + 10))
  end.

Definition checked_format_1f (x : number) : outcome string :=
  let* _ := checked_to_float x in
  Ok (format_1f x).

Fixpoint checked_human_readable_size_loop (units : list string) (size : number)
  : outcome string :=
  match units with
  | [] =>
      let* s := checked_format_1f size in
      Ok (s +:+ "PB")
  | unit :: units' =>
      if lt_1024 size then
        let* s := checked_format_1f size in
        Ok (s +:+ unit)
      else
        let* size' := checked_truediv_1024 size in
        checked_human_readable_size_loop units' size'
  end.

(** [human_readable_size(size)] for every [int], OverflowError included. *)
Definition checked_human_readable_size (size : Z) : outcome string :=
  checked_human_readable_size_loop ["B"; "KB"; "MB"; "GB"; "TB"]%string (PyInt size).

(** [strip_ansi]: the pattern is ESC, an opening bracket, bytes of
    [0-?], bytes of [ -/], one byte of [@-~].  The three classes are
    disjoint, so the greedy match is the only one. *)
Definition in_range (lo hi : nat) (c : ascii) : bool :=
  ((lo <=? nat_of_ascii c) && (nat_of_ascii c <=? hi))%nat.

Fixpoint span_length (P : ascii -> bool) (l : list ascii) : nat :=
  match l with
  | c :: l' => if P c then S (span_length P l') else O
  | [] => O
  end.

(** Length of the escape sequence that starts [l], if one does. *)
Definition ansi_escape (l : list ascii) : option nat :=
  match l with
  | e :: b :: rest =>
      if Ascii.eqb e (ascii_of_nat 27) && Ascii.eqb b "[" then
        let a := span_length (in_range 48 63) rest in
        let i := span_length (in_range 32 47) (skipn a rest) in
        match skipn (a + i) rest with
        | f :: _ => if in_range 64 126 f then Some (a + i + 3)%nat else None
        | [] => None
        end
      else None
  | _ => None
  end.

Fixpoint strip_ansi_from (skip : nat) (l : list ascii) : list ascii :=
  match l with
  | [] => []
  | c :: l' =>
      match skip with
      | S k => strip_ansi_from k l'
      | O =>
          match ansi_escape l with
          | Some n => strip_ansi_from (Nat.pred n) l'
          | None => c :: strip_ansi_from O l'
          end
      end
  end.

Definition strip_ansi (text : string) : string :=
  string_of_list_ascii (strip_ansi_from O (list_ascii_of_string text)).

(** ** Paths and the file system *)

Definition path : Type := list string.

(** What a path leads to: a regular file with its size, a directory with
    its entries in the order in which the file system enumerates them, or
    something else that exists (a pipe, a socket, a device), of which
    [is_dir] and [is_file] are both false. *)
Inductive entry : Type :=
| File (st_size : Z)
| Dir (children : list (string * entry))
| Other.

Fixpoint lookup_name (n : string) (cs : list (string * entry)) : option entry :=
  match cs with
  | [] => None
  | (m, e) :: cs' => if String.eqb n m then Some e else lookup_name n cs'
  end.

Fixpoint resolve (fs : entry) (p : path) : option entry :=
  match p with
  | [] => Some fs
  | n :: p' =>
      match fs with
      | Dir cs =>
          match lookup_name n cs with
          | Some e => resolve e p'
          | None => None
          end
      | _ => None
      end
  end.

(** Why a path does not resolve: a name is missing (ENOENT), or the path
    goes through something that is not a directory (ENOTDIR). *)
Fixpoint resolve_error (fs : entry) (p : path) : exn :=
  match p with
  | [] => FileNotFoundError
  | n :: p' =>
      match fs with
      | Dir cs =>
          match lookup_name n cs with
          | Some e => resolve_error e p'
          | None => FileNotFoundError
          end
      | _ => NotADirectoryError
      end
  end.

Fixpoint height (e : entry) : nat :=
  match e with
  | Dir cs => S (list_max (map (fun c => height (snd c)) cs))
  | _ => O
  end.

(** [sep.join(l)] *)
Fixpoint join (sep : string) (l : list string) : string :=
  match l with
  | [] => ""
  | [x] => x
  | x :: l' => x +:+ sep +:+ join sep l'
  end.

Module Path.
Definition name (p : path) : string := List.last p ""%string.

Definition exists_ (fs : entry) (p : path) : bool :=
  match resolve fs p with Some _ => true | None => false end.

Definition is_dir (fs : entry) (p : path) : bool :=
  match resolve fs p with Some (Dir _) => true | _ => false end.

Definition is_file (fs : entry) (p : path) : bool :=
  match resolve fs p with Some (File _) => true | _ => false end.

(** [p.stat().st_size]; the program asks for it for regular files only. *)
Definition st_size (fs : entry) (p : path) : Z :=
  match resolve fs p with Some (File sz) => sz | _ => 0 end.

Definition iterdir (fs : entry) (p : path) : outcome (list path) :=
  match resolve fs p with
  | Some (Dir cs) => Ok (map (fun c => p ++ [fst c]) cs)
  | Some _ => Raise NotADirectoryError
  | None => Raise (resolve_error fs p)
  end.

(** [str(p)] for a POSIX path: the parts joined by slashes behind the
    anchor, if the first part is one; the empty path is the dot. *)
Definition str (p : path) : string :=
  match p with
  | [] => "."
  | a :: rest =>
      if String.prefix "/" a then a +:+ join "/" rest else join "/" p
  end.

(** [p.is_relative_to(other)]: the parts of [other] start those of [p]. *)
Fixpoint is_relative_to (p other : path) {struct other} : bool :=
  match other, p with
  | [], _ => true
  | o :: other', c :: p' => String.eqb o c && is_relative_to p' other'
  | _ :: _, [] => false
  end.
End Path.

(** ** [sorted] with a key: Python's sort is stable *)

Fixpoint insert_by {A : Type} (le : A -> A -> bool) (x : A) (l : list A) : list A :=
  match l with
  | [] => [x]
  | y :: l' => if le x y then x :: l else y :: insert_by le x l'
  end.

Definition sorted {A K : Type} (le : K -> K -> bool) (key : A -> K) (l : list A) : list A :=
  fold_right (insert_by (fun a b => le (key a) (key b))) [] l.

(** Order of the tuples [(bool, str)]: [False < True], then the strings
    by code point, which on UTF-8 text is the order of the bytes. *)
Definition key_le (k1 k2 : bool * string) : bool :=
  if Bool.eqb (fst k1) (fst k2) then String.leb (snd k1) (snd k2)
  else negb (fst k1).

Definition enumerate {A : Type} (l : list A) : list (nat * A) :=
  combine (seq 0 (length l)) l.

(** ** Text helpers of the Python library used by [get_git_tracked_files] *)

Fixpoint split_on (sep : ascii) (l : list ascii) : list (list ascii) :=
  match l with
  | [] => [[]]
  | c :: l' =>
      if Ascii.eqb c sep then [] :: split_on sep l'
      else match split_on sep l' with
           | w :: ws => (c :: w) :: ws
           | [] => [[c]]
           end
  end.

(** [str.splitlines] for text whose lines end in a line feed. *)
Definition splitlines (text : string) : list string :=
  let pieces := split_on (ascii_of_nat 10) (list_ascii_of_string text) in
  let pieces := match List.last pieces [] with [] => removelast pieces | _ => pieces end in
  map string_of_list_ascii pieces.

Definition is_space (c : ascii) : bool :=
  in_range 9 13 c || Ascii.eqb c " ".

Fixpoint lstrip (l : list ascii) : list ascii :=
  match l with
  | c :: l' => if is_space c then lstrip l' else l
  | [] => []
  end.

Definition strip (s : string) : string :=
  string_of_list_ascii (rev (lstrip (rev (lstrip (list_ascii_of_string s))))).

(** Parts that joining a relative POSIX path string adds to a path. *)
Definition parts (s : string) : path :=
  List.filter (fun part => negb (String.eqb part "" || String.eqb part "."))
    (map string_of_list_ascii (split_on "/" (list_ascii_of_string s))).

(** What running [git -C root ls-files] did. *)
Inductive process : Type :=
| Exited (returncode : Z) (stdout : string)
| NotFound.

(** [subprocess.run(..., check=True, text=True)], giving [result.stdout]. *)
Definition subprocess_run (proc : process) : outcome string :=
  match proc with
  | Exited returncode stdout =>
      if returncode =? 0 then Ok stdout else Raise CalledProcessError
  | NotFound => Raise FileNotFoundError
  end.

Definition get_git_tracked_files (git : process) (root : path) : outcome (gset path) :=
  try_except
    (let* stdout := subprocess_run git in
     Ok (list_to_set (map (fun line => root ++ parts (strip line)) (splitlines stdout))))
    (fun e => match e with CalledProcessError => true | _ => false end)
    (Ok ∅).

(** One output line together with where it came from: the level and the
    start path of the call that emitted it, the directory that call
    listed (the start path, compacted), the entry, and the rendered
    directories the recursion went through (innermost first). *)
Record row : Type := {
  row_line : string;
  row_level : Z;
  row_call : path;
  row_dir : path;
  row_item : path;
  row_ancestors : list path
}.

Section Builder.
Context {L : PyStr}.
Variable fs : entry.

Definition matches_patterns (name : string) (patterns : list string) : bool :=
  existsb (fun pat => fnmatch name pat) patterns.

(** [item in git_tracked or any(p.is_relative_to(item) for p in git_tracked if p.is_file())] *)
Definition is_tracked (git_tracked : gset path) (item : path) : bool :=
  bool_decide (item ∈ git_tracked)
  || existsb (fun p => Path.is_relative_to p item)
       (List.filter (Path.is_file fs) (elements git_tracked)).

Definition keep_tracked (git_tracked : option (gset path)) (items : list path) : list path :=
  match git_tracked with
  | Some tracked => List.filter (is_tracked tracked) items
  | None => items
  end.

Definition not_excluded (exclude : list string) (item : path) : bool :=
  negb (matches_patterns (Path.name item) exclude).

Fixpoint collapse_single_dirs (fuel : nat) (dir : path)
    (git_tracked : option (gset path)) (exclude : option (list string))
    : outcome path :=
  match fuel with
  | O => OutOfFuel
  | S fuel' =>
      let exclude' := default [] exclude in
      let* listing := Path.iterdir fs dir in
      let items := List.filter (not_excluded exclude') listing in
      let items := keep_tracked git_tracked items in
      let dirs := List.filter (Path.is_dir fs) items in
      let files := List.filter (Path.is_file fs) items in
      match dirs, files with
      | [d], [] => collapse_single_dirs fuel' d git_tracked exclude
      | _, _ => Ok dir
      end
  end.

Definition sort_key (x : path) : bool * string :=
  (Path.is_file fs x, str_lower (Path.name x)).

Definition depth_reached (depth : option Z) (current_level : Z) : bool :=
  match depth with
  | Some d => d <=? current_level
  | None => false
  end.

Definition connector (i n : nat) : string :=
  if (i =? n - 1)%nat then "└── " else "├── ".

Definition extension (i n : nat) : string :=
  if (i =? n - 1)%nat then "    " else "│   ".

Definition render (indent : string) (i n : nat) (item : path) (color show_sizes : bool)
    : string :=
  let name :=
    if color && Path.is_dir fs item
    then COLOR_DIR +:+ Path.name item +:+ RESET_ALL
    else COLOR_FILE +:+ Path.name item +:+ RESET_ALL in
  let size :=
    if show_sizes && Path.is_file fs item
    then " (" +:+ human_readable_size (Path.st_size fs item) +:+ ")"
    else "" in
  indent +:+ connector i n +:+ name +:+ size.

(** The [for i, item in enumerate(items)] loop; [lines] is the list
    being appended to and [recurse] the recursive call. *)
Fixpoint for_each_item (recurse : path -> string -> outcome (list string))
    (indent : string) (color show_sizes : bool) (depth : option Z) (current_level : Z)
    (n : nat) (items : list (nat * path)) (lines : list string)
    : outcome (list string) :=
  match items with
  | [] => Ok lines
  | (i, item) :: rest =>
      if depth_reached depth current_level
      then for_each_item recurse indent color show_sizes depth current_level n rest lines
      else
        let lines := lines ++ [render indent i n item color show_sizes] in
        if Path.is_dir fs item then
          let* sub := recurse item (indent +:+ extension i n) in
          for_each_item recurse indent color show_sizes depth current_level n rest
            (lines ++ sub)
        else
          for_each_item recurse indent color show_sizes depth current_level n rest lines
  end.

Fixpoint build_tree_lines (fuel : nat) (startpath : path) (indent : string)
    (exclude : option (list string)) (git_tracked : option (gset path))
    (color show_sizes compact : bool) (depth : option Z) (current_level : Z)
    : outcome (list string) :=
  match fuel with
  | O => OutOfFuel
  | S fuel' =>
      let exclude' := default [] exclude in
      let* startpath :=
        (if compact then collapse_single_dirs fuel startpath git_tracked (Some exclude')
         else Ok startpath) in
      let* listing := Path.iterdir fs startpath in
      let items :=
        sorted key_le sort_key (List.filter (not_excluded exclude') listing) in
      let items := keep_tracked git_tracked items in
      for_each_item
        (fun item indent' =>
           build_tree_lines fuel' item indent' (Some exclude') git_tracked
             color show_sizes compact depth (current_level + 1))
        indent color show_sizes depth current_level (length items) (enumerate items) []
  end.

(** The same traversal, keeping with each line where it came from. *)
Fixpoint for_each_row (recurse : path -> string -> outcome (list row))
    (call dir : path) (ancestors : list path)
    (indent : string) (color show_sizes : bool) (depth : option Z) (current_level : Z)
    (n : nat) (items : list (nat * path)) (rows : list row)
    : outcome (list row) :=
  match items with
  | [] => Ok rows
  | (i, item) :: rest =>
      if depth_reached depth current_level
      then for_each_row recurse call dir ancestors indent color show_sizes depth
             current_level n rest rows
      else
        let rows := rows ++ [{| row_line := render indent i n item color show_sizes;
                                row_level := current_level;
                                row_call := call;
                                row_dir := dir;
                                row_item := item;
                                row_ancestors := ancestors |}] in
        if Path.is_dir fs item then
          let* sub := recurse item (indent +:+ extension i n) in
          for_each_row recurse call dir ancestors indent color show_sizes depth
            current_level n rest (rows ++ sub)
        else
          for_each_row recurse call dir ancestors indent color show_sizes depth
            current_level n rest rows
  end.

Fixpoint build_tree_rows (fuel : nat) (startpath : path) (indent : string)
    (exclude : option (list string)) (git_tracked : option (gset path))
    (color show_sizes compact : bool) (depth : option Z) (current_level : Z)
    (ancestors : list path) : outcome (list row) :=
  match fuel with
  | O => OutOfFuel
  | S fuel' =>
      let exclude' := default [] exclude in
      let* dir :=
        (if compact then collapse_single_dirs fuel startpath git_tracked (Some exclude')
         else Ok startpath) in
      let* listing := Path.iterdir fs dir in
      let items :=
        sorted key_le sort_key (List.filter (not_excluded exclude') listing) in
      let items := keep_tracked git_tracked items in
      for_each_row
        (fun item indent' =>
           build_tree_rows fuel' item indent' (Some exclude') git_tracked
             color show_sizes compact depth (current_level + 1) (item :: ancestors))
        startpath dir ancestors
        indent color show_sizes depth current_level (length items) (enumerate items) []
  end.
End Builder.

(** ** [main] *)

Record arguments : Type := {
  arg_path : path;
  arg_exclude : list string;
  arg_git : bool;
  arg_no_color : bool;
  arg_no_size : bool;
  arg_compact : bool;
  arg_depth : option Z;
  arg_clipboard : bool
}.

(** What a run leaves behind: the text given to [print] and the text
    copied to the clipboard. *)
Record console : Type := {
  printed : string;
  copied : option string
}.

Definition LF : string := String (ascii_of_nat 10) EmptyString.

Definition main {L : PyStr} (fuel : nat) (fs : entry) (git : process) (args : arguments)
    : outcome console :=
  let root_path := arg_path args in
  if negb (Path.exists_ fs root_path) then
    Ok {| printed := "Error: Path '" +:+ Path.str root_path +:+ "' does not exist.";
          copied := None |}
  else
    let* git_tracked :=
      (if arg_git args
       then let* tracked := get_git_tracked_files git root_path in Ok (Some tracked)
       else Ok None) in
    let* lines :=
      build_tree_lines fs fuel root_path "" (Some (arg_exclude args)) git_tracked
        (negb (arg_no_color args)) (negb (arg_no_size args)) (arg_compact args)
        (arg_depth args) 0 in
    let output := join LF lines in
    if arg_clipboard args
    then Ok {| printed := "Tree copied to clipboard!"; copied := Some (strip_ansi output) |}
    else Ok {| printed := output; copied := None |}.

(** ** The trees of the examples *)

(** The lines that the specification expects for [scenario]. *)
Definition scenario_plain : list string :=
  ["├── sub"; "│   └── c.txt (5.0B)"; "├── a.txt (10.0B)"; "└── b.txt (2.0KB)"]%string.

(** The lines that the builder returns for it, color disabled: every name
    between [COLOR_FILE] and [RESET_ALL]. *)
Definition scenario_escaped : list string :=
  ["├── " +:+ COLOR_FILE +:+ "sub" +:+ RESET_ALL;
   "│   └── " +:+ COLOR_FILE +:+ "c.txt" +:+ RESET_ALL +:+ " (5.0B)";
   "├── " +:+ COLOR_FILE +:+ "a.txt" +:+ RESET_ALL +:+ " (10.0B)";
   "└── " +:+ COLOR_FILE +:+ "b.txt" +:+ RESET_ALL +:+ " (2.0KB)"]%string.

(** A directory and a named pipe (neither a directory nor a regular file). *)
Definition with_pipe : entry :=
  Dir [("b", Dir []); ("a", Other)]%string.

(** [scenario] as another file system might enumerate it. *)
Definition scenario_reordered : entry :=
  Dir [("sub", Dir [("c.txt", File 5)]); ("b.txt", File 2000); ("a.txt", File 10)]%string.

(** Two files whose names differ in case only, enumerated in two orders. *)
Definition case_clash : entry :=
  Dir [("Readme", File 1); ("README", File 2)]%string.

Definition case_clash_reordered : entry :=
  Dir [("README", File 2); ("Readme", File 1)]%string.

(** A repository with a submodule: [git ls-files] names the directory
    [lib] itself and none of the files in it. *)
Definition with_submodule : entry :=
  Dir [("lib", Dir [("util.py", File 7)]); ("main.py", File 3)]%string.

Definition submodule_tracked : gset path :=
  {[ ["lib"]; ["main.py"] ]}%string.

(** A chain of wrapper directories above a directory that branches. *)
Definition wrapped : entry :=
  Dir [("src", Dir [("main", Dir [("java", Dir [("A.java", File 1);
                                                 ("pkg", Dir [("inner", Dir [("B.java", File 2)])])])])])]%string.

(** A directory with two files, enumerated in descending order, beside a
    file. *)
Definition nested_pair : entry :=
  Dir [("e", File 3); ("d", Dir [("y", File 1); ("x", File 2)])]%string.

Definition scenario : entry :=
  Dir [("a.txt", File 10); ("b.txt", File 2000); ("sub", Dir [("c.txt", File 5)])]%string.


(** ** Notions the properties are stated with *)

(** Sequencing the blocks of output that the entries of a list produce. *)
Fixpoint gather {A B : Type} (f : A -> outcome (list B)) (l : list A) : outcome (list B) :=
  match l with
  | [] => Ok []
  | x :: l' =>
      let* block := f x in
      let* blocks := gather f l' in
      Ok (block ++ blocks)
  end.

Definition fmap_outcome {A B : Type} (f : A -> B) (m : outcome A) : outcome B :=
  let* a := m in Ok (f a).

(** The units of [human_readable_size], by position. *)
Definition unit_name (k : nat) : string :=
  nth k ["B"; "KB"; "MB"; "GB"; "TB"]%string "PB"%string.

(** [k] is the smallest unit in which [n] bytes scale to less than 1024,
    and PB when there is none. *)
Definition smallest_unit_below (n : Z) (k : nat) : Prop :=
  (k <= 5)%nat
  /\ ((k < 5)%nat -> n < 1024 * 1024 ^ Z.of_nat k)
  /\ (forall j, (j < k)%nat -> 1024 * 1024 ^ Z.of_nat j <= n).

(** [t] tenths is the value [v / d] rounded to one decimal, ties to even. *)
Definition nearest_tenth (v d t : Z) : Prop :=
  2 * Z.abs (10 * v - t * d) <= d
  /\ (2 * Z.abs (10 * v - t * d) = d -> Z.even t = true).

Definition is_file_entry (e : entry) : bool :=
  match e with File _ => true | _ => false end.

(** The same tree with its directories enumerated in another order. *)
Inductive reordered : entry -> entry -> Prop :=
| reordered_file (sz : Z) : reordered (File sz) (File sz)
| reordered_other : reordered Other Other
| reordered_dir (cs cs' cs'' : list (string * entry)) :
    Permutation cs cs' ->
    Forall2 (fun c c' => fst c = fst c' /\ reordered (snd c) (snd c')) cs' cs'' ->
    reordered (Dir cs) (Dir cs'').

(** The sort key of a directory entry. *)
Definition entry_key {L : PyStr} (c : string * entry) : bool * string :=
  (is_file_entry (snd c), str_lower (fst c)).

(** In every directory the names are pairwise distinct, and so are the
    sort keys: no two entries that are both regular files, or both not,
    have the same lowercased name. *)
Fixpoint unambiguous {L : PyStr} (e : entry) : bool :=
  match e with
  | Dir cs =>
      bool_decide (NoDup (map fst cs))
      && bool_decide (NoDup (map entry_key cs))
      && forallb (fun c => unambiguous (snd c)) cs
  | _ => true
  end.

Inductive kind : Type := Directory | RegularFile | NeitherKind.

Definition kind_of (fs : entry) (p : path) : kind :=
  if Path.is_dir fs p then Directory
  else if Path.is_file fs p then RegularFile
  else NeitherKind.

Definition kind_eqb (a b : kind) : bool :=
  match a, b with
  | Directory, Directory | RegularFile, RegularFile | NeitherKind, NeitherKind => true
  | _, _ => false
  end.

(** Two rows of a run are siblings emitted one after the other: they
    stand at the same level, [r1] before [r2], and every row between them
    is deeper, so that nothing of another directory comes between. *)
Definition consecutive_siblings (rows : list row) (r1 r2 : row) : Prop :=
  exists pre mid post,
    rows = pre ++ r1 :: mid ++ r2 :: post
    /\ row_level r2 = row_level r1
    /\ Forall (fun r => row_level r1 < row_level r) mid.

Section Notions.
Context {L : PyStr}.
Variable fs : entry.

(** The order of siblings as the specification words it. *)
Definition dirs_then_files (a b : path) : bool :=
  (kind_eqb (kind_of fs a) Directory && kind_eqb (kind_of fs b) RegularFile)
  || (kind_eqb (kind_of fs a) (kind_of fs b)
      && String.leb (str_lower (Path.name a)) (str_lower (Path.name b))).

(** The order of siblings that the sort key gives. *)
Definition nonfiles_then_files (a b : path) : bool :=
  (negb (Path.is_file fs a) && Path.is_file fs b)
  || (Bool.eqb (Path.is_file fs a) (Path.is_file fs b)
      && String.leb (str_lower (Path.name a)) (str_lower (Path.name b))).

(** Siblings: rows of one directory, emitted by one call, in the order
    of the sort key. *)
Definition sorted_siblings (r1 r2 : row) : Prop :=
  row_dir r2 = row_dir r1
  /\ row_ancestors r2 = row_ancestors r1
  /\ nonfiles_then_files (row_item r1) (row_item r2) = true.

(** The rows a call emitted for the entries of its own directory. *)
Definition direct_rows (current_level : Z) (rows : list row) : list row :=
  List.filter (fun r => row_level r =? current_level) rows.

(** What one turn of the loop adds to the output. *)
Definition row_block (recurse : path -> string -> outcome (list row))
    (call dir : path) (ancestors : list path)
    (indent : string) (color show_sizes : bool) (depth : option Z) (current_level : Z)
    (n : nat) (x : nat * path) : outcome (list row) :=
  if depth_reached depth current_level then Ok []
  else
    let r := {| row_line := render fs indent (fst x) n (snd x) color show_sizes;
                row_level := current_level;
                row_call := call;
                row_dir := dir;
                row_item := snd x;
                row_ancestors := ancestors |} in
    if Path.is_dir fs (snd x) then
      let* sub := recurse (snd x) (indent +:+ extension (fst x) n) in Ok (r :: sub)
    else Ok [r].

(** The entries of [dir] that pass the exclusion and tracking filters. *)
Definition visible_children (dir : path) (git_tracked : option (gset path))
    (exclude : list string) : outcome (list path) :=
  let* listing := Path.iterdir fs dir in
  Ok (keep_tracked fs git_tracked (List.filter (not_excluded exclude) listing)).

(** [dir] shows exactly one directory [d] and no file. *)
Definition only_child_dir (git_tracked : option (gset path)) (exclude : list string)
    (dir d : path) : Prop :=
  exists items,
    visible_children dir git_tracked exclude = Ok items
    /\ List.filter (Path.is_dir fs) items = [d]
    /\ List.filter (Path.is_file fs) items = [].

(** [dir] is reached from [start] through only-child directories and
    is not one itself. *)
Definition collapses_to (git_tracked : option (gset path)) (exclude : list string)
    (start dir : path) : Prop :=
  rtc (only_child_dir git_tracked exclude) start dir
  /\ forall d, ~ only_child_dir git_tracked exclude dir d.

(** The directory that a call lists, given its start path. *)
Definition compacted (compact : bool) (git_tracked : option (gset path))
    (exclude : list string) (start dir : path) : Prop :=
  if compact then collapses_to git_tracked exclude start dir else dir = start.

Definition listed (git_tracked : option (gset path)) (exclude : list string)
    (dir item : path) : Prop :=
  exists items, visible_children dir git_tracked exclude = Ok items /\ In item items.

(** The entries a call goes through, in order. *)
Definition items_of (git_tracked : option (gset path)) (exclude : list string)
    (listing : list path) : list path :=
  keep_tracked fs git_tracked
    (sorted key_le (sort_key fs) (List.filter (not_excluded exclude) listing)).

Definition height_at (p : path) : nat :=
  match resolve fs p with Some e => height e | None => O end.
End Notions.

(** ** Notions of the further properties *)

(** The text holds no escape character. *)
Definition esc_free (s : string) : bool :=
  forallb (fun c => negb (Ascii.eqb c (ascii_of_nat 27))) (list_ascii_of_string s).

(** No name in the tree holds an escape character. *)
Fixpoint esc_free_names (e : entry) : bool :=
  match e with
  | Dir cs => forallb (fun c => esc_free (fst c) && esc_free_names (snd c)) cs
  | _ => true
  end.

(** A line as it reads without its escape sequences. *)
Definition plain_line (fs : entry) (indent : string) (i n : nat) (item : path)
    (show_sizes : bool) : string :=
  indent +:+ connector i n +:+ Path.name item
  +:+ (if show_sizes && Path.is_file fs item
       then " (" +:+ human_readable_size (Path.st_size fs item) +:+ ")"
       else "").

(** The two blocks by which the indentation grows from a directory to
    its entries. *)
Definition is_extension (s : string) : Prop :=
  s = "    "%string \/ s = "│   "%string.

(** * Properties *)

Lemma string_app_assoc (a b c : string) : (a +:+ b) +:+ c = a +:+ (b +:+ c).
Proof.
  induction a as [|x a IH]; [reflexivity|].
  change (String x ((a +:+ b) +:+ c) = String x (a +:+ (b +:+ c))).
  now rewrite IH.
Qed.

(** ** Outcomes *)

Lemma bind_Ok {A B : Type} (m : outcome A) (k : A -> outcome B) (b : B) :
  bind m k = Ok b <-> exists a, m = Ok a /\ k a = Ok b.
Proof.
  destruct m; simpl; split; try (intros [a0 [H _]]; discriminate H); try discriminate.
  - intros H. exists a. auto.
  - intros [a0 [H H']]. injection H as ->. exact H'.
Qed.

Lemma gather_Ok {A B : Type} (f : A -> outcome (list B)) (l : list A) (r : list B) :
  gather f l = Ok r <->
  exists blocks, Forall2 (fun x b => f x = Ok b) l blocks /\ r = concat blocks.
Proof.
  revert r. induction l as [|x l IH]; intros r; simpl.
  - split.
    + intros [= <-]. exists []. split; [constructor | reflexivity].
    + intros [blocks [H ->]]. inversion H; subst. reflexivity.
  - rewrite bind_Ok. split.
    + intros [b [Hb H]]. apply bind_Ok in H as [bs [Hbs [= <-]]].
      apply IH in Hbs as [blocks [HF ->]].
      exists (b :: blocks). split; [constructor; assumption | reflexivity].
    + intros [blocks [HF ->]]. inversion HF as [|? b ? blocks' Hb HF']; subst.
      exists b. split; [assumption|].
      apply bind_Ok. exists (concat blocks'). split; [|reflexivity].
      apply IH. exists blocks'. auto.
Qed.

(** ** The loop as a sequence of blocks *)

Section Blocks.
Context {L : PyStr}.
Variable fs : entry.

Lemma for_each_row_gather recurse call dir ancestors indent color show_sizes depth
    current_level n items rows :
  for_each_row fs recurse call dir ancestors indent color show_sizes depth current_level
    n items rows
  = let* blocks :=
      gather (row_block fs recurse call dir ancestors indent color show_sizes depth
                current_level n) items in
    Ok (rows ++ blocks).
Proof.
  revert rows. induction items as [|[i item] items IH]; intros rows; simpl.
  - now rewrite app_nil_r.
  - unfold row_block at 1. simpl.
    destruct (depth_reached depth current_level); simpl.
    + rewrite IH. destruct (gather _ items); reflexivity.
    + destruct (Path.is_dir fs item); simpl.
      * destruct (recurse item _) as [sub| |]; simpl; try reflexivity.
        rewrite IH.
        destruct (gather _ items) as [blocks| |]; simpl; try reflexivity.
        now rewrite <- !app_assoc.
      * rewrite IH.
        destruct (gather _ items) as [blocks| |]; simpl; try reflexivity.
        now rewrite <- !app_assoc.
Qed.

Lemma for_each_item_rows recurse_lines recurse_rows call dir ancestors indent color
    show_sizes depth current_level n items rows :
  (forall item indent',
     recurse_lines item indent' = fmap_outcome (map row_line) (recurse_rows item indent')) ->
  for_each_item fs recurse_lines indent color show_sizes depth current_level n items
    (map row_line rows)
  = fmap_outcome (map row_line)
      (for_each_row fs recurse_rows call dir ancestors indent color show_sizes depth
         current_level n items rows).
Proof.
  intros Hrec. revert rows.
  induction items as [|[i item] items IH]; intros rows; simpl; [reflexivity|].
  destruct (depth_reached depth current_level); [apply IH|].
  destruct (Path.is_dir fs item).
  - rewrite Hrec. unfold fmap_outcome at 1.
    destruct (recurse_rows item _) as [sub| |]; simpl; try reflexivity.
    rewrite <- IH. now rewrite !map_app.
  - rewrite <- IH. now rewrite map_app.
Qed.

(** The lines are the lines of the rows. *)
Lemma build_tree_lines_rows fuel startpath indent exclude git_tracked color show_sizes
    compact depth current_level ancestors :
  build_tree_lines fs fuel startpath indent exclude git_tracked color show_sizes compact
    depth current_level
  = fmap_outcome (map row_line)
      (build_tree_rows fs fuel startpath indent exclude git_tracked color show_sizes
         compact depth current_level ancestors).
Proof.
  revert startpath indent exclude current_level ancestors.
  induction fuel as [|fuel IH]; intros; [reflexivity|].
  cbn [build_tree_lines build_tree_rows].
  destruct (if compact then _ else _) as [dir| |]; simpl; try reflexivity.
  destruct (Path.iterdir fs dir) as [listing| |]; simpl; try reflexivity.
  apply (for_each_item_rows _ _ startpath dir ancestors _ _ _ _ _ _ _ []).
  intros item indent'. apply IH.
Qed.
End Blocks.

(** ** The order of the sort keys *)

Lemma string_compare_le_trans (a b c : string) :
  String.compare a b <> Gt -> String.compare b c <> Gt -> String.compare a c <> Gt.
Proof.
  revert b c. induction a as [|x a IH]; intros [|y b] [|z c]; simpl; try congruence.
  unfold Ascii.compare.
  destruct (N.compare_spec (N_of_ascii x) (N_of_ascii y)) as [Hxy|Hxy|Hxy];
    destruct (N.compare_spec (N_of_ascii y) (N_of_ascii z)) as [Hyz|Hyz|Hyz];
    try congruence.
  - rewrite Hxy, Hyz, N.compare_refl. apply IH.
  - intros _ _. rewrite Hxy. apply N.compare_lt_iff in Hyz. now rewrite Hyz.
  - intros _ _. rewrite <- Hyz. apply N.compare_lt_iff in Hxy. now rewrite Hxy.
  - intros _ _. assert (H : (N_of_ascii x < N_of_ascii z)%N) by lia.
    apply N.compare_lt_iff in H. now rewrite H.
Qed.

Lemma string_leb_trans (a b c : string) :
  String.leb a b = true -> String.leb b c = true -> String.leb a c = true.
Proof.
  unfold String.leb. intros Hab Hbc.
  assert (H := string_compare_le_trans a b c).
  destruct (String.compare a b); destruct (String.compare b c);
    destruct (String.compare a c); try reflexivity; try discriminate;
    exfalso; apply H; congruence.
Qed.

Lemma key_le_total (k1 k2 : bool * string) : key_le k1 k2 = true \/ key_le k2 k1 = true.
Proof.
  destruct k1 as [[] s1], k2 as [[] s2]; unfold key_le; simpl; auto using String.leb_total.
Qed.

Lemma key_le_trans (k1 k2 k3 : bool * string) :
  key_le k1 k2 = true -> key_le k2 k3 = true -> key_le k1 k3 = true.
Proof.
  destruct k1 as [[] s1], k2 as [[] s2], k3 as [[] s3]; unfold key_le; simpl;
    try discriminate; try reflexivity; apply string_leb_trans.
Qed.

Lemma key_le_antisym (k1 k2 : bool * string) :
  key_le k1 k2 = true -> key_le k2 k1 = true -> k1 = k2.
Proof.
  destruct k1 as [[] s1], k2 as [[] s2]; unfold key_le; simpl; try discriminate;
    intros H1 H2; f_equal; apply String.leb_antisym; assumption.
Qed.

(** ** [sorted] *)

Section Sorted.
Context {A K : Type} (le : K -> K -> bool) (key : A -> K).
Hypothesis le_total : forall a b, le a b = true \/ le b a = true.
Hypothesis le_trans : forall a b c, le a b = true -> le b c = true -> le a c = true.

Lemma insert_by_Permutation (x : A) (l : list A) :
  Permutation (insert_by (fun a b => le (key a) (key b)) x l) (x :: l).
Proof.
  induction l as [|y l IH]; simpl; [reflexivity|].
  destruct (le (key x) (key y)); [reflexivity|].
  rewrite IH. apply perm_swap.
Qed.

Lemma sorted_Permutation (l : list A) : Permutation (sorted le key l) l.
Proof.
  induction l as [|x l IH]; simpl; [reflexivity|].
  fold (sorted le key l).
  rewrite insert_by_Permutation. now rewrite IH.
Qed.

Lemma In_sorted (x : A) (l : list A) : In x (sorted le key l) <-> In x l.
Proof.
  split; apply Permutation_in; [|symmetry]; apply sorted_Permutation.
Qed.

Lemma insert_by_StronglySorted (x : A) (l : list A) :
  StronglySorted (fun a b => le (key a) (key b) = true) l ->
  StronglySorted (fun a b => le (key a) (key b) = true)
    (insert_by (fun a b => le (key a) (key b)) x l).
Proof.
  induction 1 as [|y l Hl IH Hy]; simpl.
  - constructor; constructor.
  - destruct (le (key x) (key y)) eqn:Hxy.
    + constructor; [constructor; assumption|].
      constructor; [exact Hxy|].
      eapply List.Forall_impl; [|exact Hy]. intros z Hz. eapply le_trans; eassumption.
    + constructor; [exact IH|].
      apply List.Forall_forall. intros z Hz.
      apply (Permutation_in _ (insert_by_Permutation x l)) in Hz.
      destruct Hz as [<-|Hz].
      * destruct (le_total (key x) (key y)) as [H|H]; [congruence | exact H].
      * rewrite List.Forall_forall in Hy. apply Hy. exact Hz.
Qed.

Lemma sorted_StronglySorted (l : list A) :
  StronglySorted (fun a b => le (key a) (key b) = true) (sorted le key l).
Proof.
  induction l as [|x l IH]; simpl; [constructor|].
  apply insert_by_StronglySorted. exact IH.
Qed.

Lemma filter_StronglySorted (f : A -> bool) (l : list A) :
  StronglySorted (fun a b => le (key a) (key b) = true) l ->
  StronglySorted (fun a b => le (key a) (key b) = true) (List.filter f l).
Proof.
  induction 1 as [|y l Hl IH Hy]; simpl; [constructor|].
  destruct (f y); [|exact IH].
  constructor; [exact IH|].
  apply List.Forall_forall. intros z Hz. apply filter_In in Hz as [Hz _].
  rewrite List.Forall_forall in Hy. apply Hy. exact Hz.
Qed.

Hypothesis le_antisym : forall a b, le a b = true -> le b a = true -> a = b.

(** With pairwise distinct keys the order of the input does not matter. *)
Lemma sorted_unique (l1 l2 : list A) :
  NoDup (map key l1) -> Permutation l1 l2 -> sorted le key l1 = sorted le key l2.
Proof.
  intros Hnd Hperm.
  apply (StronglySorted_unique_strong (fun a b => le (key a) (key b) = true));
    try apply sorted_StronglySorted.
  - intros x1 x2 H1 H2 H12 H21.
    apply list_elem_of_In in H1. apply -> In_sorted in H1.
    apply list_elem_of_In in H2. apply -> In_sorted in H2.
    apply (Permutation_in _ (Permutation_sym Hperm)) in H2.
    assert (Hk : key x1 = key x2) by (apply le_antisym; assumption).
    clear -Hnd H1 H2 Hk.
    induction l1 as [|y l IH]; [destruct H1|].
    simpl in Hnd. apply NoDup_cons in Hnd as [Hy Hnd].
    destruct H1 as [->|H1], H2 as [->|H2]; auto.
    + exfalso. apply Hy. rewrite Hk. apply list_elem_of_In, in_map, H2.
    + exfalso. apply Hy. rewrite <- Hk. apply list_elem_of_In, in_map, H1.
  - rewrite !sorted_Permutation. exact Hperm.
Qed.
End Sorted.

(** ** Paths in the tree *)

Lemma resolve_app (fs : entry) (p q : path) :
  resolve fs (p ++ q) = match resolve fs p with Some e => resolve e q | None => None end.
Proof.
  revert fs. induction p as [|n p IH]; intros fs; simpl; [reflexivity|].
  destruct fs as [sz|cs|]; try reflexivity.
  destruct (lookup_name n cs); [apply IH | reflexivity].
Qed.

Lemma name_snoc (p : path) (n : string) : Path.name (p ++ [n]) = n.
Proof. unfold Path.name. apply last_last. Qed.

Lemma lookup_name_In (n : string) (cs : list (string * entry)) (e : entry) :
  lookup_name n cs = Some e -> In (n, e) cs.
Proof.
  induction cs as [|[m e'] cs IH]; simpl; [discriminate|].
  destruct (String.eqb_spec n m) as [->|Hne].
  - intros [= ->]. left. reflexivity.
  - intros H. right. apply IH, H.
Qed.

Lemma In_lookup_name (n : string) (e : entry) (cs : list (string * entry)) :
  In (n, e) cs -> exists e', lookup_name n cs = Some e'.
Proof.
  induction cs as [|[m e'] cs IH]; simpl; [intros []|].
  intros [H|H]; destruct (String.eqb_spec n m) as [->|Hne]; eauto.
  injection H as -> ->. congruence.
Qed.

Lemma height_child (n : string) (e : entry) (cs : list (string * entry)) :
  In (n, e) cs -> (height e < height (Dir cs))%nat.
Proof.
  intros H. simpl. apply Nat.lt_succ_r.
  assert (Hin : In (height e) (map (fun c => height (snd c)) cs)).
  { apply (in_map (fun c => height (snd c)) cs (n, e)), H. }
  revert Hin. generalize (map (fun c => height (snd c)) cs). intros hs.
  induction hs as [|h hs IH]; simpl; [intros []|].
  intros [->|Hin]; [lia|]. specialize (IH Hin). lia.
Qed.

Lemma iterdir_Ok (fs : entry) (p : path) (listing : list path) :
  Path.iterdir fs p = Ok listing <->
  exists cs, resolve fs p = Some (Dir cs) /\ listing = map (fun c => p ++ [fst c]) cs.
Proof.
  unfold Path.iterdir. destruct (resolve fs p) as [[sz|cs|]|]; split;
    try discriminate; try (intros [cs' [H _]]; discriminate).
  - intros [= <-]. eauto.
  - intros [cs' [[= <-] ->]]. reflexivity.
Qed.

Lemma is_dir_iterdir (fs : entry) (p : path) :
  Path.is_dir fs p = true -> exists listing, Path.iterdir fs p = Ok listing.
Proof.
  unfold Path.is_dir, Path.iterdir. destruct (resolve fs p) as [[sz|cs|]|]; try discriminate.
  eauto.
Qed.

Lemma is_dir_height (fs : entry) (p : path) :
  Path.is_dir fs p = true -> (1 <= height_at fs p)%nat.
Proof.
  unfold Path.is_dir, height_at. destruct (resolve fs p) as [[sz|cs|]|]; try discriminate.
  simpl. lia.
Qed.

(** A directory among the listing of [p] lies strictly lower than [p]. *)
Lemma listing_height (fs : entry) (p item : path) (listing : list path) :
  Path.iterdir fs p = Ok listing -> In item listing -> Path.is_dir fs item = true ->
  (height_at fs item < height_at fs p)%nat.
Proof.
  intros Hit Hin Hdir. apply iterdir_Ok in Hit as [cs [Hres ->]].
  apply in_map_iff in Hin as [[n e] [<- Hin]]. simpl in *.
  unfold Path.is_dir in Hdir. unfold height_at.
  rewrite resolve_app, Hres in *. simpl in *.
  destruct (lookup_name n cs) as [e'|] eqn:He'; [|discriminate].
  apply lookup_name_In in He'.
  change (height e' < height (Dir cs))%nat. eapply height_child, He'.
Qed.

Lemma listing_child (fs : entry) (p item : path) (listing : list path) :
  Path.iterdir fs p = Ok listing -> In item listing -> exists n, item = p ++ [n].
Proof.
  intros Hit Hin. apply iterdir_Ok in Hit as [cs [_ ->]].
  apply in_map_iff in Hin as [c [<- _]]. eauto.
Qed.

Lemma in_enumerate {A : Type} (i : nat) (x : A) (l : list A) :
  In (i, x) (enumerate l) -> In x l.
Proof. unfold enumerate. apply in_combine_r. Qed.

Lemma Forall2_In_r {A B : Type} (R : A -> B -> Prop) (l : list A) (bs : list B) :
  Forall2 R l bs -> forall b, In b bs -> exists x, In x l /\ R x b.
Proof.
  induction 1 as [|x b l bs HR _ IH]; intros b0; [intros []|].
  intros [<-|Hin].
  - exists x. split; [left; reflexivity | exact HR].
  - destruct (IH b0 Hin) as [x0 [Hx0 HR0]]. exists x0. split; [right|]; assumption.
Qed.

Lemma gather_total {A B : Type} (f : A -> outcome (list B)) (l : list A) :
  (forall x, In x l -> exists b, f x = Ok b) -> exists r, gather f l = Ok r.
Proof.
  induction l as [|x l IH]; intros H; simpl; [eauto|].
  destruct (H x) as [b ->]; [left; reflexivity|].
  destruct IH as [r ->]; [intros y Hy; apply H; right; assumption|].
  simpl. eauto.
Qed.

Section Visible.
Context {L : PyStr}.
Variable fs : entry.

Lemma In_keep_tracked git_tracked item items :
  In item (keep_tracked fs git_tracked items) -> In item items.
Proof.
  destruct git_tracked as [t|]; simpl; [|auto].
  intros H. apply filter_In in H. tauto.
Qed.

Lemma items_visible git_tracked exclude listing item :
  In item (keep_tracked fs git_tracked
             (sorted key_le (sort_key fs) (List.filter (not_excluded exclude) listing)))
  <-> In item (keep_tracked fs git_tracked (List.filter (not_excluded exclude) listing)).
Proof.
  destruct git_tracked as [t|]; simpl.
  - rewrite !(filter_In (is_tracked fs t)), In_sorted. reflexivity.
  - apply In_sorted.
Qed.

Lemma listed_inv git_tracked exclude dir item :
  listed fs git_tracked exclude dir item ->
  exists listing n,
    Path.iterdir fs dir = Ok listing /\ In item listing /\ item = dir ++ [n]
    /\ matches_patterns n exclude = false.
Proof.
  intros [items [Hv Hin]]. unfold visible_children in Hv.
  apply bind_Ok in Hv as [listing [Hit [= <-]]].
  apply In_keep_tracked, filter_In in Hin as [Hin Hex].
  destruct (listing_child _ _ _ _ Hit Hin) as [n ->].
  exists listing, n. repeat split; try assumption.
  unfold not_excluded in Hex. rewrite name_snoc in Hex.
  now apply negb_true_iff in Hex.
Qed.
End Visible.

(** ** Compaction *)

Section Collapse.
Context {L : PyStr}.
Variable fs : entry.

Lemma collapse_single_dirs_step fuel dir git_tracked exclude :
  collapse_single_dirs fs (S fuel) dir git_tracked exclude
  = let* items := visible_children fs dir git_tracked (default [] exclude) in
    match List.filter (Path.is_dir fs) items, List.filter (Path.is_file fs) items with
    | [d], [] => collapse_single_dirs fs fuel d git_tracked exclude
    | _, _ => Ok dir
    end.
Proof.
  simpl. unfold visible_children. destruct (Path.iterdir fs dir); reflexivity.
Qed.

Lemma only_child_dir_cases git_tracked exclude dir items :
  visible_children fs dir git_tracked exclude = Ok items ->
  match List.filter (Path.is_dir fs) items, List.filter (Path.is_file fs) items with
  | [d], [] => only_child_dir fs git_tracked exclude dir d
  | _, _ => forall d, ~ only_child_dir fs git_tracked exclude dir d
  end.
Proof.
  intros Hv.
  destruct (List.filter (Path.is_dir fs) items) as [|d [|d' dirs]] eqn:Hd;
    destruct (List.filter (Path.is_file fs) items) as [|f files] eqn:Hf;
    try (intros d0 [items' [Hv' [Hd' Hf']]]; rewrite Hv in Hv'; injection Hv' as <-;
         congruence).
  exists items. auto.
Qed.

Lemma only_child_dir_functional git_tracked exclude dir d1 d2 :
  only_child_dir fs git_tracked exclude dir d1 ->
  only_child_dir fs git_tracked exclude dir d2 -> d1 = d2.
Proof.
  intros [i1 [Hv1 [Hd1 _]]] [i2 [Hv2 [Hd2 _]]]. congruence.
Qed.

Lemma only_child_dir_lower git_tracked exclude dir d :
  only_child_dir fs git_tracked exclude dir d ->
  Path.is_dir fs d = true /\ (height_at fs d < height_at fs dir)%nat
  /\ exists n, d = dir ++ [n] /\ matches_patterns n exclude = false.
Proof.
  intros [items [Hv [Hd _]]].
  assert (Hin : In d (List.filter (Path.is_dir fs) items)) by (rewrite Hd; left; reflexivity).
  apply filter_In in Hin as [Hin Hdir].
  destruct (listed_inv fs git_tracked exclude dir d) as [listing [n [Hit [Hl [-> Hn]]]]].
  { exists items. auto. }
  split; [assumption|]. split; [|eauto].
  eapply listing_height; eassumption.
Qed.

(** The loop follows only-child directories and stops at the first
    directory that is not one. *)
Lemma collapse_single_dirs_collapses fuel dir git_tracked exclude r :
  collapse_single_dirs fs fuel dir git_tracked exclude = Ok r ->
  collapses_to fs git_tracked (default [] exclude) dir r.
Proof.
  revert dir. induction fuel as [|fuel IH]; intros dir; [discriminate|].
  rewrite collapse_single_dirs_step. intros H.
  apply bind_Ok in H as [items [Hv H]].
  pose proof (only_child_dir_cases _ _ _ _ Hv) as Hc.
  destruct (List.filter (Path.is_dir fs) items) as [|d [|d' dirs]];
    destruct (List.filter (Path.is_file fs) items) as [|f files];
    try (injection H as <-; split; [apply rtc_refl | exact Hc]).
  destruct (IH _ H) as [Hrtc Hstuck].
  split; [|exact Hstuck]. eapply rtc_l; eassumption.
Qed.

Lemma collapse_single_dirs_total fuel dir git_tracked exclude :
  Path.is_dir fs dir = true -> (height_at fs dir <= fuel)%nat ->
  exists r, collapse_single_dirs fs fuel dir git_tracked exclude = Ok r
            /\ Path.is_dir fs r = true /\ (height_at fs r <= height_at fs dir)%nat.
Proof.
  revert dir. induction fuel as [|fuel IH]; intros dir Hdir Hh.
  { apply is_dir_height in Hdir. lia. }
  rewrite collapse_single_dirs_step. unfold visible_children.
  destruct (is_dir_iterdir _ _ Hdir) as [listing Hit]. rewrite Hit. simpl.
  set (items := keep_tracked fs git_tracked _).
  assert (Hv : visible_children fs dir git_tracked (default [] exclude) = Ok items).
  { unfold visible_children. rewrite Hit. reflexivity. }
  pose proof (only_child_dir_cases _ _ _ _ Hv) as Hc.
  destruct (List.filter (Path.is_dir fs) items) as [|d [|d' dirs]];
    destruct (List.filter (Path.is_file fs) items) as [|f files];
    try (exists dir; split; [reflexivity | split; [assumption | lia]]).
  apply only_child_dir_lower in Hc as [Hd [Hlt _]].
  destruct (IH d Hd) as [r [Hr [Hrd Hrh]]]; [lia|].
  exists r. split; [assumption|]. split; [assumption | lia].
Qed.

Lemma collapses_to_functional git_tracked exclude start d1 d2 :
  collapses_to fs git_tracked exclude start d1 ->
  collapses_to fs git_tracked exclude start d2 -> d1 = d2.
Proof.
  intros [H1 S1] [H2 S2]. induction H1 as [x|x y z Hxy Hyz IH].
  - destruct H2 as [|x y z Hxy _]; [reflexivity|]. exfalso. eapply S1, Hxy.
  - destruct H2 as [|x y' z' Hxy' Hyz']; [exfalso; eapply S2, Hxy|].
    rewrite (only_child_dir_functional _ _ _ _ _ Hxy' Hxy) in Hyz'. auto.
Qed.

Lemma collapses_to_below git_tracked exclude start dir :
  collapses_to fs git_tracked exclude start dir ->
  exists chain, dir = start ++ chain
                /\ Forall (fun n => matches_patterns n exclude = false) chain.
Proof.
  intros [H _]. induction H as [x|x y z Hxy _ IH].
  - exists []. split; [now rewrite app_nil_r | constructor].
  - apply only_child_dir_lower in Hxy as [_ [_ [n [-> Hn]]]].
    destruct IH as [chain [-> Hc]].
    exists (n :: chain). split; [now rewrite <- app_assoc | constructor; assumption].
Qed.
End Collapse.

(** ** The rows of a call *)

Section Rows.
Context {L : PyStr}.
Variable fs : entry.
Variables (git_tracked : option (gset path)) (color show_sizes compact : bool)
          (depth : option Z).

Lemma build_tree_rows_Ok fuel call indent exclude current_level ancestors rows :
  build_tree_rows fs (S fuel) call indent exclude git_tracked color show_sizes compact
    depth current_level ancestors = Ok rows ->
  exists dir listing blocks,
    compacted fs compact git_tracked (default [] exclude) call dir
    /\ Path.iterdir fs dir = Ok listing
    /\ Forall2
         (fun x b =>
            row_block fs
              (fun item indent' =>
                 build_tree_rows fs fuel item indent' (Some (default [] exclude))
                   git_tracked color show_sizes compact depth (current_level + 1)
                   (item :: ancestors))
              call dir ancestors indent color show_sizes depth current_level
              (length (items_of fs git_tracked (default [] exclude) listing)) x = Ok b)
         (enumerate (items_of fs git_tracked (default [] exclude) listing)) blocks
    /\ rows = concat blocks.
Proof.
  cbn [build_tree_rows]. intros H.
  apply bind_Ok in H as [dir [Hdir H]].
  apply bind_Ok in H as [listing [Hit H]].
  rewrite for_each_row_gather in H.
  apply bind_Ok in H as [blocks [Hg [= <-]]].
  apply gather_Ok in Hg as [bs [HF ->]].
  exists dir, listing, bs. repeat split; try assumption.
  unfold compacted. destruct compact.
  - apply collapse_single_dirs_collapses in Hdir. exact Hdir.
  - now injection Hdir as <-.
Qed.

Lemma listed_items exclude dir listing item :
  Path.iterdir fs dir = Ok listing -> In item (items_of fs git_tracked exclude listing) ->
  listed fs git_tracked exclude dir item.
Proof.
  intros Hit Hin. apply items_visible in Hin.
  eexists. split; [|exact Hin]. unfold visible_children. now rewrite Hit.
Qed.

(** A property of rows holds of all rows if it holds of the rows a call
    emits itself and is passed up from a rendered directory. *)
Section Induction.
Variable exclude' : list string.
Variable P : path -> Z -> list path -> row -> Prop.

Hypothesis P_direct : forall call lvl anc dir item indent i n,
  compacted fs compact git_tracked exclude' call dir ->
  listed fs git_tracked exclude' dir item ->
  depth_reached depth lvl = false ->
  P call lvl anc {| row_line := render fs indent i n item color show_sizes;
                    row_level := lvl; row_call := call;
                    row_dir := dir; row_item := item; row_ancestors := anc |}.

Hypothesis P_lift : forall call lvl anc dir item r,
  compacted fs compact git_tracked exclude' call dir ->
  listed fs git_tracked exclude' dir item ->
  Path.is_dir fs item = true ->
  depth_reached depth lvl = false ->
  P item (lvl + 1) (item :: anc) r -> P call lvl anc r.

Lemma build_tree_rows_Forall fuel call indent exclude lvl anc rows :
  default [] exclude = exclude' ->
  build_tree_rows fs fuel call indent exclude git_tracked color show_sizes compact
    depth lvl anc = Ok rows ->
  Forall (P call lvl anc) rows.
Proof.
  revert call indent exclude lvl anc rows.
  induction fuel as [|fuel IH]; intros call indent exclude lvl anc rows He H;
    [discriminate|].
  apply build_tree_rows_Ok in H as [dir [listing [blocks [Hc [Hit [HF ->]]]]]].
  rewrite He in *.
  apply Forall_concat, List.Forall_forall. intros b Hb.
  destruct (Forall2_In_r _ _ _ HF b Hb) as [[i item] [Hin Hblock]].
  apply in_enumerate in Hin.
  pose proof (listed_items _ _ _ _ Hit Hin) as Hl.
  unfold row_block in Hblock. simpl in Hblock.
  destruct (depth_reached depth lvl) eqn:Hd.
  { injection Hblock as <-. constructor. }
  destruct (Path.is_dir fs item) eqn:Hdir.
  - apply bind_Ok in Hblock as [sub [Hsub [= <-]]].
    constructor; [now apply P_direct with (dir := dir)|].
    apply IH in Hsub; [|reflexivity].
    eapply List.Forall_impl; [|exact Hsub].
    intros r. now apply P_lift with (dir := dir).
  - injection Hblock as <-.
    constructor; [now apply P_direct with (dir := dir) | constructor].
Qed.
End Induction.
End Rows.

(** ** Termination: fuel above the height of the start directory is enough *)

Section Total.
Context {L : PyStr}.
Variable fs : entry.

Lemma items_of_listing git_tracked exclude listing item :
  In item (items_of fs git_tracked exclude listing) -> In item listing.
Proof.
  intros H. apply items_visible, In_keep_tracked, filter_In in H. tauto.
Qed.

Lemma build_tree_rows_total fuel startpath indent exclude git_tracked color show_sizes
    compact depth current_level ancestors :
  Path.is_dir fs startpath = true -> (height_at fs startpath <= fuel)%nat ->
  exists rows,
    build_tree_rows fs fuel startpath indent exclude git_tracked color show_sizes compact
      depth current_level ancestors = Ok rows.
Proof.
  revert startpath indent exclude current_level ancestors.
  induction fuel as [|fuel IH]; intros startpath indent exclude lvl anc Hdir Hh.
  { apply is_dir_height in Hdir. lia. }
  cbn [build_tree_rows].
  assert (Hc : exists dir,
             (if compact
              then collapse_single_dirs fs (S fuel) startpath git_tracked
                     (Some (default [] exclude))
              else Ok startpath) = Ok dir
             /\ Path.is_dir fs dir = true
             /\ (height_at fs dir <= S fuel)%nat).
  { destruct compact.
    - destruct (collapse_single_dirs_total fs (S fuel) startpath git_tracked
                  (Some (default [] exclude)) Hdir Hh) as [r [Hr [Hrd Hrh]]].
      exists r. split; [assumption|]. split; [assumption | lia].
    - exists startpath. auto. }
  destruct Hc as [dir [-> [Hd Hdh]]]. simpl.
  destruct (is_dir_iterdir _ _ Hd) as [listing Hit]. rewrite Hit. simpl.
  rewrite for_each_row_gather.
  match goal with |- context [gather ?f ?l] => destruct (gather_total f l) as [r Hr] end.
  - intros [i item] Hin. apply in_enumerate in Hin.
    unfold row_block. simpl.
    destruct (depth_reached depth lvl); [eauto|].
    destruct (Path.is_dir fs item) eqn:Hi; [|eauto].
    edestruct (IH item) as [sub ->]; [exact Hi| |simpl; eauto].
    apply items_of_listing in Hin.
    pose proof (listing_height fs dir item listing Hit Hin Hi). lia.
  - rewrite Hr. simpl. eauto.
Qed.

Lemma build_tree_lines_total fuel startpath indent exclude git_tracked color show_sizes
    compact depth current_level :
  Path.is_dir fs startpath = true -> (height_at fs startpath <= fuel)%nat ->
  exists lines,
    build_tree_lines fs fuel startpath indent exclude git_tracked color show_sizes compact
      depth current_level = Ok lines.
Proof.
  intros Hdir Hh. rewrite (build_tree_lines_rows fs _ _ _ _ _ _ _ _ _ _ []).
  destruct (build_tree_rows_total fuel startpath indent exclude git_tracked color
              show_sizes compact depth current_level [] Hdir Hh) as [rows ->].
  simpl. eauto.
Qed.

(** Where each row comes from: the rendered directories above it are
    rows of the same output, one per level. *)
Lemma rows_provenance fuel startpath indent exclude git_tracked color show_sizes compact
    depth current_level ancestors rows :
  build_tree_rows fs fuel startpath indent exclude git_tracked color show_sizes compact
    depth current_level ancestors = Ok rows ->
  forall r, In r rows ->
    depth_reached depth (row_level r) = false
    /\ exists chain,
         row_ancestors r = chain ++ ancestors
         /\ row_level r = current_level + Z.of_nat (length chain)
         /\ forall a, In a chain ->
              Path.is_dir fs a = true
              /\ exists r', In r' rows /\ row_item r' = a /\ row_level r' < row_level r.
Proof.
  revert startpath indent exclude current_level ancestors rows.
  induction fuel as [|fuel IH]; intros startpath indent exclude lvl anc rows H;
    [discriminate|].
  apply build_tree_rows_Ok in H as [dir [listing [blocks [_ [_ [HF ->]]]]]].
  intros r Hr. apply in_concat in Hr as [b [Hb Hr]].
  destruct (Forall2_In_r _ _ _ HF b Hb) as [[i item] [_ Hblock]].
  unfold row_block in Hblock. simpl in Hblock.
  destruct (depth_reached depth lvl) eqn:Hd.
  { injection Hblock as <-. destruct Hr. }
  assert (Hdirect : forall r0, row_level r0 = lvl -> row_ancestors r0 = anc ->
            depth_reached depth (row_level r0) = false
            /\ exists chain, row_ancestors r0 = chain ++ anc
                 /\ row_level r0 = lvl + Z.of_nat (length chain)
                 /\ forall a, In a chain ->
                      Path.is_dir fs a = true
                      /\ exists r', In r' (concat blocks) /\ row_item r' = a
                                    /\ row_level r' < row_level r0).
  { intros r0 Hl Ha. rewrite Hl. split; [exact Hd|].
    exists []. simpl. split; [assumption|]. split; [lia | intros a []]. }
  destruct (Path.is_dir fs item) eqn:Hdir.
  - apply bind_Ok in Hblock as [sub [Hsub [= <-]]].
    destruct Hr as [<-|Hr]; [apply Hdirect; reflexivity|].
    destruct (IH _ _ _ _ _ _ Hsub r Hr) as [Hdr [chain [Ha [Hl Hc]]]].
    split; [exact Hdr|].
    exists (chain ++ [item]). rewrite <- app_assoc, length_app. simpl.
    split; [exact Ha|]. split; [lia|].
    intros a Hin. apply in_app_or in Hin as [Hin|[<-|[]]].
    + destruct (Hc a Hin) as [Hda [r' [Hr' [Hi Hlt]]]].
      split; [exact Hda|]. exists r'. split; [|auto].
      apply in_concat. eexists. split; [exact Hb | right; exact Hr'].
    + split; [exact Hdir|]. eexists. split; [|split].
      * apply in_concat. eexists. split; [exact Hb | left; reflexivity].
      * reflexivity.
      * simpl. lia.
  - injection Hblock as <-. destruct Hr as [<-|[]]. apply Hdirect; reflexivity.
Qed.
End Total.

(** ** Depth *)

Section Depth.
Context {L : PyStr}.
Variable fs : entry.

Lemma gate_closed_rows fuel startpath indent exclude git_tracked color show_sizes compact
    depth current_level ancestors rows :
  depth_reached depth current_level = true ->
  build_tree_rows fs fuel startpath indent exclude git_tracked color show_sizes compact
    depth current_level ancestors = Ok rows ->
  rows = [].
Proof.
  intros Hd H. destruct rows as [|r rows]; [reflexivity|]. exfalso.
  destruct (rows_provenance fs _ _ _ _ _ _ _ _ _ _ _ _ H r) as [Hr [chain [_ [Hl _]]]];
    [left; reflexivity|].
  destruct depth as [d|]; [|discriminate]. simpl in *.
  apply Z.leb_le in Hd. apply Z.leb_gt in Hr. lia.
Qed.

Lemma gate_closed_lines fuel startpath indent exclude git_tracked color show_sizes compact
    depth current_level :
  depth_reached depth current_level = true ->
  Path.is_dir fs startpath = true -> (height_at fs startpath <= fuel)%nat ->
  build_tree_lines fs fuel startpath indent exclude git_tracked color show_sizes compact
    depth current_level = Ok [].
Proof.
  intros Hd Hdir Hh. rewrite (build_tree_lines_rows fs _ _ _ _ _ _ _ _ _ _ []).
  destruct (build_tree_rows_total fs fuel startpath indent exclude git_tracked color
              show_sizes compact depth current_level [] Hdir Hh) as [rows Hrows].
  rewrite Hrows. apply gate_closed_rows in Hrows; [|exact Hd]. now subst.
Qed.
End Depth.

(** C3 — With a maximum depth [N >= 0], every emitted line has a nesting
    level below [N], the level being the number of rendered directories
    above the entry; each of those directories is itself a row of the
    output, at a smaller level, so nothing appears beneath a directory
    that the depth gate skipped; a call whose level has reached [N]
    emits nothing, and depth 0 gives the empty list of lines. *)
Theorem depth_gate_bounds_levels {L : PyStr} (fs : entry) (fuel : nat) (startpath : path)
    (indent : string) (exclude : option (list string)) (git_tracked : option (gset path))
    (color show_sizes compact : bool) (N : Z) :
  0 <= N ->
  (forall current_level rows,
     build_tree_rows fs fuel startpath indent exclude git_tracked color show_sizes compact
       (Some N) current_level [] = Ok rows ->
     build_tree_lines fs fuel startpath indent exclude git_tracked color show_sizes compact
       (Some N) current_level = Ok (map row_line rows)
     /\ Forall (fun r => row_level r = current_level + Z.of_nat (length (row_ancestors r))
                         /\ row_level r < N) rows
     /\ (forall r a, In r rows -> In a (row_ancestors r) ->
           Path.is_dir fs a = true
           /\ exists r', In r' rows /\ row_item r' = a /\ row_level r' < row_level r)
     /\ (N <= current_level -> rows = []))
  /\ (N = 0 -> Path.is_dir fs startpath = true -> (height_at fs startpath <= fuel)%nat ->
      build_tree_lines fs fuel startpath indent exclude git_tracked color show_sizes compact
        (Some N) 0 = Ok []).
Proof.
  intros HN. split.
  - intros lvl rows H. split; [|split; [|split]].
    + rewrite (build_tree_lines_rows fs _ _ _ _ _ _ _ _ _ _ []), H. reflexivity.
    + apply List.Forall_forall. intros r Hr.
      destruct (rows_provenance fs _ _ _ _ _ _ _ _ _ _ _ _ H r Hr)
        as [Hd [chain [Ha [Hl _]]]].
      rewrite app_nil_r in Ha. subst chain. split; [exact Hl|].
      simpl in Hd. apply Z.leb_gt in Hd. exact Hd.
    + intros r a Hr Ha.
      destruct (rows_provenance fs _ _ _ _ _ _ _ _ _ _ _ _ H r Hr)
        as [_ [chain [Hc [_ Hanc]]]].
      rewrite app_nil_r in Hc. subst chain. apply Hanc, Ha.
    + intros Hle. eapply gate_closed_rows; [|exact H]. simpl. now apply Z.leb_le.
  - intros -> Hdir Hh. apply gate_closed_lines; auto.
Qed.

Lemma depth_gate_bounds_levels_witness :
  0 <= 1
  /\ exists rows,
       build_tree_lines (L := posix_ascii) scenario 2 [] "" None None false true false
         (Some 1) 0 = Ok (map row_line rows)
       /\ Forall (fun r => row_level r = 0 + Z.of_nat (length (row_ancestors r))
                           /\ row_level r < 1) rows
       /\ length rows = 3%nat.
Proof.
  split; [lia|].
  destruct (build_tree_rows (L := posix_ascii) scenario 2 [] "" None None false true false
              (Some 1) 0 []) as [rows| |] eqn:E; try (vm_compute in E; discriminate E).
  exists rows.
  destruct (depth_gate_bounds_levels (L := posix_ascii) scenario 2 [] "" None None false
              true false 1 ltac:(lia)) as [H _].
  destruct (H 0 rows E) as [Hlines [Hlevels _]].
  split; [exact Hlines|]. split; [exact Hlevels|].
  vm_compute in E. injection E as <-. reflexivity.
Defined.

(** C10 — A negative depth is taken as it is given: the gate
    [current_level >= depth] holds at level 0, so every entry of the root
    is skipped and the output is empty, as it is for depth 0; [main] hands
    the number over unchecked. *)
Theorem negative_depth_shows_nothing {L : PyStr} (fs : entry) (fuel : nat) (root : path)
    (indent : string) (exclude : option (list string)) (git_tracked : option (gset path))
    (color show_sizes compact : bool) (N : Z) :
  N < 0 -> Path.is_dir fs root = true -> (height_at fs root <= fuel)%nat ->
  build_tree_lines fs fuel root indent exclude git_tracked color show_sizes compact
    (Some N) 0 = Ok []
  /\ build_tree_lines fs fuel root indent exclude git_tracked color show_sizes compact
       (Some N) 0
     = build_tree_lines fs fuel root indent exclude git_tracked color show_sizes compact
         (Some 0) 0
  /\ (forall git args,
        arg_path args = root -> arg_depth args = Some N -> arg_git args = false ->
        main fuel fs git args
        = Ok (if arg_clipboard args
              then {| printed := "Tree copied to clipboard!"; copied := Some ""%string |}
              else {| printed := ""; copied := None |})).
Proof.
  intros HN Hdir Hh.
  assert (Hneg : forall indent exclude git_tracked color show_sizes compact,
            build_tree_lines fs fuel root indent exclude git_tracked color show_sizes
              compact (Some N) 0 = Ok []).
  { intros. apply gate_closed_lines; auto. simpl. apply Z.leb_le. lia. }
  split; [apply Hneg|]. split.
  - rewrite Hneg. symmetry. apply gate_closed_lines; auto.
  - intros git args Hp Hd Hg. unfold main. rewrite Hp, Hd, Hg.
    unfold Path.exists_. unfold Path.is_dir in Hdir.
    destruct (resolve fs root) as [[| |]|]; try discriminate. simpl.
    rewrite Hneg. simpl. destruct (arg_clipboard args); reflexivity.
Qed.

Lemma negative_depth_shows_nothing_witness :
  -1 < 0
  /\ build_tree_lines (L := posix_ascii) scenario 2 [] "" None None false true false
       (Some (-1)) 0 = Ok [].
Proof.
  split; [lia|].
  apply (negative_depth_shows_nothing (L := posix_ascii) scenario 2 [] "" None None false
           true false (-1)); [lia | reflexivity | vm_compute; lia].
Defined.

(** ** Exclusion *)

Lemma matches_patterns_spec {L : PyStr} (name : string) (patterns : list string) :
  matches_patterns name patterns = true
  <-> exists pat, In pat patterns /\ fnmatch name pat = true.
Proof.
  unfold matches_patterns. rewrite existsb_exists. reflexivity.
Qed.

Lemma render_carries_name {L : PyStr} fs indent i n item color show_sizes :
  exists before after,
    render fs indent i n item color show_sizes = before +:+ Path.name item +:+ after.
Proof.
  unfold render.
  set (size := if show_sizes && Path.is_file fs item then _ else _).
  destruct (color && Path.is_dir fs item).
  - exists (indent +:+ connector i n +:+ COLOR_DIR), (RESET_ALL +:+ size).
    now rewrite !string_app_assoc.
  - exists (indent +:+ connector i n +:+ COLOR_FILE), (RESET_ALL +:+ size).
    now rewrite !string_app_assoc.
Qed.

(** C5 — No emitted line is for an entry whose name matches an exclusion
    pattern, and none is for an entry beneath a directory whose name
    matches one: every component of the entry's path below the start
    path, the name that the line carries among them, matches no pattern.
    A name matches the list when it matches one of its patterns, so the
    empty list excludes nothing. *)
Theorem excluded_names_never_shown {L : PyStr} (fs : entry) (fuel : nat) (startpath : path)
    (indent : string) (exclude : option (list string)) (git_tracked : option (gset path))
    (color show_sizes compact : bool) (depth : option Z) (current_level : Z)
    (lines : list string) :
  build_tree_lines fs fuel startpath indent exclude git_tracked color show_sizes compact
    depth current_level = Ok lines ->
  (exists rows,
     build_tree_rows fs fuel startpath indent exclude git_tracked color show_sizes compact
       depth current_level [] = Ok rows
     /\ lines = map row_line rows
     /\ Forall (fun r =>
                  (exists before after,
                     row_line r = before +:+ Path.name (row_item r) +:+ after)
                  /\ matches_patterns (Path.name (row_item r)) (default [] exclude) = false
                  /\ exists below,
                       row_item r = startpath ++ below
                       /\ Forall (fun n => matches_patterns n (default [] exclude) = false)
                            below) rows)
  /\ (forall name, matches_patterns name [] = false)
  /\ (forall name patterns,
        matches_patterns name patterns = true
        <-> exists pat, In pat patterns /\ fnmatch name pat = true).
Proof.
  intros H. split; [|split; [reflexivity | apply matches_patterns_spec]].
  rewrite (build_tree_lines_rows fs _ _ _ _ _ _ _ _ _ _ []) in H.
  apply bind_Ok in H as [rows [Hrows [= <-]]].
  exists rows. split; [exact Hrows|]. split; [reflexivity|].
  revert Hrows.
  apply (build_tree_rows_Forall fs git_tracked color show_sizes compact depth
           (default [] exclude)
           (fun call _ _ r =>
              (exists before after,
                 row_line r = before +:+ Path.name (row_item r) +:+ after)
              /\ matches_patterns (Path.name (row_item r)) (default [] exclude) = false
              /\ exists below,
                   row_item r = call ++ below
                   /\ Forall (fun n => matches_patterns n (default [] exclude) = false)
                        below)); [| |reflexivity].
  - intros call lvl anc dir item indent' i n Hc Hl _. simpl.
    apply listed_inv in Hl as [listing [m [_ [_ [-> Hm]]]]].
    split; [apply render_carries_name|]. rewrite name_snoc. split; [exact Hm|].
    assert (Hchain : exists chain, dir = call ++ chain
              /\ Forall (fun n => matches_patterns n (default [] exclude) = false) chain).
    { unfold compacted in Hc. destruct compact.
      - eapply collapses_to_below, Hc.
      - subst dir. exists []. split; [now rewrite app_nil_r | constructor]. }
    destruct Hchain as [chain [-> Hchain]].
    exists (chain ++ [m]). rewrite app_assoc. split; [reflexivity|].
    apply Forall_app. split; [exact Hchain | constructor; [exact Hm | constructor]].
  - intros call lvl anc dir item r Hc Hl _ _ [Hline [Hname [below [Hb HF]]]].
    split; [exact Hline|]. split; [exact Hname|].
    apply listed_inv in Hl as [listing [m [_ [_ [-> Hm]]]]].
    assert (Hchain : exists chain, dir = call ++ chain
              /\ Forall (fun n => matches_patterns n (default [] exclude) = false) chain).
    { unfold compacted in Hc. destruct compact.
      - eapply collapses_to_below, Hc.
      - subst dir. exists []. split; [now rewrite app_nil_r | constructor]. }
    destruct Hchain as [chain [-> Hchain]].
    exists (chain ++ [m] ++ below). rewrite Hb, <- !app_assoc. split; [reflexivity|].
    apply Forall_app. split; [exact Hchain|].
    apply Forall_app. split; [constructor; [exact Hm | constructor] | exact HF].
Qed.

Lemma excluded_names_never_shown_witness :
  exists lines,
    build_tree_lines (L := posix_ascii) scenario 2 [] "" (Some ["*.txt"%string]) None
      false true false None 0 = Ok lines
    /\ exists rows,
         lines = map row_line rows
         /\ Forall (fun r => matches_patterns (L := posix_ascii) (Path.name (row_item r))
                               ["*.txt"%string] = false) rows
         /\ length rows = 1%nat.
Proof.
  destruct (build_tree_lines (L := posix_ascii) scenario 2 [] "" (Some ["*.txt"%string])
              None false true false None 0) as [lines| |] eqn:E;
    try (vm_compute in E; discriminate E).
  exists lines. split; [reflexivity|].
  destruct (excluded_names_never_shown (L := posix_ascii) scenario 2 [] ""
              (Some ["*.txt"%string]) None false true false None 0 lines E)
    as [[rows [Hrows [Hlines HF]]] _].
  exists rows. split; [exact Hlines|]. split.
  - eapply List.Forall_impl; [|exact HF]. intros r [_ [H _]]. exact H.
  - vm_compute in Hrows. injection Hrows as <-. reflexivity.
Defined.

(** ** Compaction at every level *)

(** Each row is an entry of the directory that its call lists, and its
    call started at the rendered directory just above it. *)
Lemma rows_calls {L : PyStr} (fs : entry) fuel startpath indent exclude git_tracked color
    show_sizes compact depth current_level rows :
  build_tree_rows fs fuel startpath indent exclude git_tracked color show_sizes compact
    depth current_level [] = Ok rows ->
  Forall (fun r =>
            row_call r = hd startpath (row_ancestors r)
            /\ (if compact
                then collapses_to fs git_tracked (default [] exclude) (row_call r) (row_dir r)
                else row_dir r = row_call r)
            /\ listed fs git_tracked (default [] exclude) (row_dir r) (row_item r)) rows.
Proof.
  intros H.
  pose (P := fun (call : path) (_ : Z) (anc : list path) (r : row) =>
               ((row_ancestors r = anc /\ row_call r = call)
                \/ exists rest, row_ancestors r = row_call r :: rest
                                /\ (length anc <= length rest)%nat)
               /\ compacted fs compact git_tracked (default [] exclude)
                    (row_call r) (row_dir r)
               /\ listed fs git_tracked (default [] exclude) (row_dir r) (row_item r)).
  assert (HF : Forall (P startpath current_level []) rows).
  { revert H.
    apply (build_tree_rows_Forall fs git_tracked color show_sizes compact depth
             (default [] exclude) P); [| |reflexivity]; unfold P.
    - intros call l anc dir item indent' i n Hc Hl _. simpl. auto.
    - intros call l anc dir item r _ _ _ _ [[[Ha Hcall]|[rest [Ha Hlen]]] Hrest].
      + split; [|exact Hrest]. right. exists anc. rewrite Ha, Hcall. auto.
      + split; [|exact Hrest]. right. exists rest. split; [exact Ha|]. simpl in Hlen. lia. }
  unfold P in HF.
  eapply List.Forall_impl; [|exact HF]. simpl.
  intros r [Hcall [Hc Hl]]. split; [|split; [|exact Hl]].
  - destruct Hcall as [[-> ->]|[rest [-> _]]]; reflexivity.
  - unfold compacted in Hc. destruct compact; exact Hc.
Qed.

(** C2 — With compaction the loop of [collapse_single_dirs] moves from a
    directory to its only child directory for as long as the directory,
    after the exclusion filter and the tracking filter, shows exactly one
    directory and no file, and returns the first directory for which that
    fails; it returns whenever the fuel covers the height of the tree.
    Every call of the builder does this anew: each row, at whatever
    level, is an entry of the directory that the start path of its own
    call collapses to, that start path being the rendered directory just
    above the row (the start path of the whole run for the rows of the
    top level).  Without compaction the call lists its start path. *)
Theorem compaction_at_every_call {L : PyStr} (fs : entry) (git_tracked : option (gset path))
    (exclude : option (list string)) :
  (forall fuel dir r,
     collapse_single_dirs fs fuel dir git_tracked exclude = Ok r ->
     rtc (only_child_dir fs git_tracked (default [] exclude)) dir r
     /\ forall d, ~ only_child_dir fs git_tracked (default [] exclude) r d)
  /\ (forall fuel dir,
        Path.is_dir fs dir = true -> (height_at fs dir <= fuel)%nat ->
        exists r, collapse_single_dirs fs fuel dir git_tracked exclude = Ok r)
  /\ (forall fuel startpath indent color show_sizes compact depth current_level rows,
        build_tree_rows fs fuel startpath indent exclude git_tracked color show_sizes
          compact depth current_level [] = Ok rows ->
        build_tree_lines fs fuel startpath indent exclude git_tracked color show_sizes
          compact depth current_level = Ok (map row_line rows)
        /\ Forall (fun r =>
                     row_call r = hd startpath (row_ancestors r)
                     /\ (if compact
                         then collapses_to fs git_tracked (default [] exclude)
                                (row_call r) (row_dir r)
                         else row_dir r = row_call r)
                     /\ listed fs git_tracked (default [] exclude)
                          (row_dir r) (row_item r)) rows).
Proof.
  split; [|split].
  - intros fuel dir r H. apply collapse_single_dirs_collapses in H. exact H.
  - intros fuel dir Hdir Hh.
    destruct (collapse_single_dirs_total fs fuel dir git_tracked exclude Hdir Hh)
      as [r [Hr _]]. eauto.
  - intros fuel startpath indent color show_sizes compact depth lvl rows H.
    split; [rewrite (build_tree_lines_rows fs _ _ _ _ _ _ _ _ _ _ []), H; reflexivity|].
    exact (rows_calls fs _ _ _ _ _ _ _ _ _ _ _ H).
Qed.

Lemma compaction_at_every_call_witness :
  exists rows,
    build_tree_lines (L := posix_ascii) wrapped 6 [] "" None None false true true None 0
      = Ok (map row_line rows)
    /\ map row_item rows
       = [["src"; "main"; "java"; "pkg"]; ["src"; "main"; "java"; "pkg"; "inner"; "B.java"];
          ["src"; "main"; "java"; "A.java"]]%string
    /\ Forall (fun r => collapses_to (L := posix_ascii) wrapped None []
                          (row_call r) (row_dir r)) rows.
Proof.
  destruct (build_tree_rows (L := posix_ascii) wrapped 6 [] "" None None false true true
              None 0 []) as [rows| |] eqn:E; try (vm_compute in E; discriminate E).
  exists rows.
  destruct (compaction_at_every_call (L := posix_ascii) wrapped None None) as [_ [_ H]].
  destruct (H 6%nat [] ""%string false true true None 0 rows E) as [Hlines HF].
  split; [exact Hlines|]. split.
  - vm_compute in E. injection E as <-. reflexivity.
  - eapply List.Forall_impl; [|exact HF]. intros r [_ [Hc _]]. exact Hc.
Defined.

(** ** Order of siblings *)

Section Siblings.
Context {L : PyStr}.
Variable fs : entry.

Lemma key_le_nonfiles_then_files (a b : path) :
  key_le (sort_key fs a) (sort_key fs b) = nonfiles_then_files fs a b.
Proof.
  unfold key_le, sort_key, nonfiles_then_files. simpl.
  destruct (Path.is_file fs a), (Path.is_file fs b); simpl; reflexivity.
Qed.

Lemma nonfiles_then_files_kinds (a b : path) :
  nonfiles_then_files fs a b = true ->
  kind_of fs a <> NeitherKind -> kind_of fs b <> NeitherKind ->
  dirs_then_files fs a b = true.
Proof.
  unfold nonfiles_then_files, dirs_then_files, kind_of.
  destruct (Path.is_dir fs a) eqn:Da, (Path.is_file fs a) eqn:Fa,
    (Path.is_dir fs b) eqn:Db, (Path.is_file fs b) eqn:Fb; simpl;
    try congruence; try (intros _ H; exfalso; apply H; reflexivity);
    try (intros _ _ H; exfalso; apply H; reflexivity).
  all: unfold Path.is_dir, Path.is_file in *;
    try (destruct (resolve fs a) as [[| |]|]; discriminate);
    try (destruct (resolve fs b) as [[| |]|]; discriminate).
Qed.

Lemma items_of_StronglySorted git_tracked exclude listing :
  StronglySorted (fun a b => nonfiles_then_files fs a b = true)
    (items_of fs git_tracked exclude listing).
Proof.
  assert (H : StronglySorted (fun a b => key_le (sort_key fs a) (sort_key fs b) = true)
                (items_of fs git_tracked exclude listing)).
  { unfold items_of, keep_tracked. destruct git_tracked as [t|].
    - apply filter_StronglySorted.
      apply sorted_StronglySorted; [apply key_le_total | apply key_le_trans].
    - apply sorted_StronglySorted; [apply key_le_total | apply key_le_trans]. }
  revert H. generalize (items_of fs git_tracked exclude listing). intros l.
  induction 1 as [|x l _ IH Hx]; constructor; [exact IH|].
  eapply List.Forall_impl; [|exact Hx].
  intros y Hy. rewrite <- key_le_nonfiles_then_files. exact Hy.
Qed.

Lemma map_snd_enumerate {A : Type} (l : list A) : map snd (enumerate l) = l.
Proof.
  unfold enumerate. generalize 0%nat. induction l as [|x l IH]; intros k; simpl;
    [reflexivity|]. now rewrite IH.
Qed.

Lemma filter_none {A : Type} (f : A -> bool) (l : list A) :
  Forall (fun x => f x = false) l -> List.filter f l = [].
Proof.
  induction 1 as [|x l Hx _ IH]; simpl; [reflexivity|]. now rewrite Hx.
Qed.

(** The rows of the call's own level are the entries it went through. *)
Lemma direct_rows_items fuel startpath indent exclude git_tracked color show_sizes compact
    depth current_level ancestors rows :
  build_tree_rows fs fuel startpath indent exclude git_tracked color show_sizes compact
    depth current_level ancestors = Ok rows ->
  exists dir listing,
    compacted fs compact git_tracked (default [] exclude) startpath dir
    /\ Path.iterdir fs dir = Ok listing
    /\ Forall (fun r => row_dir r = dir /\ row_ancestors r = ancestors)
         (direct_rows current_level rows)
    /\ map row_item (direct_rows current_level rows)
       = if depth_reached depth current_level then []
         else items_of fs git_tracked (default [] exclude) listing.
Proof.
  destruct fuel as [|fuel]; [discriminate|]. intros H.
  apply build_tree_rows_Ok in H as [dir [listing [blocks [Hc [Hit [HF ->]]]]]].
  exists dir, listing. split; [exact Hc|]. split; [exact Hit|].
  rewrite <- (map_snd_enumerate (items_of fs git_tracked (default [] exclude) listing)).
  revert HF. generalize (enumerate (items_of fs git_tracked (default [] exclude) listing)).
  generalize (length (items_of fs git_tracked (default [] exclude) listing)).
  intros n xs HF. unfold direct_rows.
  induction HF as [|[i item] b xs bs Hb _ [IH1 IH2]]; simpl.
  { split; [constructor | now destruct (depth_reached depth current_level)]. }
  rewrite List.filter_app, map_app. unfold row_block in Hb. simpl in Hb.
  destruct (depth_reached depth current_level) eqn:Hd.
  { injection Hb as <-. simpl. auto. }
  assert (Hsub : forall sub,
            (Path.is_dir fs item = true ->
             build_tree_rows fs fuel item (indent +:+ extension i n)
               (Some (default [] exclude)) git_tracked color show_sizes compact depth
               (current_level + 1) (item :: ancestors) = Ok sub) ->
            (Path.is_dir fs item = false -> sub = []) ->
            List.filter (fun r => row_level r =? current_level) sub = []).
  { intros sub Hrec Hnil. destruct (Path.is_dir fs item); [|now rewrite Hnil].
    specialize (Hrec eq_refl). apply filter_none, List.Forall_forall.
    intros r Hr. destruct (rows_provenance fs _ _ _ _ _ _ _ _ _ _ _ _ Hrec r Hr)
      as [_ [chain [_ [Hl _]]]]. apply Z.eqb_neq. lia. }
  destruct (Path.is_dir fs item) eqn:Hdir.
  - apply bind_Ok in Hb as [sub [Hrec [= <-]]]. simpl. rewrite Z.eqb_refl.
    rewrite (Hsub sub); [|auto|discriminate]. simpl.
    split; [constructor; [auto | exact IH1] | now rewrite IH2].
  - injection Hb as <-. simpl. rewrite Z.eqb_refl. simpl.
    split; [constructor; [auto | exact IH1] | now rewrite IH2].
Qed.

Lemma app_split_elem {A : Type} (l1 l2 pre tail : list A) (x : A) :
  l1 ++ l2 = pre ++ x :: tail ->
  (exists s, l1 = pre ++ x :: s /\ tail = s ++ l2)
  \/ (exists p, pre = l1 ++ p /\ l2 = p ++ x :: tail).
Proof.
  revert pre. induction l1 as [|a l1 IH]; intros pre H.
  - right. exists pre. auto.
  - destruct pre as [|b pre]; simpl in H.
    + injection H as -> <-. left. exists l1. auto.
    + injection H as -> H. destruct (IH pre H) as [[s [-> ->]]|[p [-> ->]]].
      * left. exists s. auto.
      * right. exists p. auto.
Qed.

(** The rows of an entry, of what lies beneath it and of the entries
    after it: consecutive siblings are found within one of the parts,
    or are the entry and the one that follows it. *)
Lemma siblings_block (R : row -> row -> Prop) (lvl : Z) (h : row) (sub rest : list row) :
  row_level h = lvl ->
  Forall (fun r => lvl < row_level r) sub ->
  (forall h' rest', rest = h' :: rest' -> row_level h' = lvl /\ R h h') ->
  (forall r1 r2, consecutive_siblings sub r1 r2 -> R r1 r2) ->
  (forall r1 r2, consecutive_siblings rest r1 r2 -> R r1 r2) ->
  forall r1 r2, consecutive_siblings (h :: sub ++ rest) r1 r2 -> R r1 r2.
Proof.
  intros Hh Hsub Hhead Ssub Srest r1 r2 [pre [mid [post [Heq [Hlv Hmid]]]]].
  rewrite List.Forall_forall in Hsub.
  change (h :: sub ++ rest) with ((h :: sub) ++ rest) in Heq.
  apply app_split_elem in Heq as [[s [H1 H2]]|[p [_ H2]]].
  2: { apply Srest. exists p, mid, post. auto. }
  assert (Hr1 : lvl <= row_level r1).
  { destruct pre as [|b pre]; simpl in H1.
    - injection H1 as -> _. lia.
    - injection H1 as _ H1. assert (In r1 sub) by (rewrite H1; apply in_elt).
      specialize (Hsub r1 H). lia. }
  symmetry in H2. apply app_split_elem in H2 as [[s' [-> _]]|[p [Hm Hrest]]].
  - destruct pre as [|b pre]; simpl in H1.
    + injection H1 as -> H1. exfalso.
      assert (Hin : In r2 sub) by (rewrite H1; apply in_elt).
      specialize (Hsub r2 Hin). lia.
    + injection H1 as _ H1. apply Ssub. exists pre, mid, s'. auto.
  - destruct p as [|h' p]; simpl in Hrest.
    + destruct (Hhead r2 post Hrest) as [Hl2 HR].
      destruct pre as [|b pre]; simpl in H1.
      * injection H1 as -> _. exact HR.
      * exfalso. injection H1 as _ H1.
        assert (Hin : In r1 sub) by (rewrite H1; apply in_elt).
        specialize (Hsub r1 Hin). lia.
    + exfalso. destruct (Hhead h' _ Hrest) as [Hl' _].
      rewrite List.Forall_forall in Hmid.
      assert (Hin : In h' mid) by (rewrite Hm; apply in_elt).
      specialize (Hmid h' Hin). lia.
Qed.

(** Every two consecutive siblings of a run, at whatever level, are
    rows of one directory in the order of the sort key. *)
Lemma rows_siblings fuel startpath indent exclude git_tracked color show_sizes compact
    depth current_level ancestors rows :
  build_tree_rows fs fuel startpath indent exclude git_tracked color show_sizes compact
    depth current_level ancestors = Ok rows ->
  forall r1 r2, consecutive_siblings rows r1 r2 -> sorted_siblings fs r1 r2.
Proof.
  revert startpath indent exclude current_level ancestors rows.
  induction fuel as [|fuel IH]; intros startpath indent exclude lvl anc rows H;
    [discriminate|].
  destruct (depth_reached depth lvl) eqn:Hd.
  { apply gate_closed_rows in H; [|exact Hd]. subst rows.
    intros r1 r2 [[|? ?] [mid [post [Heq _]]]]; discriminate Heq. }
  apply build_tree_rows_Ok in H as [dir [listing [blocks [_ [_ [HF ->]]]]]].
  pose proof (items_of_StronglySorted git_tracked (default [] exclude) listing) as Hs.
  rewrite <- (map_snd_enumerate (items_of fs git_tracked (default [] exclude) listing))
    in Hs.
  revert HF Hs.
  generalize (enumerate (items_of fs git_tracked (default [] exclude) listing)).
  generalize (length (items_of fs git_tracked (default [] exclude) listing)).
  intros n xs HF Hs.
  enough (Hall : (forall r1 r2, consecutive_siblings (concat blocks) r1 r2 ->
                    sorted_siblings fs r1 r2)
                 /\ forall h' rest', concat blocks = h' :: rest' ->
                      row_level h' = lvl /\ row_dir h' = dir /\ row_ancestors h' = anc
                      /\ In (row_item h') (map snd xs)) by apply Hall.
  induction HF as [|[i item] b xs bs Hb _ IHF]; simpl.
  { split; [|discriminate].
    intros r1 r2 [[|? ?] [mid [post [Heq _]]]]; discriminate Heq. }
  simpl in Hs. apply StronglySorted_inv in Hs as [Hs Hitem].
  destruct (IHF Hs) as [Srest Hhead]. clear IHF.
  unfold row_block in Hb. simpl in Hb. rewrite Hd in Hb.
  assert (Hblock : exists h sub,
            b = h :: sub /\ row_level h = lvl /\ row_dir h = dir /\ row_ancestors h = anc
            /\ row_item h = item
            /\ Forall (fun r => lvl < row_level r) sub
            /\ forall r1 r2, consecutive_siblings sub r1 r2 -> sorted_siblings fs r1 r2).
  { destruct (Path.is_dir fs item).
    - apply bind_Ok in Hb as [sub [Hsub [= <-]]].
      eexists _, sub. do 5 (split; [reflexivity|]). split.
      + apply List.Forall_forall. intros r Hr.
        destruct (rows_provenance fs _ _ _ _ _ _ _ _ _ _ _ _ Hsub r Hr)
          as [_ [chain [_ [Hl _]]]]. lia.
      + apply (IH _ _ _ _ _ _ Hsub).
    - injection Hb as <-. eexists _, []. do 5 (split; [reflexivity|]).
      split; [constructor|].
      intros r1 r2 [[|? ?] [mid [post [Heq _]]]]; discriminate Heq. }
  destruct Hblock as [h [sub [-> [Hl [Hdir [Hanc [Hit [Hsub Ssub]]]]]]]].
  split.
  - change (concat ((h :: sub) :: bs)) with (h :: sub ++ concat bs).
    apply (siblings_block _ lvl h sub (concat bs) Hl Hsub); [|exact Ssub|exact Srest].
    intros h' rest' Hrest. destruct (Hhead h' rest' Hrest) as [Hl' [Hd' [Ha' Hin]]].
    split; [exact Hl'|]. unfold sorted_siblings.
    split; [congruence|]. split; [congruence|].
    rewrite List.Forall_forall in Hitem. rewrite Hit. apply Hitem, Hin.
  - intros h' rest' [= <- _]. repeat split; try assumption. left. symmetry. exact Hit.
Qed.
End Siblings.

(** C4, as the code has it — For every directory rendered in a run, at
    whatever level, the entries come in the order of the sort key
    [(is_file, lowercased name)]: two rows emitted one after the other
    for the same parent (at the same level with only deeper rows between
    them) are rows of one directory and of one call, and either the first
    is not a regular file and the second is one, or both are regular
    files or neither is and the lowercased names ascend.  Entries that
    are neither directories nor regular files sort among the directories;
    where both siblings are directories or regular files the order is
    directories first, then files, names ascending within each kind. *)
Theorem siblings_follow_sort_key {L : PyStr} (fs : entry) (fuel : nat) (startpath : path)
    (indent : string) (exclude : option (list string)) (git_tracked : option (gset path))
    (color show_sizes compact : bool) (depth : option Z) (current_level : Z)
    (ancestors : list path) (rows : list row) :
  build_tree_rows fs fuel startpath indent exclude git_tracked color show_sizes compact
    depth current_level ancestors = Ok rows ->
  build_tree_lines fs fuel startpath indent exclude git_tracked color show_sizes compact
    depth current_level = Ok (map row_line rows)
  /\ forall r1 r2,
       consecutive_siblings rows r1 r2 ->
       row_dir r2 = row_dir r1
       /\ row_ancestors r2 = row_ancestors r1
       /\ nonfiles_then_files fs (row_item r1) (row_item r2) = true
       /\ (kind_of fs (row_item r1) <> NeitherKind ->
           kind_of fs (row_item r2) <> NeitherKind ->
           dirs_then_files fs (row_item r1) (row_item r2) = true).
Proof.
  intros H.
  split; [rewrite (build_tree_lines_rows fs _ _ _ _ _ _ _ _ _ _ ancestors), H; reflexivity|].
  intros r1 r2 Hs.
  destruct (rows_siblings fs _ _ _ _ _ _ _ _ _ _ _ _ H r1 r2 Hs) as [Hd [Ha Ho]].
  repeat split; try assumption.
  intros H1 H2. now apply nonfiles_then_files_kinds.
Qed.

Lemma siblings_follow_sort_key_witness :
  exists rows d x y e,
    build_tree_rows (L := posix_ascii) nested_pair 2 [] "" None None false true false None 0 []
      = Ok rows
    /\ map row_item rows = [["d"]; ["d"; "x"]; ["d"; "y"]; ["e"]]%string
    /\ map row_item [d; x; y; e] = map row_item rows
    /\ consecutive_siblings rows x y
    /\ consecutive_siblings rows d e
    /\ dirs_then_files (L := posix_ascii) nested_pair (row_item x) (row_item y) = true
    /\ dirs_then_files (L := posix_ascii) nested_pair (row_item d) (row_item e) = true.
Proof.
  destruct (build_tree_rows (L := posix_ascii) nested_pair 2 [] "" None None false true false
              None 0 []) as [rows| |] eqn:E; try (vm_compute in E; discriminate E).
  pose proof (siblings_follow_sort_key (L := posix_ascii) nested_pair 2 [] "" None None false
                true false None 0 [] rows E) as [_ H].
  vm_compute in E. injection E as <-.
  eexists _, _, _, _, _. split; [reflexivity|]. split; [reflexivity|].
  split; [reflexivity|].
  match goal with
  | |- consecutive_siblings [?d; ?x; ?y; ?e] _ _ /\ _ =>
      assert (Hxy : consecutive_siblings [d; x; y; e] x y)
        by (exists [d], [], [e]; repeat split; constructor);
      assert (Hde : consecutive_siblings [d; x; y; e] d e)
        by (exists [], [x; y], []; repeat split; repeat constructor)
  end.
  split; [exact Hxy|]. split; [exact Hde|]. split.
  - apply (H _ _ Hxy); discriminate.
  - apply (H _ _ Hde); discriminate.
Defined.

(** C4, as the specification states it, fails where a directory holds an
    entry that is neither a directory nor a regular file: the pipe [a] is
    emitted before the directory [b], its sibling. *)
Lemma dirs_then_files_refuted :
  exists rows r1 r2,
    build_tree_rows (L := posix_ascii) with_pipe 2 [] "" None None false true false None 0 []
      = Ok rows
    /\ consecutive_siblings rows r1 r2
    /\ row_item r1 = ["a"%string] /\ row_item r2 = ["b"%string]
    /\ kind_of with_pipe (row_item r1) = NeitherKind
    /\ kind_of with_pipe (row_item r2) = Directory
    /\ dirs_then_files (L := posix_ascii) with_pipe (row_item r1) (row_item r2) = false.
Proof.
  eexists _, _, _. split; [vm_compute; reflexivity|]. split.
  - exists [], [], []. split; [reflexivity|]. split; [reflexivity | constructor].
  - repeat split.
Qed.

(** ** The tracking filter *)

Lemma is_relative_to_spec (p other : path) :
  Path.is_relative_to p other = true <-> exists rest, p = other ++ rest.
Proof.
  revert p. induction other as [|o other IH]; intros p; simpl.
  - split; [intros _; exists p; reflexivity | reflexivity].
  - destruct p as [|c p].
    + split; [discriminate | intros [rest H]; discriminate H].
    + rewrite andb_true_iff, String.eqb_eq, IH. split.
      * intros [-> [rest ->]]. eauto.
      * intros [rest [= -> ->]]. eauto.
Qed.

Lemma is_tracked_spec (fs : entry) (tracked : gset path) (item : path) :
  is_tracked fs tracked item = true
  <-> item ∈ tracked
      \/ exists p, p ∈ tracked /\ Path.is_file fs p = true /\ exists rest, p = item ++ rest.
Proof.
  unfold is_tracked. rewrite orb_true_iff, bool_decide_eq_true, existsb_exists.
  apply or_iff_compat_l. split.
  - intros [p [Hp Hrel]]. apply filter_In in Hp as [Hp Hf].
    apply list_elem_of_In, elem_of_elements in Hp.
    exists p. rewrite <- is_relative_to_spec. auto.
  - intros [p [Hp [Hf Hrel]]]. exists p. rewrite filter_In, is_relative_to_spec.
    split; [split; [|exact Hf] | exact Hrel].
    apply list_elem_of_In, elem_of_elements, Hp.
Qed.

(** C6, as the code has it — An entry passes the tracking filter exactly
    when it is a member of the tracked set itself or equals or lies above
    a member of the set that is a regular file.  The builder shows what
    the filter lets through: every line of a run, at whatever level, is
    for an entry that meets this condition, and the lines of a call's own
    level are for exactly the entries of its directory that are not
    excluded and meet it.  When no member of the set is a directory, a
    directory meets the condition exactly when it equals or lies above a
    tracked regular file.  With the empty set the filter keeps nothing
    and the output has no line. *)
Theorem tracking_filter_membership {L : PyStr} (fs : entry) (tracked : gset path) :
  (forall items item,
     In item (keep_tracked fs (Some tracked) items)
     <-> In item items
         /\ (item ∈ tracked
             \/ exists p, p ∈ tracked /\ Path.is_file fs p = true
                          /\ exists rest, p = item ++ rest))
  /\ (forall fuel startpath indent exclude color show_sizes compact depth current_level rows,
        build_tree_rows fs fuel startpath indent exclude (Some tracked) color show_sizes
          compact depth current_level [] = Ok rows ->
        build_tree_lines fs fuel startpath indent exclude (Some tracked) color show_sizes
          compact depth current_level = Ok (map row_line rows)
        /\ Forall (fun r =>
                     row_item r ∈ tracked
                     \/ exists p, p ∈ tracked /\ Path.is_file fs p = true
                                  /\ exists rest, p = row_item r ++ rest) rows
        /\ exists dir listing,
             compacted fs compact (Some tracked) (default [] exclude) startpath dir
             /\ Path.iterdir fs dir = Ok listing
             /\ (depth_reached depth current_level = false ->
                 forall item,
                   In item (map row_item (direct_rows current_level rows))
                   <-> In item listing
                       /\ not_excluded (default [] exclude) item = true
                       /\ (item ∈ tracked
                           \/ exists p, p ∈ tracked /\ Path.is_file fs p = true
                                        /\ exists rest, p = item ++ rest)))
  /\ ((forall p, p ∈ tracked -> Path.is_dir fs p = false) ->
      forall item, Path.is_dir fs item = true ->
        (is_tracked fs tracked item = true
         <-> exists p, p ∈ tracked /\ Path.is_file fs p = true
                       /\ exists rest, p = item ++ rest))
  /\ (tracked = ∅ ->
      (forall items, keep_tracked fs (Some tracked) items = [])
      /\ forall fuel root indent exclude color show_sizes compact depth current_level,
           Path.is_dir fs root = true -> (height_at fs root <= fuel)%nat ->
           build_tree_lines fs fuel root indent exclude (Some tracked) color show_sizes
             compact depth current_level = Ok []).
Proof.
  assert (Hkeep : forall items item,
            In item (keep_tracked fs (Some tracked) items)
            <-> In item items
                /\ (item ∈ tracked
                    \/ exists p, p ∈ tracked /\ Path.is_file fs p = true
                                 /\ exists rest, p = item ++ rest)).
  { intros items item. unfold keep_tracked. rewrite filter_In, is_tracked_spec.
    reflexivity. }
  split; [exact Hkeep|]. split; [|split].
  - intros fuel startpath indent exclude color show_sizes compact depth lvl rows H.
    split; [rewrite (build_tree_lines_rows fs _ _ _ _ _ _ _ _ _ _ []), H; reflexivity|].
    split.
    + pose proof (rows_calls _ _ _ _ _ _ _ _ _ _ _ _ H) as Hc.
      eapply List.Forall_impl; [|exact Hc].
      intros r [_ [_ [items [Hv Hin]]]].
      unfold visible_children in Hv. apply bind_Ok in Hv as [listing [_ [= <-]]].
      apply Hkeep in Hin. tauto.
    + destruct (direct_rows_items fs _ _ _ _ _ _ _ _ _ _ _ _ H)
        as [dir [listing [Hc [Hit [_ Hitems]]]]].
      exists dir, listing. split; [exact Hc|]. split; [exact Hit|].
      intros Hd item. rewrite Hitems, Hd. unfold items_of.
      rewrite items_visible, Hkeep, filter_In. tauto.
  - intros Hfiles item Hdir. rewrite is_tracked_spec. split; [|auto].
    intros [Hin|H]; [|exact H]. apply Hfiles in Hin. congruence.
  - intros ->.
    assert (Hempty : forall items, keep_tracked fs (Some ∅) items = []).
    { intros items. destruct (keep_tracked fs (Some ∅) items) as [|x l] eqn:E;
        [reflexivity|]. exfalso.
      assert (Hx : In x (keep_tracked fs (Some ∅) items)) by (rewrite E; left; reflexivity).
      unfold keep_tracked in Hx. apply filter_In in Hx as [_ Hx].
      apply is_tracked_spec in Hx as [Hx|[p [Hx _]]]; set_solver. }
    split; [exact Hempty|].
    intros fuel root indent exclude color show_sizes compact depth lvl Hdir Hh.
    rewrite (build_tree_lines_rows fs _ _ _ _ _ _ _ _ _ _ []).
    destruct (build_tree_rows_total fs fuel root indent exclude (Some ∅) color show_sizes
                compact depth lvl [] Hdir Hh) as [rows Hrows].
    rewrite Hrows. destruct rows as [|r rows]; [reflexivity|]. exfalso.
    apply rows_calls in Hrows. apply Forall_inv in Hrows as [_ [_ [items [Hv Hin]]]].
    unfold visible_children in Hv. apply bind_Ok in Hv as [listing [_ [= <-]]].
    unfold keep_tracked in Hempty. simpl in Hin. rewrite Hempty in Hin. destruct Hin.
Qed.

Lemma tracking_filter_membership_witness :
  (exists rows,
     build_tree_lines (L := posix_ascii) with_submodule 3 [] "" None
       (Some submodule_tracked) false true false None 0 = Ok (map row_line rows)
     /\ map row_item rows = [["lib"]; ["main.py"]]%string
     /\ Forall (fun r =>
                  row_item r ∈ submodule_tracked
                  \/ exists p, p ∈ submodule_tracked
                               /\ Path.is_file with_submodule p = true
                               /\ exists rest, p = row_item r ++ rest) rows)
  /\ (exists rows,
        build_tree_lines (L := posix_ascii) scenario 2 [] "" None
          (Some {[ ["sub"; "c.txt"]%string ]}) false true false None 0
        = Ok (map row_line rows)
        /\ map row_item rows = [["sub"]; ["sub"; "c.txt"]]%string)
  /\ build_tree_lines (L := posix_ascii) scenario 2 [] "" None (Some ∅) false true false
       None 0 = Ok [].
Proof.
  split; [|split].
  - destruct (build_tree_rows (L := posix_ascii) with_submodule 3 [] "" None
                (Some submodule_tracked) false true false None 0 [])
      as [rows| |] eqn:E; try (vm_compute in E; discriminate E).
    exists rows.
    destruct (proj1 (proj2 (tracking_filter_membership (L := posix_ascii) with_submodule
                              submodule_tracked))
                3%nat [] ""%string None false true false None 0 rows E) as [Hl [Hall _]].
    split; [exact Hl|]. split; [|exact Hall].
    vm_compute in E. injection E as <-. reflexivity.
  - destruct (build_tree_rows (L := posix_ascii) scenario 2 [] "" None
                (Some {[ ["sub"; "c.txt"]%string ]}) false true false None 0 [])
      as [rows| |] eqn:E; try (vm_compute in E; discriminate E).
    exists rows.
    destruct (proj1 (proj2 (tracking_filter_membership (L := posix_ascii) scenario
                              {[ ["sub"; "c.txt"]%string ]}))
                2%nat [] ""%string None false true false None 0 rows E) as [Hl _].
    split; [exact Hl|]. vm_compute in E. injection E as <-. reflexivity.
  - apply (proj2 (proj2 (proj2 (proj2 (tracking_filter_membership (L := posix_ascii)
                                         scenario ∅))) eq_refl));
      [reflexivity | vm_compute; lia].
Defined.

(** C6, as the specification states it, fails for a tracked set that
    names a directory, as [git ls-files] does for a submodule: [lib]
    passes the filter although no tracked regular file lies at or beneath
    it, and its line is printed. *)
Lemma tracked_directory_refuted :
  Path.is_dir with_submodule ["lib"%string] = true
  /\ is_tracked with_submodule submodule_tracked ["lib"%string] = true
  /\ ~ (exists p, p ∈ submodule_tracked /\ Path.is_file with_submodule p = true
                  /\ exists rest, p = ["lib"%string] ++ rest)
  /\ fmap_outcome (map strip_ansi)
       (build_tree_lines (L := posix_ascii) with_submodule 3 [] "" None
          (Some submodule_tracked) false true false None 0)
     = Ok ["├── lib"; "└── main.py (3.0B)"]%string.
Proof.
  split; [reflexivity|]. split; [vm_compute; reflexivity|]. split.
  - intros [p [Hp [Hf [rest ->]]]]. unfold submodule_tracked in Hp.
    apply elem_of_union in Hp as [Hp|Hp]; apply elem_of_singleton in Hp.
    + injection Hp as ->. discriminate Hf.
    + discriminate Hp.
  - vm_compute. reflexivity.
Qed.

(** ** The scenario of the specification *)

(** C1, as the code has it — For the root with [a.txt] (10 bytes),
    [b.txt] (2000 bytes) and [sub/c.txt] (5 bytes), no exclusion, no
    tracking filter, no compaction, color disabled, sizes shown and no
    depth limit, the builder returns four lines in the order [sub],
    [c.txt], [a.txt], [b.txt]; each name stands between the escape
    sequences [COLOR_FILE] and [RESET_ALL], and with the escape sequences
    stripped the lines are the four of the specification. *)
Theorem scenario_lines (fuel : nat) :
  build_tree_lines (L := posix_ascii) scenario (S (S fuel)) [] "" None None
    false true false None 0 = Ok scenario_escaped
  /\ build_tree_lines (L := posix_ascii) scenario (S (S fuel)) [] "" (Some []) None
       false true false None 0 = Ok scenario_escaped
  /\ map strip_ansi scenario_escaped = scenario_plain.
Proof.
  split; [|split]; vm_compute; reflexivity.
Qed.

Lemma scenario_lines_witness :
  build_tree_lines (L := posix_ascii) scenario 2 [] "" None None false true false None 0
  = Ok scenario_escaped.
Proof. exact (proj1 (scenario_lines 0)). Defined.

(** C1, as the specification states it, fails: no run returns the four
    plain lines. *)
Lemma scenario_plain_refuted :
  ~ exists fuel,
      build_tree_lines (L := posix_ascii) scenario fuel [] "" None None
        false true false None 0 = Ok scenario_plain.
Proof.
  intros [[|[|fuel]] H]; vm_compute in H; discriminate H.
Qed.

(** ** The tracked files *)

(** C7 — What the code does when [git] is not installed: the
    [FileNotFoundError] of [subprocess.run] is not a
    [CalledProcessError], passes the [except] clause, and ends [main];
    only a non-zero exit status gives the empty set. *)
Theorem git_absent_is_raised (root : path) :
  get_git_tracked_files NotFound root = Raise FileNotFoundError
  /\ (forall returncode stdout,
        returncode <> 0 ->
        get_git_tracked_files (Exited returncode stdout) root = Ok ∅)
  /\ (forall fuel,
        main (L := posix_ascii) fuel scenario NotFound
          {| arg_path := []; arg_exclude := []; arg_git := true; arg_no_color := false;
             arg_no_size := false; arg_compact := false; arg_depth := None;
             arg_clipboard := false |}
        = Raise FileNotFoundError).
Proof.
  split; [reflexivity|]. split; [|reflexivity].
  intros returncode stdout H. unfold get_git_tracked_files, subprocess_run.
  apply Z.eqb_neq in H. rewrite H. reflexivity.
Qed.

Lemma git_absent_is_raised_witness :
  get_git_tracked_files NotFound ["repo"%string] = Raise FileNotFoundError
  /\ get_git_tracked_files (Exited 128 "") ["repo"%string] = Ok ∅.
Proof.
  destruct (git_absent_is_raised ["repo"%string]) as [H1 [H2 _]].
  split; [exact H1 | apply H2; lia].
Defined.

(** ** Sizes *)

Lemma round53_small (n : Z) : 0 <= n < 2 ^ 53 -> round53 n = n.
Proof.
  intros [H0 H]. unfold round53.
  assert (Hl : Z.log2 n + 1 <= 53).
  { destruct (Z.eq_dec n 0) as [->|Hn]; [simpl; lia|].
    assert (Z.log2 n < 53) by (apply Z.log2_lt_pow2; lia). lia. }
  apply Z.leb_le in Hl. now rewrite Hl.
Qed.

Lemma round53_large (n : Z) : 2 ^ 53 <= n -> 2 ^ 53 <= round53 n.
Proof.
  intros H. unfold round53.
  assert (Hpos : 0 < n) by lia.
  pose proof (Z.log2_spec n Hpos) as [Hlo Hhi].
  assert (Hb : 53 <= Z.log2 n) by (apply Z.log2_le_pow2; lia).
  destruct (Z.log2 n + 1 <=? 53) eqn:E; [apply Z.leb_le in E; lia|].
  set (s := Z.log2 n + 1 - 53).
  assert (Hs : 0 < s) by (unfold s; apply Z.leb_gt in E; lia).
  rewrite Z.shiftl_mul_pow2, Z.shiftr_div_pow2 by lia.
  assert (Hq : 2 ^ 52 <= n / 2 ^ s).
  { apply Z.div_le_lower_bound; [apply Z.pow_pos_nonneg; lia|].
    rewrite <- Z.pow_add_r by lia.
    replace (s + 52) with (Z.log2 n) by (unfold s; lia). exact Hlo. }
  assert (Hp : 2 <= 2 ^ s).
  { change 2 with (2 ^ 1) at 1. apply Z.pow_le_mono_r; lia. }
  match goal with |- _ <= ?q * _ => assert (Hq' : 2 ^ 52 <= q) end.
  { destruct (_ || _); lia. }
  change (2 ^ 53) with (2 ^ 52 * 2). apply Z.mul_le_mono_nonneg; lia.
Qed.

(** Rounding to a double moves no size across a unit threshold. *)
Lemma round53_threshold (n m : Z) :
  0 <= n -> 0 <= m <= 53 -> (round53 n <? 2 ^ m) = (n <? 2 ^ m).
Proof.
  intros Hn Hm.
  assert (Hpm : 2 ^ m <= 2 ^ 53) by (apply Z.pow_le_mono_r; lia).
  destruct (Z_lt_le_dec n (2 ^ 53)) as [H|H].
  - now rewrite round53_small by lia.
  - pose proof (round53_large n H).
    transitivity false; [|symmetry]; apply Z.ltb_ge; lia.
Qed.

Lemma tenths_spec (m s : Z) :
  0 <= m -> 0 <= s ->
  0 <= tenths (PyFloat m s) /\ nearest_tenth m (2 ^ s) (tenths (PyFloat m s)).
Proof.
  intros Hm Hs. unfold tenths, nearest_tenth, to_float.
  rewrite (Z.abs_eq m) by lia.
  assert (Hd : 0 < 2 ^ s) by (apply Z.pow_pos_nonneg; lia).
  set (d := 2 ^ s) in *. set (a := 10 * m).
  pose proof (Z.div_mod a d ltac:(lia)) as Ha.
  pose proof (Z.mod_pos_bound a d Hd) as Hr.
  assert (Hq : 0 <= a / d) by (apply Z.div_pos; unfold a; lia).
  set (q := a / d) in *. set (r := a mod d) in *.
  destruct (d <? 2 * r) eqn:E1; simpl.
  - apply Z.ltb_lt in E1. split; [lia|]. split; [lia|]. intros H. lia.
  - apply Z.ltb_ge in E1. destruct (2 * r =? d) eqn:E2; simpl.
    + apply Z.eqb_eq in E2. destruct (Z.odd q) eqn:E3.
      * split; [lia|]. split; [lia|]. intros _.
        rewrite Z.even_add, <- Z.negb_odd, E3. reflexivity.
      * split; [lia|]. split; [lia|]. intros _. now rewrite <- Z.negb_odd, E3.
    + apply Z.eqb_neq in E2. split; [lia|]. split; [lia|]. intros H. lia.
Qed.

Lemma to_float_int (n : Z) : 0 <= n < 2 ^ 53 -> to_float (PyInt n) = (n, 0).
Proof.
  intros H. unfold to_float. rewrite Z.abs_eq, round53_small by lia.
  f_equal. destruct (Z.eq_dec n 0) as [->|Hn]; [reflexivity|].
  rewrite Z.sgn_pos by lia. lia.
Qed.

Lemma format_1f_nonneg (x : number) (m s : Z) :
  to_float x = (m, s) -> 0 <= m ->
  format_1f x = show_tenths (tenths (PyFloat m s)).
Proof.
  intros Hx Hm. unfold format_1f, tenths. rewrite Hx. simpl fst.
  apply Z.ltb_ge in Hm. rewrite Hm. reflexivity.
Qed.

Lemma human_readable_size_loop_float (unit : string) (units : list string) (v s : Z) :
  human_readable_size_loop (unit :: units) (PyFloat v s)
  = if v <? 1024 * 2 ^ s then format_1f (PyFloat v s) +:+ unit
    else human_readable_size_loop units (PyFloat v (s + 10)).
Proof. reflexivity. Qed.

Lemma human_readable_size_loop_int (unit : string) (units : list string) (n : Z) :
  human_readable_size_loop (unit :: units) (PyInt n)
  = if n <? 1024 then format_1f (PyInt n) +:+ unit
    else human_readable_size_loop units (truediv_1024 (PyInt n)).
Proof. reflexivity. Qed.

Lemma human_readable_size_loop_nil (x : number) :
  human_readable_size_loop [] x = format_1f x +:+ "PB".
Proof. reflexivity. Qed.

Lemma digits_one (d : Z) : 0 <= d < 10 -> String.length (digits d) = 1%nat.
Proof.
  intros H.
  assert (Hd : d = 0 \/ d = 1 \/ d = 2 \/ d = 3 \/ d = 4 \/ d = 5 \/ d = 6 \/ d = 7
               \/ d = 8 \/ d = 9) by lia.
  repeat (destruct Hd as [->|Hd]; [reflexivity|]). subst d. reflexivity.
Qed.

(** The unit and the number that [human_readable_size] prints. *)
Lemma human_readable_size_unit (n : Z) :
  0 <= n ->
  exists k t,
    smallest_unit_below n k
    /\ human_readable_size n = show_tenths t +:+ unit_name k
    /\ 0 <= t
    /\ nearest_tenth (round53 n) (1024 ^ Z.of_nat k) t.
Proof.
  intros Hn. unfold human_readable_size.
  destruct (Z_lt_le_dec n 1024) as [H0|H0].
  { exists 0%nat, (tenths (PyFloat n 0)).
    assert (Hsmall : 0 <= n < 2 ^ 53) by (split; [lia | change (2 ^ 53) with 9007199254740992; lia]).
    split; [|split; [|rewrite round53_small by exact Hsmall; apply (tenths_spec n 0); lia]].
    - split; [lia|]. split; [intros _; simpl; lia | intros j Hj; lia].
    - rewrite human_readable_size_loop_int. apply Z.ltb_lt in H0. rewrite H0.
      rewrite (format_1f_nonneg _ n 0); [reflexivity | now apply to_float_int | lia]. }
  rewrite human_readable_size_loop_int. apply Z.ltb_ge in H0 as H0'. rewrite H0'.
  set (v := round53 n).
  assert (Hv : truediv_1024 (PyInt n) = PyFloat v 10).
  { unfold truediv_1024, to_float. rewrite Z.abs_eq, Z.sgn_pos by lia.
    now rewrite Z.mul_1_l. }
  rewrite Hv.
  assert (Hv0 : 0 <= v).
  { unfold v. destruct (Z_lt_le_dec n (2 ^ 53)) as [H|H].
    - rewrite round53_small; lia.
    - pose proof (round53_large n H). lia. }
  assert (Hfmt : forall s, format_1f (PyFloat v s) = show_tenths (tenths (PyFloat v s))).
  { intros s. now apply format_1f_nonneg. }
  assert (Hthr : forall m, 0 <= m <= 53 -> (v <? 2 ^ m) = (n <? 2 ^ m)).
  { intros m Hm. apply round53_threshold; lia. }
  rewrite human_readable_size_loop_float.
  change (1024 * 2 ^ 10) with (2 ^ 20). rewrite Hthr by lia.
  destruct (n <? 2 ^ 20) eqn:E1.
  { apply Z.ltb_lt in E1. exists 1%nat, (tenths (PyFloat v 10)).
    split; [|split; [now rewrite Hfmt | apply (tenths_spec v 10); lia]].
    split; [lia|]. split; [intros _; exact E1|].
    intros [|j] Hj; [exact H0 | lia]. }
  apply Z.ltb_ge in E1. change (10 + 10) with 20.
  rewrite human_readable_size_loop_float.
  change (1024 * 2 ^ 20) with (2 ^ 30). rewrite Hthr by lia.
  destruct (n <? 2 ^ 30) eqn:E2.
  { apply Z.ltb_lt in E2. exists 2%nat, (tenths (PyFloat v 20)).
    split; [|split; [now rewrite Hfmt | apply (tenths_spec v 20); lia]].
    split; [lia|]. split; [intros _; exact E2|].
    intros [|[|j]] Hj; [exact H0 | exact E1 | lia]. }
  apply Z.ltb_ge in E2. change (20 + 10) with 30.
  rewrite human_readable_size_loop_float.
  change (1024 * 2 ^ 30) with (2 ^ 40). rewrite Hthr by lia.
  destruct (n <? 2 ^ 40) eqn:E3.
  { apply Z.ltb_lt in E3. exists 3%nat, (tenths (PyFloat v 30)).
    split; [|split; [now rewrite Hfmt | apply (tenths_spec v 30); lia]].
    split; [lia|]. split; [intros _; exact E3|].
    intros [|[|[|j]]] Hj; [exact H0 | exact E1 | exact E2 | lia]. }
  apply Z.ltb_ge in E3. change (30 + 10) with 40.
  rewrite human_readable_size_loop_float.
  change (1024 * 2 ^ 40) with (2 ^ 50). rewrite Hthr by lia.
  destruct (n <? 2 ^ 50) eqn:E4.
  { apply Z.ltb_lt in E4. exists 4%nat, (tenths (PyFloat v 40)).
    split; [|split; [now rewrite Hfmt | apply (tenths_spec v 40); lia]].
    split; [lia|]. split; [intros _; exact E4|].
    intros [|[|[|[|j]]]] Hj; [exact H0 | exact E1 | exact E2 | exact E3 | lia]. }
  apply Z.ltb_ge in E4. change (40 + 10) with 50.
  exists 5%nat, (tenths (PyFloat v 50)).
  split; [|split; [rewrite human_readable_size_loop_nil; now rewrite Hfmt
                  | apply (tenths_spec v 50); lia]].
  split; [lia|]. split; [lia|].
  intros [|[|[|[|[|j]]]]] Hj; [exact H0 | exact E1 | exact E2 | exact E3 | exact E4 | lia].
Qed.

Lemma tenths_digit (t : Z) : 0 <= t -> String.length (digits (t mod 10)) = 1%nat.
Proof.
  intros _. apply digits_one. apply Z.mod_pos_bound. lia.
Qed.

(** *** The range of a double *)

Lemma round53_le_pow2 (n : Z) : 0 < n -> round53 n <= 2 ^ (Z.log2 n + 1).
Proof.
  intros Hpos. unfold round53.
  pose proof (Z.log2_spec n Hpos) as [Hlo Hhi].
  pose proof (Z.log2_nonneg n) as Hl0.
  replace (Z.succ (Z.log2 n)) with (Z.log2 n + 1) in Hhi by lia.
  destruct (Z.log2 n + 1 <=? 53) eqn:E; [lia|].
  apply Z.leb_gt in E.
  set (s := Z.log2 n + 1 - 53).
  assert (Hs : 0 < s) by (unfold s; lia).
  rewrite Z.shiftl_mul_pow2, Z.shiftr_div_pow2 by lia.
  assert (Hps : 0 < 2 ^ s) by (apply Z.pow_pos_nonneg; lia).
  assert (Hq : n / 2 ^ s < 2 ^ 53).
  { apply Z.div_lt_upper_bound; [exact Hps|].
    rewrite <- Z.pow_add_r by lia.
    replace (s + 53) with (Z.log2 n + 1) by (unfold s; lia). exact Hhi. }
  replace (Z.log2 n + 1) with (53 + s) by (unfold s; lia).
  rewrite Z.pow_add_r by lia.
  apply Z.mul_le_mono_nonneg_r; [lia|].
  destruct (_ || _); lia.
Qed.

Lemma round53_below (n m : Z) : 0 <= n < 2 ^ m -> round53 n <= 2 ^ m.
Proof.
  intros [H0 Hm]. destruct (Z.eq_dec n 0) as [->|Hn].
  - unfold round53. simpl. lia.
  - assert (Hpos : 0 < n) by lia.
    assert (H0m : 0 <= m).
    { destruct (Z_lt_le_dec m 0) as [Hneg|]; [|assumption].
      rewrite Z.pow_neg_r in Hm by exact Hneg. lia. }
    etransitivity; [apply round53_le_pow2, Hpos|].
    apply Z.pow_le_mono_r; [lia|].
    assert (Z.log2 n < m) by (apply Z.log2_lt_pow2; assumption). lia.
Qed.

Lemma checked_human_readable_size_loop_float (units : list string) (v s : Z) :
  checked_human_readable_size_loop units (PyFloat v s)
  = Ok (human_readable_size_loop units (PyFloat v s)).
Proof.
  revert s. induction units as [|unit units IH]; intros s; [reflexivity|].
  cbn [checked_human_readable_size_loop human_readable_size_loop].
  destruct (lt_1024 (PyFloat v s)); [reflexivity|]. apply IH.
Qed.

Lemma checked_human_readable_size_loop_int (unit : string) (units : list string) (n : Z) :
  checked_human_readable_size_loop (unit :: units) (PyInt n)
  = if n <? 1024 then
      let* s := checked_format_1f (PyInt n) in
      Ok (s +:+ unit)
    else
      let* size' := checked_truediv_1024 (PyInt n) in
      checked_human_readable_size_loop units size'.
Proof. reflexivity. Qed.

(** In the range of a double [human_readable_size] is what the call
    returns; outside it the call raises. *)
Lemma checked_human_readable_size_spec (n : Z) :
  checked_human_readable_size n
  = if (if n <? 1024 then 2 ^ 1024 else 2 ^ 1034) <=? round53 (Z.abs n)
    then Raise OverflowError
    else Ok (human_readable_size n).
Proof.
  unfold checked_human_readable_size, human_readable_size.
  rewrite checked_human_readable_size_loop_int, human_readable_size_loop_int.
  destruct (n <? 1024).
  - unfold checked_format_1f, checked_to_float, float_of_int.
    destruct (2 ^ 1024 <=? round53 (Z.abs n)); reflexivity.
  - unfold checked_truediv_1024, truediv_1024, to_float.
    destruct (2 ^ 1034 <=? round53 (Z.abs n)); [reflexivity|].
    cbn [bind]. apply checked_human_readable_size_loop_float.
Qed.

(** C9, as the code has it — For a byte count [n >= 0] whose nearest double
    [float(n)] is below 2^1034 (every [n] below 2^1033) the call returns:
    the unit is the first of B, KB, MB, GB, TB, PB in which the scaled
    value is below 1024, and PB when there is none (sizes from 1024 PB on
    stay in PB); the number printed is the scaled value of [float(n)]
    rounded to the nearest tenth, ties to even, with exactly one digit
    after the point; [float(n)] is [n] itself below 2^53, and above it
    the two can round apart (2^53 + 2^48 + 1 bytes print as 8.2PB, the
    scaled value is nearer to 8.3).  When [float(n)] is 2^1034 or more
    the call raises OverflowError.  0 gives "0.0B", 1023 gives "1023.0B",
    1024 gives "1.0KB" and 1048576 gives "1.0MB". *)
Theorem size_in_smallest_unit (n : Z) :
  0 <= n ->
  (round53 n < 2 ^ 1034 ->
   exists k t,
     smallest_unit_below n k
     /\ checked_human_readable_size n = Ok (show_tenths t +:+ unit_name k)
     /\ show_tenths t = digits (t / 10) +:+ "." +:+ digits (t mod 10)
     /\ String.length (digits (t mod 10)) = 1%nat
     /\ nearest_tenth (round53 n) (1024 ^ Z.of_nat k) t
     /\ (1024 * 1024 ^ 5 <= n -> unit_name k = "PB"%string))
  /\ (2 ^ 1034 <= round53 n -> checked_human_readable_size n = Raise OverflowError)
  /\ (n < 2 ^ 53 -> round53 n = n)
  /\ (n < 2 ^ 1033 -> round53 n < 2 ^ 1034)
  /\ (checked_human_readable_size (2 ^ 53 + 2 ^ 48 + 1) = Ok "8.2PB"%string
      /\ nearest_tenth (2 ^ 53 + 2 ^ 48 + 1) (1024 ^ 5) 83)
  /\ map checked_human_readable_size [0; 1023; 1024; 1048576]
     = [Ok "0.0B"; Ok "1023.0B"; Ok "1.0KB"; Ok "1.0MB"]%string.
Proof.
  intros Hn.
  assert (Hbelow : n < 2 ^ 1033 -> round53 n < 2 ^ 1034).
  { intros H. pose proof (round53_below n 1033 (conj Hn H)) as Hr.
    assert (2 ^ 1033 < 2 ^ 1034) by (apply Z.pow_lt_mono_r; lia). lia. }
  split; [|split; [|split; [|split; [|split]]]].
  - intros Hrange.
    destruct (human_readable_size_unit n Hn) as [k [t [Hk [Hs [Ht Hnear]]]]].
    exists k, t. split; [exact Hk|]. split; [|split; [reflexivity|]].
    + rewrite checked_human_readable_size_spec, Z.abs_eq by exact Hn.
      destruct (n <? 1024) eqn:E.
      * apply Z.ltb_lt in E.
        assert (E' : (2 ^ 1024 <=? round53 n) = false).
        { apply Z.leb_gt. rewrite round53_small.
          - assert (2 ^ 10 <= 2 ^ 1024) by (apply Z.pow_le_mono_r; lia).
            change (2 ^ 10) with 1024 in *. lia.
          - split; [lia|]. change (2 ^ 53) with 9007199254740992. lia. }
        rewrite E', Hs. reflexivity.
      * apply Z.leb_gt in Hrange. rewrite Hrange, Hs. reflexivity.
    + split; [apply tenths_digit, Ht|]. split; [exact Hnear|].
      intros Hbig. destruct Hk as [Hk5 [Hlt _]].
      assert (Hk : k = 5%nat).
      { destruct (Nat.eq_dec k 5%nat) as [E|E]; [exact E|]. exfalso.
        assert (Hk4 : (k < 5)%nat) by lia. specialize (Hlt Hk4).
        assert (1024 ^ Z.of_nat k <= 1024 ^ 5) by (apply Z.pow_le_mono_r; lia).
        lia. }
      rewrite Hk. reflexivity.
  - intros Hover. rewrite checked_human_readable_size_spec, Z.abs_eq by exact Hn.
    destruct (n <? 1024) eqn:E.
    + exfalso. apply Z.ltb_lt in E. rewrite round53_small in Hover.
      * assert (2 ^ 10 <= 2 ^ 1034) by (apply Z.pow_le_mono_r; lia).
        change (2 ^ 10) with 1024 in *. lia.
      * split; [lia|]. change (2 ^ 53) with 9007199254740992. lia.
    + apply Z.leb_le in Hover. rewrite Hover. reflexivity.
  - intros H. apply round53_small. lia.
  - exact Hbelow.
  - split; [vm_compute; reflexivity|]. unfold nearest_tenth. vm_compute.
    split; [intros H; discriminate H | intros H; discriminate H].
  - vm_compute. reflexivity.
Qed.

Lemma size_in_smallest_unit_witness :
  0 <= 2048
  /\ exists k t,
       smallest_unit_below 2048 k
       /\ checked_human_readable_size 2048 = Ok (show_tenths t +:+ unit_name k).
Proof.
  split; [lia|].
  destruct (size_in_smallest_unit 2048 ltac:(lia)) as [[k [t [Hk [Hs _]]]] _].
  - vm_compute. reflexivity.
  - exists k, t. split; assumption.
Defined.

(** C9, as the specification states it, fails: 2^1034 bytes are a
    non-negative byte count of more than 1024 PB, and the call does not
    report them in PB, it raises OverflowError at [size /= 1024]. *)
Lemma size_beyond_double_refuted :
  0 <= 2 ^ 1034
  /\ 1024 * 1024 ^ 5 <= 2 ^ 1034
  /\ checked_human_readable_size (2 ^ 1034) = Raise OverflowError
  /\ ~ exists s, checked_human_readable_size (2 ^ 1034) = Ok s.
Proof.
  assert (H : checked_human_readable_size (2 ^ 1034) = Raise OverflowError)
    by (vm_compute; reflexivity).
  split; [vm_compute; discriminate|]. split; [vm_compute; discriminate|].
  split; [exact H|]. intros [s Hs]. rewrite H in Hs. discriminate Hs.
Qed.

(** ** Enumeration order *)

Lemma filter_Permutation_bool {A : Type} (f : A -> bool) (l l' : list A) :
  Permutation l l' -> Permutation (List.filter f l) (List.filter f l').
Proof.
  induction 1 as [|x l l' _ IH|x y l|l l' l'' _ IH1 _ IH2]; simpl.
  - constructor.
  - destruct (f x); [constructor|]; exact IH.
  - destruct (f x), (f y); try reflexivity. apply perm_swap.
  - etransitivity; eassumption.
Qed.

Lemma NoDup_map_filter {A K : Type} (key : A -> K) (f : A -> bool) (l : list A) :
  NoDup (map key l) -> NoDup (map key (List.filter f l)).
Proof.
  induction l as [|x l IH]; simpl; intros H; [constructor|].
  apply NoDup_cons in H as [Hx H]. destruct (f x); simpl; [|auto].
  apply NoDup_cons. split; [|auto].
  intros Hin. apply Hx. apply list_elem_of_In in Hin. apply list_elem_of_In.
  apply in_map_iff in Hin as [y [Hy Hin]]. apply filter_In in Hin as [Hin _].
  apply in_map_iff. eauto.
Qed.

Lemma insert_by_ext {A : Type} (le le' : A -> A -> bool) (x : A) (l : list A) :
  (forall a b, le a b = le' a b) -> insert_by le x l = insert_by le' x l.
Proof.
  intros H. induction l as [|y l IH]; simpl; [reflexivity|].
  rewrite H, IH. reflexivity.
Qed.

Lemma sorted_ext {A K : Type} (le : K -> K -> bool) (key key' : A -> K) (l : list A) :
  (forall a, key a = key' a) -> sorted le key l = sorted le key' l.
Proof.
  intros H. induction l as [|x l IH]; simpl; [reflexivity|].
  fold (sorted le key l). fold (sorted le key' l). rewrite IH.
  apply insert_by_ext. intros a b. now rewrite !H.
Qed.

Lemma filter_ext_bool {A : Type} (f g : A -> bool) (l : list A) :
  (forall a, f a = g a) -> List.filter f l = List.filter g l.
Proof.
  intros H. induction l as [|x l IH]; simpl; [reflexivity|]. now rewrite H, IH.
Qed.

Lemma lookup_name_NoDup (n : string) (e : entry) (cs : list (string * entry)) :
  NoDup (map fst cs) -> In (n, e) cs -> lookup_name n cs = Some e.
Proof.
  induction cs as [|[m e'] cs IH]; simpl; intros Hnd Hin; [destruct Hin|].
  apply NoDup_cons in Hnd as [Hm Hnd].
  destruct Hin as [[= -> ->]|Hin].
  - now rewrite String.eqb_refl.
  - destruct (String.eqb_spec n m) as [->|Hne]; [|auto].
    exfalso. apply Hm, list_elem_of_In. apply (in_map fst cs (m, e)), Hin.
Qed.

Lemma lookup_name_Permutation (n : string) (cs cs' : list (string * entry)) :
  NoDup (map fst cs) -> Permutation cs cs' -> lookup_name n cs = lookup_name n cs'.
Proof.
  intros Hnd HP. destruct (lookup_name n cs) as [e|] eqn:E.
  - apply lookup_name_In in E. symmetry. apply lookup_name_NoDup.
    + rewrite <- (Permutation_map fst HP). exact Hnd.
    + eapply Permutation_in; eassumption.
  - destruct (lookup_name n cs') as [e'|] eqn:E'; [|reflexivity].
    apply lookup_name_In in E'.
    apply (Permutation_in _ (Permutation_sym HP)) in E'.
    apply In_lookup_name in E' as [e0 He0]. congruence.
Qed.

Lemma lookup_name_Forall2 (n : string) (cs cs' : list (string * entry)) :
  Forall2 (fun c c' => fst c = fst c' /\ reordered (snd c) (snd c')) cs cs' ->
  match lookup_name n cs, lookup_name n cs' with
  | Some x, Some y => reordered x y
  | None, None => True
  | _, _ => False
  end.
Proof.
  induction 1 as [|[m e] [m' e'] cs cs' [Hn Hr] _ IH]; simpl; [exact I|].
  simpl in Hn, Hr. subst m'. destruct (String.eqb n m); [exact Hr | exact IH].
Qed.

Lemma unambiguous_Dir {L : PyStr} (cs : list (string * entry)) :
  unambiguous (Dir cs) = true ->
  NoDup (map fst cs) /\ NoDup (map entry_key cs)
  /\ forall c, In c cs -> unambiguous (snd c) = true.
Proof.
  simpl. rewrite !andb_true_iff, !bool_decide_eq_true, forallb_forall. tauto.
Qed.

Lemma reordered_resolve {L : PyStr} (a b : entry) (p : path) :
  unambiguous a = true -> reordered a b ->
  match resolve a p, resolve b p with
  | Some x, Some y => reordered x y /\ unambiguous x = true
  | None, None => True
  | _, _ => False
  end.
Proof.
  revert a b. induction p as [|n p IH]; intros a b Hu Hr; simpl; [auto|].
  destruct Hr as [sz| |cs cs' cs'' HP HF]; try exact I.
  apply unambiguous_Dir in Hu as [Hnd [_ Hall]].
  rewrite (lookup_name_Permutation n cs cs' Hnd HP).
  pose proof (lookup_name_Forall2 n cs' cs'' HF) as H.
  destruct (lookup_name n cs') as [x|] eqn:Ex; destruct (lookup_name n cs'') as [y|];
    try contradiction; [|exact I].
  apply IH; [|exact H]. apply (Hall (n, x)).
  apply lookup_name_In in Ex. eapply Permutation_in; [symmetry; exact HP | exact Ex].
Qed.

Lemma reordered_resolve_error {L : PyStr} (a b : entry) (p : path) :
  unambiguous a = true -> reordered a b -> resolve_error a p = resolve_error b p.
Proof.
  revert a b. induction p as [|n p IH]; intros a b Hu Hr; simpl; [reflexivity|].
  destruct Hr as [sz| |cs cs' cs'' HP HF]; try reflexivity.
  apply unambiguous_Dir in Hu as [Hnd [_ Hall]].
  rewrite (lookup_name_Permutation n cs cs' Hnd HP).
  pose proof (lookup_name_Forall2 n cs' cs'' HF) as H.
  destruct (lookup_name n cs') as [x|] eqn:Ex; destruct (lookup_name n cs'') as [y|];
    try contradiction; [|reflexivity].
  apply IH; [|exact H]. apply (Hall (n, x)).
  apply lookup_name_In in Ex. eapply Permutation_in; [symmetry; exact HP | exact Ex].
Qed.

Section Reordered.
Context {L : PyStr}.
Variables fs fs' : entry.
Hypothesis Hu : unambiguous fs = true.
Hypothesis Hr : reordered fs fs'.

Lemma is_dir_reordered (p : path) : Path.is_dir fs p = Path.is_dir fs' p.
Proof.
  unfold Path.is_dir. pose proof (reordered_resolve fs fs' p Hu Hr) as H.
  destruct (resolve fs p) as [x|], (resolve fs' p) as [y|]; try contradiction;
    [|reflexivity].
  destruct H as [H _]. destruct H; reflexivity.
Qed.

Lemma is_file_reordered (p : path) : Path.is_file fs p = Path.is_file fs' p.
Proof.
  unfold Path.is_file. pose proof (reordered_resolve fs fs' p Hu Hr) as H.
  destruct (resolve fs p) as [x|], (resolve fs' p) as [y|]; try contradiction;
    [|reflexivity].
  destruct H as [H _]. destruct H; reflexivity.
Qed.

Lemma st_size_reordered (p : path) : Path.st_size fs p = Path.st_size fs' p.
Proof.
  unfold Path.st_size. pose proof (reordered_resolve fs fs' p Hu Hr) as H.
  destruct (resolve fs p) as [x|], (resolve fs' p) as [y|]; try contradiction;
    [|reflexivity].
  destruct H as [H _]. destruct H; reflexivity.
Qed.

Lemma render_reordered indent i n item color show_sizes :
  render fs indent i n item color show_sizes
  = render fs' indent i n item color show_sizes.
Proof.
  unfold render. now rewrite is_dir_reordered, is_file_reordered, st_size_reordered.
Qed.

Lemma is_tracked_reordered tracked item :
  is_tracked fs tracked item = is_tracked fs' tracked item.
Proof.
  unfold is_tracked. f_equal. f_equal. apply filter_ext_bool, is_file_reordered.
Qed.

Lemma keep_tracked_reordered git_tracked items :
  keep_tracked fs git_tracked items = keep_tracked fs' git_tracked items.
Proof.
  destruct git_tracked as [t|]; simpl; [|reflexivity].
  apply filter_ext_bool, is_tracked_reordered.
Qed.

Lemma sort_key_reordered item : sort_key fs item = sort_key fs' item.
Proof. unfold sort_key. now rewrite is_file_reordered. Qed.

(** The two listings of a directory hold the same paths, and their
    sort keys are pairwise distinct. *)
Lemma iterdir_reordered (p : path) :
  match Path.iterdir fs p, Path.iterdir fs' p with
  | Ok l, Ok l' => Permutation l l' /\ NoDup (map (sort_key fs) l)
  | Raise e, Raise e' => e = e'
  | _, _ => False
  end.
Proof.
  unfold Path.iterdir. pose proof (reordered_resolve fs fs' p Hu Hr) as H.
  destruct (resolve fs p) as [x|] eqn:Ex, (resolve fs' p) as [y|]; try contradiction;
    [|apply reordered_resolve_error; assumption].
  destruct H as [H Hux]. destruct H as [sz| |cs cs' cs'' HP HF]; try reflexivity.
  apply unambiguous_Dir in Hux as [Hnd [Hkeys _]]. split.
  - transitivity (map (fun c : string * entry => p ++ [fst c]) cs').
    + apply Permutation_map, HP.
    + clear -HF. induction HF as [|c c' l l' [Hc _] _ IH]; simpl; [reflexivity|].
      rewrite Hc, IH. reflexivity.
  - rewrite map_map.
    rewrite (map_ext_in _ entry_key); [exact Hkeys|].
    intros [n e] Hin. unfold sort_key, entry_key, Path.is_file. simpl.
    rewrite name_snoc, resolve_app, Ex. simpl.
    rewrite (lookup_name_NoDup n e cs Hnd Hin). reflexivity.
Qed.

Lemma items_of_reordered git_tracked exclude l l' :
  Permutation l l' -> NoDup (map (sort_key fs) l) ->
  items_of fs git_tracked exclude l = items_of fs' git_tracked exclude l'.
Proof.
  intros HP Hnd. unfold items_of. rewrite keep_tracked_reordered. f_equal.
  rewrite <- (sorted_ext key_le (sort_key fs) (sort_key fs')) by apply sort_key_reordered.
  apply sorted_unique.
  - apply key_le_total.
  - apply key_le_trans.
  - apply key_le_antisym.
  - apply NoDup_map_filter, Hnd.
  - apply filter_Permutation_bool, HP.
Qed.

Lemma visible_reordered git_tracked exclude l l' :
  Permutation l l' ->
  Permutation (keep_tracked fs git_tracked (List.filter (not_excluded exclude) l))
    (keep_tracked fs' git_tracked (List.filter (not_excluded exclude) l')).
Proof.
  intros HP. rewrite <- keep_tracked_reordered.
  destruct git_tracked as [t|]; simpl; repeat apply filter_Permutation_bool; exact HP.
Qed.

Lemma collapse_single_dirs_reordered fuel dir git_tracked exclude :
  collapse_single_dirs fs fuel dir git_tracked exclude
  = collapse_single_dirs fs' fuel dir git_tracked exclude.
Proof.
  revert dir. induction fuel as [|fuel IH]; intros dir; [reflexivity|].
  cbn [collapse_single_dirs].
  pose proof (iterdir_reordered dir) as Hit.
  destruct (Path.iterdir fs dir) as [l|e|], (Path.iterdir fs' dir) as [l'|e'|];
    try contradiction; [|now subst].
  destruct Hit as [HP _]. simpl.
  pose proof (visible_reordered git_tracked (default [] exclude) l l' HP) as Hv.
  set (items := keep_tracked fs git_tracked _) in *.
  set (items' := keep_tracked fs' git_tracked _) in *.
  assert (Hd : Permutation (List.filter (Path.is_dir fs) items)
                 (List.filter (Path.is_dir fs') items')).
  { rewrite (filter_ext_bool _ _ items is_dir_reordered).
    apply filter_Permutation_bool, Hv. }
  assert (Hf : Permutation (List.filter (Path.is_file fs) items)
                 (List.filter (Path.is_file fs') items')).
  { rewrite (filter_ext_bool _ _ items is_file_reordered).
    apply filter_Permutation_bool, Hv. }
  destruct (List.filter (Path.is_dir fs) items) as [|d [|d2 dirs]].
  - apply Permutation_nil in Hd. rewrite Hd. reflexivity.
  - apply Permutation_length_1_inv in Hd. rewrite Hd.
    destruct (List.filter (Path.is_file fs) items) as [|f files].
    + apply Permutation_nil in Hf. rewrite Hf. apply IH.
    + destruct (List.filter (Path.is_file fs') items') as [|f' files'];
        [apply Permutation_sym, Permutation_nil in Hf; discriminate Hf | reflexivity].
  - pose proof (Permutation_length Hd) as Hlen.
    destruct (List.filter (Path.is_dir fs') items') as [|d' [|d2' dirs']];
      try discriminate Hlen. reflexivity.
Qed.

Lemma for_each_item_reordered recurse recurse' indent color show_sizes depth
    current_level n items lines :
  (forall item indent', recurse item indent' = recurse' item indent') ->
  for_each_item fs recurse indent color show_sizes depth current_level n items lines
  = for_each_item fs' recurse' indent color show_sizes depth current_level n items lines.
Proof.
  intros Hrec. revert lines.
  induction items as [|[i item] items IH]; intros lines; simpl; [reflexivity|].
  destruct (depth_reached depth current_level); [apply IH|].
  rewrite <- is_dir_reordered, <- render_reordered, <- Hrec.
  destruct (Path.is_dir fs item); [|apply IH].
  destruct (recurse item _); simpl; try reflexivity. apply IH.
Qed.

Lemma build_tree_lines_reordered fuel startpath indent exclude git_tracked color
    show_sizes compact depth current_level :
  build_tree_lines fs fuel startpath indent exclude git_tracked color show_sizes compact
    depth current_level
  = build_tree_lines fs' fuel startpath indent exclude git_tracked color show_sizes
      compact depth current_level.
Proof.
  revert startpath indent exclude current_level.
  induction fuel as [|fuel IH]; intros; [reflexivity|].
  cbn [build_tree_lines].
  rewrite <- collapse_single_dirs_reordered.
  destruct (if compact then _ else _) as [dir| |]; simpl; try reflexivity.
  pose proof (iterdir_reordered dir) as Hit.
  destruct (Path.iterdir fs dir) as [l|e|], (Path.iterdir fs' dir) as [l'|e'|];
    try contradiction; [|now subst].
  destruct Hit as [HP Hnd]. simpl.
  pose proof (items_of_reordered git_tracked (default [] exclude) l l' HP Hnd) as Hitems.
  unfold items_of in Hitems. rewrite <- Hitems.
  apply for_each_item_reordered. intros item indent'. apply IH.
Qed.
End Reordered.

Lemma reordered_refl (e : entry) : reordered e e.
Proof.
  revert e. fix IH 1. intros [sz|cs|]; [constructor| |constructor].
  apply (reordered_dir cs cs cs); [reflexivity|].
  induction cs as [|c cs IHcs]; constructor; [split; [reflexivity | apply IH] | exact IHcs].
Qed.

(** C8, as the code has it — The lines do not depend on the order in
    which the directories are enumerated, provided that in no directory
    two entries have the same sort key, that is, the same lowercased name
    while both are regular files or both are not.  (Names in a directory
    are distinct in any case.) *)
Theorem enumeration_order_irrelevant {L : PyStr} (fs fs' : entry) (fuel : nat)
    (startpath : path) (indent : string) (exclude : option (list string))
    (git_tracked : option (gset path)) (color show_sizes compact : bool)
    (depth : option Z) (current_level : Z) :
  unambiguous fs = true -> reordered fs fs' ->
  build_tree_lines fs fuel startpath indent exclude git_tracked color show_sizes compact
    depth current_level
  = build_tree_lines fs' fuel startpath indent exclude git_tracked color show_sizes compact
      depth current_level.
Proof.
  intros Hu Hr. now apply build_tree_lines_reordered.
Qed.

Lemma scenario_is_reordered : reordered scenario scenario_reordered.
Proof.
  apply (reordered_dir _ (rev [("a.txt", File 10); ("b.txt", File 2000);
                               ("sub", Dir [("c.txt", File 5)])]%string)).
  - apply Permutation_rev.
  - repeat constructor; simpl; apply reordered_refl.
Qed.

Lemma enumeration_order_irrelevant_witness :
  unambiguous (L := posix_ascii) scenario = true
  /\ reordered scenario scenario_reordered
  /\ build_tree_lines (L := posix_ascii) scenario_reordered 2 [] "" None None
       false true false None 0 = Ok scenario_escaped.
Proof.
  split; [vm_compute; reflexivity|]. split; [exact scenario_is_reordered|].
  rewrite <- (enumeration_order_irrelevant (L := posix_ascii) scenario scenario_reordered
                2 [] "" None None false true false None 0);
    [vm_compute; reflexivity | vm_compute; reflexivity | exact scenario_is_reordered].
Defined.

(** C8, as the specification states it, fails: [Readme] and [README]
    have the same sort key, the sort is stable, and the two files come
    out in the order in which the directory was enumerated. *)
Lemma enumeration_order_refuted :
  reordered case_clash case_clash_reordered
  /\ fmap_outcome (map strip_ansi)
       (build_tree_lines (L := posix_ascii) case_clash 1 [] "" None None
          false false false None 0)
     = Ok ["├── Readme"; "└── README"]%string
  /\ fmap_outcome (map strip_ansi)
       (build_tree_lines (L := posix_ascii) case_clash_reordered 1 [] "" None None
          false false false None 0)
     = Ok ["├── README"; "└── Readme"]%string
  /\ build_tree_lines (L := posix_ascii) case_clash 1 [] "" None None
       false false false None 0
     <> build_tree_lines (L := posix_ascii) case_clash_reordered 1 [] "" None None
          false false false None 0.
Proof.
  split; [|split; [vm_compute; reflexivity | split; [vm_compute; reflexivity|]]].
  - apply (reordered_dir _ (rev [("Readme", File 1); ("README", File 2)]%string)).
    + apply Permutation_rev.
    + repeat constructor.
  - vm_compute. discriminate.
Qed.

(** * Further properties *)

(** ** Sizes below one KiB and the range of the printed number *)

Lemma round53_nonneg (n : Z) : 0 <= n -> 0 <= round53 n.
Proof.
  intros Hn. destruct (Z_lt_le_dec n (2 ^ 53)) as [H|H].
  - rewrite round53_small; lia.
  - pose proof (round53_large n H). lia.
Qed.

Lemma tenths_whole (m : Z) : 0 <= m -> tenths (PyFloat m 0) = 10 * m.
Proof.
  intros Hm. unfold tenths, to_float. rewrite Z.abs_eq by lia.
  change (2 ^ 0) with 1. rewrite Z.div_1_r, Z.mod_1_r. reflexivity.
Qed.

Lemma show_tenths_whole (m : Z) : 0 <= m -> show_tenths (10 * m) = digits m +:+ ".0".
Proof.
  intros Hm. unfold show_tenths.
  replace (10 * m / 10) with m by (rewrite Z.mul_comm, Z.div_mul; lia).
  replace ((10 * m) mod 10) with 0 by (rewrite Z.mul_comm, Z.mod_mul; lia).
  reflexivity.
Qed.

(** X1 — Below 1024 the size is printed in B as the whole number of bytes
    with the decimal [.0].  A negative size too, behind a minus sign, as
    long as the double nearest to it is in range (above -2^1024): the
    number printed is that double, which is the size itself above -2^53.
    A negative size whose nearest double is out of range raises
    OverflowError when it is formatted. *)
Theorem whole_bytes_below_1024 (n : Z) :
  (0 <= n < 1024 -> checked_human_readable_size n = Ok (digits n +:+ ".0B"))
  /\ (n < 0 -> round53 (- n) < 2 ^ 1024 ->
      checked_human_readable_size n = Ok ("-" +:+ digits (round53 (- n)) +:+ ".0B"))
  /\ (n < 0 -> 2 ^ 1024 <= round53 (- n) ->
      checked_human_readable_size n = Raise OverflowError)
  /\ (- 2 ^ 53 < n < 0 -> round53 (- n) = - n /\ round53 (- n) < 2 ^ 1024).
Proof.
  assert (Hneg : n < 0 ->
            human_readable_size n = "-" +:+ digits (round53 (- n)) +:+ ".0B").
  { intros Hn. unfold human_readable_size. rewrite human_readable_size_loop_int.
    destruct (Z.ltb_spec n 1024) as [_|H]; [|lia].
    pose proof (round53_nonneg (- n) ltac:(lia)) as Hr.
    unfold format_1f, tenths, to_float. simpl fst.
    rewrite Z.sgn_neg, Z.abs_neq by lia.
    destruct (Z.ltb_spec (-1 * round53 (- n)) 0) as [Hlt|Hzero].
    + replace (Z.abs (-1 * round53 (- n))) with (round53 (- n)) by lia.
      pose proof (tenths_whole (round53 (- n)) Hr) as Ht.
      unfold tenths, to_float in Ht. rewrite Z.abs_eq in Ht by lia. rewrite Ht.
      rewrite show_tenths_whole by lia. now rewrite !string_app_assoc.
    + exfalso. assert (Hz : round53 (- n) = 0) by lia.
      destruct (Z_lt_le_dec (- n) (2 ^ 53)) as [Hs|Hl].
      * rewrite round53_small in Hz; lia.
      * pose proof (round53_large (- n) Hl). lia. }
  assert (Hpow : 2 ^ 53 < 2 ^ 1024) by (apply Z.pow_lt_mono_r; lia).
  split; [|split; [|split]].
  - intros Hn. rewrite checked_human_readable_size_spec.
    destruct (Z.ltb_spec n 1024) as [_|H]; [|lia].
    assert (Hsmall : 0 <= n < 2 ^ 53).
    { split; [lia | change (2 ^ 53) with 9007199254740992; lia]. }
    rewrite Z.abs_eq, round53_small by lia.
    destruct (Z.leb_spec (2 ^ 1024) n) as [Hbig|_]; [lia|].
    unfold human_readable_size. rewrite human_readable_size_loop_int.
    destruct (Z.ltb_spec n 1024) as [_|H]; [|lia].
    rewrite (format_1f_nonneg _ n 0); [|now apply to_float_int | lia].
    rewrite tenths_whole, show_tenths_whole by lia.
    now rewrite string_app_assoc.
  - intros Hn Hr. rewrite checked_human_readable_size_spec.
    destruct (Z.ltb_spec n 1024) as [_|H]; [|lia].
    rewrite Z.abs_neq by lia.
    destruct (Z.leb_spec (2 ^ 1024) (round53 (- n))) as [Hbig|_]; [lia|].
    now rewrite Hneg.
  - intros Hn Hr. rewrite checked_human_readable_size_spec.
    destruct (Z.ltb_spec n 1024) as [_|H]; [|lia].
    rewrite Z.abs_neq by lia.
    destruct (Z.leb_spec (2 ^ 1024) (round53 (- n))) as [_|Hsmall]; [reflexivity|lia].
  - intros Hn. rewrite round53_small by lia. split; [reflexivity | lia].
Qed.

(** X2 — From one KiB up to below one PiB the printed number lies between 1.0
    and 1024.0, and 1024.0 is reached: a size just under the next unit is
    rounded up to it without changing the unit. *)
Theorem printed_number_range (n : Z) :
  1024 <= n < 2 ^ 50 ->
  (exists k t,
     (1 <= k <= 4)%nat
     /\ human_readable_size n = show_tenths t +:+ unit_name k
     /\ 10 <= t <= 10240)
  /\ human_readable_size 1048575 = "1024.0KB"%string.
Proof.
  intros [Hlo Hhi]. split; [|vm_compute; reflexivity].
  destruct (human_readable_size_unit n ltac:(lia)) as [k [t [Hk [Hs [Ht Hnear]]]]].
  exists k, t.
  destruct Hk as [Hk5 [Hlt Hge]].
  assert (Hk1 : (1 <= k)%nat).
  { destruct k; [|lia]. specialize (Hlt ltac:(lia)). simpl in Hlt. lia. }
  assert (Hk4 : (k <= 4)%nat).
  { destruct (Nat.eq_dec k 5%nat) as [->|Hne]; [|lia].
    specialize (Hge 4%nat ltac:(lia)). change (1024 * 1024 ^ Z.of_nat 4) with (2 ^ 50) in Hge.
    lia. }
  split; [lia|]. split; [exact Hs|].
  rewrite round53_small in Hnear
    by (split; [lia | change (2 ^ 53) with (2 ^ 50 * 8); lia]).
  specialize (Hlt ltac:(lia)).
  destruct Hnear as [Hnear _].
  destruct k as [|[|[|[|[|k]]]]]; [lia | | | | | lia].
  - specialize (Hge 0%nat ltac:(lia)).
    change (1024 ^ Z.of_nat 1) with 1024 in *.
    change (1024 ^ Z.of_nat 0) with 1 in *. lia.
  - specialize (Hge 1%nat ltac:(lia)).
    change (1024 ^ Z.of_nat 2) with 1048576 in *.
    change (1024 ^ Z.of_nat 1) with 1024 in *. lia.
  - specialize (Hge 2%nat ltac:(lia)).
    change (1024 ^ Z.of_nat 3) with 1073741824 in *.
    change (1024 ^ Z.of_nat 2) with 1048576 in *. lia.
  - specialize (Hge 3%nat ltac:(lia)).
    change (1024 ^ Z.of_nat 4) with 1099511627776 in *.
    change (1024 ^ Z.of_nat 3) with 1073741824 in *. lia.
Qed.

Lemma printed_number_range_witness :
  1024 <= 1500000 < 2 ^ 50
  /\ exists k t,
       human_readable_size 1500000 = show_tenths t +:+ unit_name k /\ 10 <= t <= 10240.
Proof.
  assert (H : 1024 <= 1500000 < 2 ^ 50) by (split; [lia | vm_compute; reflexivity]).
  split; [exact H|].
  destruct (printed_number_range 1500000 H) as [[k [t [_ [Hs Ht]]]] _].
  exists k, t. split; assumption.
Defined.

(** ** Start paths that are not directories *)

Lemma resolve_error_spec (fs : entry) (p : path) :
  resolve fs p = None ->
  (resolve_error fs p = NotADirectoryError
   /\ exists q rest, p = q ++ rest
        /\ Path.exists_ fs q = true /\ Path.is_dir fs q = false)
  \/ (resolve_error fs p = FileNotFoundError
      /\ forall q rest, p = q ++ rest ->
           Path.exists_ fs q = true -> Path.is_dir fs q = true).
Proof.
  unfold Path.exists_, Path.is_dir.
  revert fs. induction p as [|n p IH]; intros fs Hp; [discriminate Hp|].
  destruct fs as [sz|cs|].
  - left. split; [reflexivity|]. exists [], (n :: p). auto.
  - simpl in Hp |- *. destruct (lookup_name n cs) as [e|] eqn:El.
    + destruct (IH e Hp) as [[He [q [rest [Hq [Hex Hnd]]]]]|[He Hall]].
      * left. split; [exact He|]. exists (n :: q), rest. simpl. rewrite El.
        split; [now rewrite Hq | auto].
      * right. split; [exact He|]. intros [|m q] rest Hq Hex; [reflexivity|].
        injection Hq as -> Hq. simpl in Hex |- *. rewrite El in Hex |- *.
        exact (Hall q rest Hq Hex).
    + right. split; [reflexivity|]. intros [|m q] rest Hq Hex; [reflexivity|].
      injection Hq as -> Hq. simpl in Hex. rewrite El in Hex. discriminate Hex.
  - left. split; [reflexivity|]. exists [], (n :: p). auto.
Qed.

Lemma iterdir_not_dir (fs : entry) (p : path) :
  Path.is_dir fs p = false ->
  Path.iterdir fs p
  = Raise (if Path.exists_ fs p then NotADirectoryError else resolve_error fs p).
Proof.
  unfold Path.is_dir, Path.iterdir, Path.exists_.
  destruct (resolve fs p) as [[sz|cs|]|]; try reflexivity. discriminate.
Qed.

Lemma start_path_must_be_a_directory_raises {L : PyStr} (fs : entry) (fuel : nat)
    (startpath : path) (indent : string) (exclude : option (list string))
    (git_tracked : option (gset path)) (color show_sizes compact : bool)
    (depth : option Z) (current_level : Z) :
  Path.is_dir fs startpath = false ->
  build_tree_lines fs (S fuel) startpath indent exclude git_tracked color show_sizes
    compact depth current_level
  = Raise (if Path.exists_ fs startpath then NotADirectoryError
           else resolve_error fs startpath).
Proof.
  intros Hdir. cbn [build_tree_lines]. destruct compact.
  - cbn [collapse_single_dirs]. rewrite (iterdir_not_dir _ _ Hdir). reflexivity.
  - simpl. rewrite (iterdir_not_dir _ _ Hdir). reflexivity.
Qed.

(** X3 — The builder lists its start path first, compacting or not, so on a
    start path that is no directory it raises, whatever the options:
    [NotADirectoryError] when the path, or a path it goes through, exists
    and is no directory; [FileNotFoundError] when everything it goes
    through is a directory and a name is missing. *)
Theorem start_path_must_be_a_directory {L : PyStr} (fs : entry) (fuel : nat)
    (startpath : path) (indent : string) (exclude : option (list string))
    (git_tracked : option (gset path)) (color show_sizes compact : bool)
    (depth : option Z) (current_level : Z) :
  Path.is_dir fs startpath = false ->
  ((exists q rest, startpath = q ++ rest
      /\ Path.exists_ fs q = true /\ Path.is_dir fs q = false) ->
   build_tree_lines fs (S fuel) startpath indent exclude git_tracked color show_sizes
     compact depth current_level = Raise NotADirectoryError)
  /\ ((forall q rest, startpath = q ++ rest ->
        Path.exists_ fs q = true -> Path.is_dir fs q = true) ->
      build_tree_lines fs (S fuel) startpath indent exclude git_tracked color show_sizes
        compact depth current_level = Raise FileNotFoundError).
Proof.
  intros Hdir. rewrite start_path_must_be_a_directory_raises by exact Hdir.
  destruct (Path.exists_ fs startpath) eqn:Hex.
  - split; [reflexivity|]. intros Hall.
    rewrite (Hall startpath [] (eq_sym (app_nil_r _)) Hex) in Hdir. discriminate Hdir.
  - assert (Hnone : resolve fs startpath = None).
    { unfold Path.exists_ in Hex. destruct (resolve fs startpath); [discriminate|reflexivity]. }
    destruct (resolve_error_spec fs startpath Hnone)
      as [[-> [q [rest [Hq [Hqe Hqd]]]]]|[-> Hall]].
    + split; [reflexivity|]. intros Hall.
      rewrite (Hall q rest Hq Hqe) in Hqd. discriminate Hqd.
    + split; [|reflexivity]. intros [q [rest [Hq [Hqe Hqd]]]].
      rewrite (Hall q rest Hq Hqe) in Hqd. discriminate Hqd.
Qed.

Lemma start_path_must_be_a_directory_witness :
  Path.is_dir scenario ["a.txt"; "x"]%string = false
  /\ build_tree_lines (L := posix_ascii) scenario 1 ["a.txt"; "x"]%string "" None None
       true true true None 0 = Raise NotADirectoryError
  /\ build_tree_lines (L := posix_ascii) scenario 1 ["a.txt"%string] "" None None
       true true true None 0 = Raise NotADirectoryError
  /\ build_tree_lines (L := posix_ascii) scenario 1 ["sub"; "nowhere"]%string "" None None
       true true false None 0 = Raise FileNotFoundError.
Proof.
  split; [reflexivity|]. split; [|split].
  - apply (start_path_must_be_a_directory (L := posix_ascii) scenario 0
             ["a.txt"; "x"]%string); [reflexivity|].
    exists ["a.txt"%string], ["x"%string]. repeat split; reflexivity.
  - apply (start_path_must_be_a_directory (L := posix_ascii) scenario 0
             ["a.txt"%string]); [reflexivity|].
    exists ["a.txt"%string], []. repeat split; reflexivity.
  - apply (start_path_must_be_a_directory (L := posix_ascii) scenario 0
             ["sub"; "nowhere"]%string); [reflexivity|].
    intros q rest Hq Hex.
    destruct q as [|a [|b [|c q]]]; try discriminate Hq.
    + reflexivity.
    + injection Hq as <- _. reflexivity.
    + injection Hq as <- <- _. discriminate Hex.
Defined.

(** X4 — [main] checks that the root exists and nothing more.  For a missing
    root it prints the error message with the path as [str] gives it and
    returns, without running git and without an exception; for a root
    that exists and is no directory (a regular file) the run ends with
    [NotADirectoryError] instead of a message, once the tracked files,
    if asked for, have been listed. *)
Theorem main_checks_existence_only {L : PyStr} (fs : entry) (fuel : nat) (git : process)
    (args : arguments) :
  (Path.exists_ fs (arg_path args) = false ->
   main fuel fs git args
   = Ok {| printed := "Error: Path '" +:+ Path.str (arg_path args) +:+ "' does not exist.";
           copied := None |})
  /\ (Path.exists_ fs (arg_path args) = true ->
      Path.is_dir fs (arg_path args) = false ->
      arg_git args = false \/ git <> NotFound ->
      main (S fuel) fs git args = Raise NotADirectoryError).
Proof.
  split.
  - intros He. unfold main. rewrite He. reflexivity.
  - intros He Hd Hgit. unfold main. rewrite He. simpl negb. cbv iota.
    assert (Hb : forall git_tracked,
              build_tree_lines fs (S fuel) (arg_path args) "" (Some (arg_exclude args))
                git_tracked (negb (arg_no_color args)) (negb (arg_no_size args))
                (arg_compact args) (arg_depth args) 0 = Raise NotADirectoryError).
    { intros git_tracked. rewrite start_path_must_be_a_directory_raises by exact Hd.
      now rewrite He. }
    destruct (arg_git args) eqn:Eg.
    + destruct Hgit as [Hgit|Hgit]; [discriminate|].
      assert (Ht : exists t, get_git_tracked_files git (arg_path args) = Ok t).
      { destruct git as [returncode stdout|]; [|congruence].
        unfold get_git_tracked_files, subprocess_run.
        destruct (returncode =? 0); simpl; eauto. }
      destruct Ht as [t ->]. cbn [bind]. now rewrite Hb.
    + cbn [bind]. now rewrite Hb.
Qed.

Lemma main_checks_existence_only_witness :
  Path.exists_ scenario ["/"; "nowhere"]%string = false
  /\ main (L := posix_ascii) 0 scenario NotFound
       {| arg_path := ["/"; "nowhere"]%string; arg_exclude := []; arg_git := true;
          arg_no_color := false; arg_no_size := false; arg_compact := false;
          arg_depth := None; arg_clipboard := false |}
     = Ok {| printed := "Error: Path '/nowhere' does not exist."; copied := None |}.
Proof.
  split; [reflexivity|].
  exact (proj1 (main_checks_existence_only (L := posix_ascii) scenario 0 NotFound
                  {| arg_path := ["/"; "nowhere"]%string; arg_exclude := []; arg_git := true;
                     arg_no_color := false; arg_no_size := false; arg_compact := false;
                     arg_depth := None; arg_clipboard := false |}) eq_refl).
Defined.

(** ** Compaction is idempotent *)

Section Compaction.
Context {L : PyStr}.
Variable fs : entry.

Lemma collapse_single_dirs_listed fuel dir git_tracked exclude r :
  collapse_single_dirs fs fuel dir git_tracked exclude = Ok r ->
  exists items, visible_children fs r git_tracked (default [] exclude) = Ok items.
Proof.
  revert dir. induction fuel as [|fuel IH]; intros dir; [discriminate|].
  rewrite collapse_single_dirs_step. intros H.
  apply bind_Ok in H as [items [Hv H]].
  destruct (List.filter (Path.is_dir fs) items) as [|d [|d' dirs]];
    destruct (List.filter (Path.is_file fs) items) as [|f files];
    try (injection H as <-; eauto).
  eapply IH, H.
Qed.

Lemma collapse_single_dirs_fixed fuel fuel' dir git_tracked exclude r :
  collapse_single_dirs fs fuel dir git_tracked exclude = Ok r ->
  collapse_single_dirs fs (S fuel') r git_tracked exclude = Ok r.
Proof.
  intros H.
  destruct (collapse_single_dirs_listed _ _ _ _ _ H) as [items Hv].
  apply collapse_single_dirs_collapses in H as [_ Hstuck].
  rewrite collapse_single_dirs_step, Hv. cbn [bind].
  pose proof (only_child_dir_cases fs _ _ _ _ Hv) as Hc.
  destruct (List.filter (Path.is_dir fs) items) as [|d [|d' dirs]];
    destruct (List.filter (Path.is_file fs) items) as [|f files]; try reflexivity.
  exfalso. eapply Hstuck, Hc.
Qed.
End Compaction.

(** X5 — What [collapse_single_dirs] returns is a directory at or below the
    start, reached through names that match no exclusion pattern;
    collapsing it again returns it unchanged, and with compaction the
    builder gives for the start path the very lines it gives for the
    directory the start path collapses to. *)
Theorem compaction_is_idempotent {L : PyStr} (fs : entry) (fuel : nat) (startpath r : path)
    (indent : string) (exclude : option (list string)) (git_tracked : option (gset path))
    (color show_sizes : bool) (depth : option Z) (current_level : Z) :
  collapse_single_dirs fs (S fuel) startpath git_tracked exclude = Ok r ->
  Path.is_dir fs r = true
  /\ (exists chain,
        r = startpath ++ chain
        /\ Forall (fun n => matches_patterns n (default [] exclude) = false) chain)
  /\ (forall fuel', collapse_single_dirs fs (S fuel') r git_tracked exclude = Ok r)
  /\ build_tree_lines fs (S fuel) startpath indent exclude git_tracked color show_sizes
       true depth current_level
     = build_tree_lines fs (S fuel) r indent exclude git_tracked color show_sizes
         true depth current_level.
Proof.
  intros H.
  assert (Hsome : forall d,
            collapse_single_dirs fs (S fuel) d git_tracked (Some (default [] exclude))
            = collapse_single_dirs fs (S fuel) d git_tracked exclude).
  { clear. generalize (S fuel). intros f. induction f as [|f IH]; intros d; [reflexivity|].
    cbn [collapse_single_dirs]. simpl default.
    destruct (Path.iterdir fs d) as [listing| |]; try reflexivity. cbn [bind].
    destruct (List.filter (Path.is_dir fs) _) as [|d1 [|d2 dirs]]; try reflexivity.
    destruct (List.filter (Path.is_file fs) _); [apply IH | reflexivity]. }
  split; [|split; [|split]].
  - destruct (collapse_single_dirs_listed fs _ _ _ _ _ H) as [items Hv].
    unfold visible_children in Hv. apply bind_Ok in Hv as [listing [Hit _]].
    apply iterdir_Ok in Hit as [cs [Hres _]]. unfold Path.is_dir. now rewrite Hres.
  - apply collapse_single_dirs_collapses in H. eapply collapses_to_below, H.
  - intros fuel'. eapply collapse_single_dirs_fixed, H.
  - cbn [build_tree_lines]. rewrite !Hsome, H.
    rewrite (collapse_single_dirs_fixed fs _ fuel _ _ _ _ H). reflexivity.
Qed.

Lemma compaction_is_idempotent_witness :
  collapse_single_dirs (L := posix_ascii) wrapped 4 [] None None
  = Ok ["src"; "main"; "java"]%string
  /\ build_tree_lines (L := posix_ascii) wrapped 4 [] "" None None false true true None 0
     = build_tree_lines (L := posix_ascii) wrapped 4 ["src"; "main"; "java"]%string ""
         None None false true true None 0.
Proof.
  assert (H : collapse_single_dirs (L := posix_ascii) wrapped 4 [] None None
              = Ok ["src"; "main"; "java"]%string) by (vm_compute; reflexivity).
  split; [exact H|].
  apply (compaction_is_idempotent (L := posix_ascii) wrapped 3 [] _ "" None None false true
           None 0 H).
Defined.

(** ** What the tracking filter lets through *)

Lemma resolve_below_non_dir (fs : entry) (p rest : path) :
  Path.is_dir fs p = false -> rest <> [] -> resolve fs (p ++ rest) = None.
Proof.
  intros Hd Hne. rewrite resolve_app. unfold Path.is_dir in Hd.
  destruct rest as [|n rest]; [congruence|].
  destruct (resolve fs p) as [[sz|cs|]|]; try reflexivity. discriminate.
Qed.

(** X6 — With a tracked set every line is for a tracked path: an entry that
    is not a directory is shown only if it is a member of the set, a
    directory only if it is a member or a regular file of the set lies
    strictly beneath it. *)
Theorem tracking_shows_tracked_only {L : PyStr} (fs : entry) (fuel : nat) (startpath : path)
    (indent : string) (exclude : option (list string)) (tracked : gset path)
    (color show_sizes compact : bool) (depth : option Z) (current_level : Z)
    (rows : list row) :
  build_tree_rows fs fuel startpath indent exclude (Some tracked) color show_sizes compact
    depth current_level [] = Ok rows ->
  build_tree_lines fs fuel startpath indent exclude (Some tracked) color show_sizes compact
    depth current_level = Ok (map row_line rows)
  /\ Forall (fun r =>
               (Path.is_dir fs (row_item r) = false -> row_item r ∈ tracked)
               /\ (Path.is_dir fs (row_item r) = true ->
                   row_item r ∈ tracked
                   \/ exists p rest,
                        p ∈ tracked /\ Path.is_file fs p = true
                        /\ rest <> [] /\ p = row_item r ++ rest)) rows.
Proof.
  intros H.
  split; [rewrite (build_tree_lines_rows fs _ _ _ _ _ _ _ _ _ _ []), H; reflexivity|].
  apply rows_calls in H. eapply List.Forall_impl; [|exact H].
  intros r [_ [_ [items [Hv Hin]]]].
  unfold visible_children in Hv. apply bind_Ok in Hv as [listing [_ [= <-]]].
  simpl in Hin. apply filter_In in Hin as [_ Ht].
  apply is_tracked_spec in Ht. split.
  - intros Hd. destruct Ht as [Ht|[p [Hp [Hf [rest ->]]]]]; [exact Ht|].
    destruct rest as [|n rest]; [now rewrite app_nil_r in Hp|].
    unfold Path.is_file in Hf.
    rewrite (resolve_below_non_dir fs _ (n :: rest) Hd) in Hf by discriminate.
    discriminate Hf.
  - intros Hd. destruct Ht as [Ht|[p [Hp [Hf [rest ->]]]]]; [left; exact Ht|].
    right. exists (row_item r ++ rest), rest. repeat split; try assumption.
    intros ->. rewrite app_nil_r in Hf. unfold Path.is_dir in Hd. unfold Path.is_file in Hf.
    destruct (resolve fs (row_item r)) as [[| |]|]; discriminate.
Qed.

Lemma tracking_shows_tracked_only_witness :
  exists rows,
    build_tree_lines (L := posix_ascii) scenario 2 [] "" None
      (Some {[ ["sub"; "c.txt"]%string ]}) false true false None 0 = Ok (map row_line rows)
    /\ map row_item rows = [["sub"]; ["sub"; "c.txt"]]%string.
Proof.
  destruct (build_tree_rows (L := posix_ascii) scenario 2 [] "" None
              (Some {[ ["sub"; "c.txt"]%string ]}) false true false None 0 [])
    as [rows| |] eqn:E; try (vm_compute in E; discriminate E).
  exists rows.
  destruct (tracking_shows_tracked_only (L := posix_ascii) scenario 2 [] "" None
              {[ ["sub"; "c.txt"]%string ]} false true false None 0 rows E) as [Hl _].
  split; [exact Hl|]. vm_compute in E. injection E as <-. reflexivity.
Defined.

(** ** Nothing visible is left out *)

Lemma in_enumerate_exists {A : Type} (x : A) (l : list A) :
  In x l -> exists i, In (i, x) (enumerate l).
Proof.
  unfold enumerate. generalize 0%nat.
  induction l as [|y l IH]; intros k; simpl; [intros []|].
  intros [->|Hin]; [exists k; left; reflexivity|].
  destruct (IH (S k) Hin) as [i Hi]. exists i. right. exact Hi.
Qed.

Lemma Forall2_In_l {A B : Type} (R : A -> B -> Prop) (l : list A) (bs : list B) :
  Forall2 R l bs -> forall x, In x l -> exists b, In b bs /\ R x b.
Proof.
  induction 1 as [|x b l bs HR _ IH]; intros x0; [intros []|].
  intros [<-|Hin].
  - exists b. split; [left; reflexivity | exact HR].
  - destruct (IH x0 Hin) as [b0 [Hb0 HR0]]. exists b0. split; [right|]; assumption.
Qed.

Lemma depth_reached_mono (depth : option Z) (a b : Z) :
  a <= b -> depth_reached depth b = false -> depth_reached depth a = false.
Proof.
  destruct depth as [d|]; simpl; [|reflexivity].
  intros Hab Hb. apply Z.leb_gt in Hb. apply Z.leb_gt. lia.
Qed.

Lemma iterdir_is_dir (fs : entry) (p : path) (listing : list path) :
  Path.iterdir fs p = Ok listing -> Path.is_dir fs p = true.
Proof.
  intros H. apply iterdir_Ok in H as [cs [Hres _]]. unfold Path.is_dir. now rewrite Hres.
Qed.

Section Complete.
Context {L : PyStr}.
Variable fs : entry.

Lemma rows_complete fuel startpath indent exclude git_tracked color show_sizes depth
    current_level ancestors rows below :
  build_tree_rows fs fuel startpath indent exclude git_tracked color show_sizes false
    depth current_level ancestors = Ok rows ->
  below <> [] ->
  (forall q n rest,
     below = q ++ n :: rest ->
     listed fs git_tracked (default [] exclude) (startpath ++ q) (startpath ++ q ++ [n])) ->
  depth_reached depth (current_level + Z.of_nat (length below) - 1) = false ->
  exists r,
    In r rows /\ row_item r = startpath ++ below
    /\ row_level r = current_level + Z.of_nat (length below) - 1.
Proof.
  revert startpath indent exclude current_level ancestors rows below.
  induction fuel as [|fuel IH];
    intros startpath indent exclude lvl anc rows below H Hne Hl Hd; [discriminate|].
  destruct below as [|n rest]; [congruence|]. clear Hne.
  apply build_tree_rows_Ok in H as [dir [listing [blocks [Hc [Hit [HF ->]]]]]].
  unfold compacted in Hc. subst dir.
  pose proof (Hl [] n rest eq_refl) as Hn. rewrite app_nil_r in Hn. simpl in Hn.
  destruct Hn as [items [Hv Hin]].
  unfold visible_children in Hv. rewrite Hit in Hv. injection Hv as <-.
  apply items_visible in Hin.
  destruct (in_enumerate_exists _ _ Hin) as [i Hi].
  destruct (Forall2_In_l _ _ _ HF _ Hi) as [b [Hb Hblock]].
  unfold row_block in Hblock. simpl in Hblock.
  rewrite (depth_reached_mono depth lvl (lvl + Z.of_nat (length (n :: rest)) - 1))
    in Hblock by (simpl length; try lia; exact Hd).
  destruct rest as [|m rest].
  - assert (Hr0 : exists r0 sub, b = r0 :: sub /\ row_item r0 = startpath ++ [n]
                                 /\ row_level r0 = lvl).
    { destruct (Path.is_dir fs (startpath ++ [n])).
      - apply bind_Ok in Hblock as [sub [_ [= <-]]]. eauto.
      - injection Hblock as <-. eauto. }
    destruct Hr0 as [r0 [sub [-> [Hi0 Hl0]]]].
    exists r0. split; [|split; [exact Hi0 | simpl; lia]].
    apply in_concat. eexists. split; [exact Hb | left; reflexivity].
  - pose proof (Hl [n] m rest eq_refl) as Hm.
    apply listed_inv in Hm as [listing' [m' [Hit' _]]].
    apply iterdir_is_dir in Hit'. rewrite Hit' in Hblock.
    apply bind_Ok in Hblock as [sub [Hsub [= <-]]].
    destruct (IH _ _ _ _ _ _ (m :: rest) Hsub) as [r [Hr [Hitem Hlevel]]].
    + discriminate.
    + intros q k rest' Heq. simpl default.
      specialize (Hl (n :: q) k rest'). rewrite <- !app_assoc. simpl. simpl in Hl.
      apply Hl. now rewrite Heq.
    + rewrite <- Hd. f_equal. simpl length. lia.
    + exists r. split; [|split].
      * apply in_concat. eexists. split; [exact Hb | right; exact Hr].
      * rewrite Hitem, <- app_assoc. reflexivity.
      * rewrite Hlevel. simpl length. lia.
Qed.
End Complete.

(** X7 — Without compaction every entry under the start path has its line as
    soon as each component of its path passes the filters in its parent
    directory and its level is within the depth limit: nothing else is
    ever withheld. *)
Theorem every_visible_entry_is_shown {L : PyStr} (fs : entry) (fuel : nat) (startpath : path)
    (indent : string) (exclude : option (list string)) (git_tracked : option (gset path))
    (color show_sizes : bool) (depth : option Z) (current_level : Z) (rows : list row)
    (below : path) :
  build_tree_rows fs fuel startpath indent exclude git_tracked color show_sizes false
    depth current_level [] = Ok rows ->
  below <> [] ->
  (forall q n rest,
     below = q ++ n :: rest ->
     listed fs git_tracked (default [] exclude) (startpath ++ q) (startpath ++ q ++ [n])) ->
  depth_reached depth (current_level + Z.of_nat (length below) - 1) = false ->
  build_tree_lines fs fuel startpath indent exclude git_tracked color show_sizes false
    depth current_level = Ok (map row_line rows)
  /\ exists r,
       In r rows /\ row_item r = startpath ++ below
       /\ row_level r = current_level + Z.of_nat (length below) - 1.
Proof.
  intros H Hne Hl Hd.
  split; [rewrite (build_tree_lines_rows fs _ _ _ _ _ _ _ _ _ _ []), H; reflexivity|].
  eapply rows_complete; eassumption.
Qed.

Lemma every_visible_entry_is_shown_witness :
  exists rows r,
    build_tree_lines (L := posix_ascii) scenario 2 [] "" None None false true false None 0
      = Ok (map row_line rows)
    /\ In r rows /\ row_item r = ["sub"; "c.txt"]%string /\ row_level r = 1.
Proof.
  destruct (build_tree_rows (L := posix_ascii) scenario 2 [] "" None None false true false
              None 0 []) as [rows| |] eqn:E; try (vm_compute in E; discriminate E).
  destruct (every_visible_entry_is_shown (L := posix_ascii) scenario 2 [] "" None None
              false true None 0 rows ["sub"; "c.txt"]%string E) as [Hl [r [Hr [Hi Hlv]]]].
  - discriminate.
  - intros q n rest Heq.
    destruct q as [|a [|b q]]; simpl in Heq.
    + injection Heq as <- <-. eexists. split; [vm_compute; reflexivity | simpl; auto].
    + injection Heq as <- <- <-. eexists. split; [vm_compute; reflexivity | simpl; auto].
    + exfalso. injection Heq as _ _ Heq. destruct q; discriminate Heq.
  - reflexivity.
  - exists rows, r. auto.
Defined.

(** ** The connector of the last entry *)

Lemma nth_error_enumerate {A : Type} (l : list A) (i : nat) (x : nat * A) :
  nth_error (enumerate l) i = Some x -> fst x = i /\ (i < length l)%nat.
Proof.
  unfold enumerate.
  assert (H : forall k, nth_error (combine (seq k (length l)) l) i = Some x ->
                        fst x = (k + i)%nat /\ (i < length l)%nat).
  { revert i. induction l as [|y l IH]; intros i k; simpl; [destruct i; discriminate|].
    destruct i as [|i]; simpl.
    - intros [= <-]. simpl. lia.
    - intros Hn. destruct (IH i (S k) Hn). lia. }
  apply (H 0%nat).
Qed.

Section Direct.
Context {L : PyStr}.
Variable fs : entry.

(** The lines of the call's own level, entry by entry. *)
Lemma direct_rows_rendered fuel startpath indent exclude git_tracked color show_sizes
    compact depth current_level ancestors rows :
  build_tree_rows fs fuel startpath indent exclude git_tracked color show_sizes compact
    depth current_level ancestors = Ok rows ->
  exists items,
    map row_line (direct_rows current_level rows)
    = if depth_reached depth current_level then []
      else map (fun x => render fs indent (fst x) (length items) (snd x) color show_sizes)
             (enumerate items).
Proof.
  destruct fuel as [|fuel]; [discriminate|]. intros H.
  apply build_tree_rows_Ok in H as [dir [listing [blocks [_ [_ [HF ->]]]]]].
  exists (items_of fs git_tracked (default [] exclude) listing).
  revert HF. generalize (enumerate (items_of fs git_tracked (default [] exclude) listing)).
  generalize (length (items_of fs git_tracked (default [] exclude) listing)).
  intros n xs HF. unfold direct_rows.
  induction HF as [|[i item] b xs bs Hb _ IH]; simpl.
  { now destruct (depth_reached depth current_level). }
  rewrite List.filter_app, map_app. unfold row_block in Hb. simpl in Hb.
  destruct (depth_reached depth current_level) eqn:Hd.
  { injection Hb as <-. simpl. exact IH. }
  assert (Hsub : forall sub,
            build_tree_rows fs fuel item (indent +:+ extension i n)
              (Some (default [] exclude)) git_tracked color show_sizes compact depth
              (current_level + 1) (item :: ancestors) = Ok sub ->
            List.filter (fun r => row_level r =? current_level) sub = []).
  { intros sub Hrec. apply filter_none, List.Forall_forall.
    intros r Hr. destruct (rows_provenance fs _ _ _ _ _ _ _ _ _ _ _ _ Hrec r Hr)
      as [_ [chain [_ [Hl _]]]]. apply Z.eqb_neq. lia. }
  destruct (Path.is_dir fs item) eqn:Hdir.
  - apply bind_Ok in Hb as [sub [Hrec [= <-]]]. simpl. rewrite Z.eqb_refl.
    rewrite (Hsub sub Hrec). simpl. now rewrite IH.
  - injection Hb as <-. simpl. rewrite Z.eqb_refl. simpl. now rewrite IH.
Qed.
End Direct.

(** X8 — Among the entries that a call draws for its directory, the last one
    and only the last one is drawn with the corner [└── ]; every other
    with the tee [├── ]; each line starts with the indentation of the
    call. *)
Theorem last_entry_gets_the_corner {L : PyStr} (fs : entry) (fuel : nat) (startpath : path)
    (indent : string) (exclude : option (list string)) (git_tracked : option (gset path))
    (color show_sizes compact : bool) (depth : option Z) (current_level : Z)
    (ancestors : list path) (rows : list row) (i : nat) (r : row) :
  build_tree_rows fs fuel startpath indent exclude git_tracked color show_sizes compact
    depth current_level ancestors = Ok rows ->
  nth_error (direct_rows current_level rows) i = Some r ->
  exists rest,
    row_line r
    = indent
      +:+ (if (S i =? length (direct_rows current_level rows))%nat
           then "└── " else "├── ")
      +:+ rest.
Proof.
  intros H Hi.
  destruct (direct_rows_rendered fs _ _ _ _ _ _ _ _ _ _ _ _ H) as [items Hlines].
  assert (Hlen : length (direct_rows current_level rows)
                 = if depth_reached depth current_level then 0%nat else length items).
  { rewrite <- (length_map row_line), Hlines.
    destruct (depth_reached depth current_level); [reflexivity|].
    rewrite length_map. unfold enumerate.
    rewrite length_combine, length_seq. lia. }
  apply (map_nth_error row_line) in Hi. rewrite Hlines in Hi.
  destruct (depth_reached depth current_level); [destruct i; discriminate Hi|].
  rewrite Hlen.
  rewrite nth_error_map in Hi.
  destruct (nth_error (enumerate items) i) as [x|] eqn:Ex; [|discriminate Hi].
  simpl in Hi. injection Hi as <-.
  apply nth_error_enumerate in Ex as [Hfst Hlt]. rewrite Hfst.
  unfold render, connector. eexists.
  replace (i =? length items - 1)%nat with (S i =? length items)%nat; [reflexivity|].
  destruct (Nat.eqb_spec (S i) (length items)), (Nat.eqb_spec i (length items - 1));
    try reflexivity; lia.
Qed.

Lemma last_entry_gets_the_corner_witness :
  exists rows r rest,
    build_tree_rows (L := posix_ascii) scenario 2 [] "" None None false true false None 0 []
      = Ok rows
    /\ nth_error (direct_rows 0 rows) 2 = Some r
    /\ row_item r = ["b.txt"%string]
    /\ row_line r = "" +:+ "└── " +:+ rest.
Proof.
  destruct (build_tree_rows (L := posix_ascii) scenario 2 [] "" None None false true false
              None 0 []) as [rows| |] eqn:E; try (vm_compute in E; discriminate E).
  assert (Hn : exists r, nth_error (direct_rows 0 rows) 2 = Some r
                         /\ row_item r = ["b.txt"%string]
                         /\ length (direct_rows 0 rows) = 3%nat).
  { vm_compute in E. injection E as <-. eexists. repeat split. }
  destruct Hn as [r [Hr [Hitem Hlen]]].
  destruct (last_entry_gets_the_corner (L := posix_ascii) scenario 2 [] "" None None
              false true false None 0 [] rows 2 r E Hr) as [rest Hrest].
  rewrite Hlen in Hrest.
  exists rows, r, rest. repeat split; assumption.
Defined.

(** ** [strip_ansi] *)

Lemma list_ascii_of_string_app (a b : string) :
  list_ascii_of_string (a +:+ b) = list_ascii_of_string a ++ list_ascii_of_string b.
Proof.
  induction a as [|c a IH]; [reflexivity|].
  change (c :: list_ascii_of_string (a +:+ b)
          = c :: (list_ascii_of_string a ++ list_ascii_of_string b)).
  now rewrite IH.
Qed.

Lemma string_of_list_ascii_app (a b : list ascii) :
  string_of_list_ascii (a ++ b) = string_of_list_ascii a +:+ string_of_list_ascii b.
Proof.
  induction a as [|c a IH]; [reflexivity|].
  change (String c (string_of_list_ascii (a ++ b))
          = String c (string_of_list_ascii a +:+ string_of_list_ascii b)).
  now rewrite IH.
Qed.

Lemma string_app_nil_r (a : string) : a +:+ "" = a.
Proof.
  induction a as [|c a IH]; [reflexivity|].
  change (String c (a +:+ "") = String c a). now rewrite IH.
Qed.

Lemma esc_free_app (a b : string) : esc_free (a +:+ b) = esc_free a && esc_free b.
Proof. unfold esc_free. now rewrite list_ascii_of_string_app, forallb_app. Qed.

Lemma ansi_escape_other (c : ascii) (l : list ascii) :
  Ascii.eqb c (ascii_of_nat 27) = false -> ansi_escape (c :: l) = None.
Proof. intros H. destruct l as [|b l]; simpl; [reflexivity | now rewrite H]. Qed.

Lemma strip_ansi_from_clean (a t : list ascii) :
  forallb (fun c => negb (Ascii.eqb c (ascii_of_nat 27))) a = true ->
  strip_ansi_from 0 (a ++ t) = a ++ strip_ansi_from 0 t.
Proof.
  induction a as [|c a IH]; intros H; [reflexivity|].
  simpl in H. apply andb_true_iff in H as [Hc Ha]. apply negb_true_iff in Hc.
  change ((c :: a) ++ t) with (c :: (a ++ t)).
  cbn [strip_ansi_from]. rewrite (ansi_escape_other c (a ++ t) Hc).
  now rewrite IH.
Qed.

Lemma strip_ansi_clean_app (a t : string) :
  esc_free a = true -> strip_ansi (a +:+ t) = a +:+ strip_ansi t.
Proof.
  intros H. unfold strip_ansi.
  rewrite list_ascii_of_string_app, strip_ansi_from_clean by exact H.
  now rewrite string_of_list_ascii_app, string_of_list_ascii_of_string.
Qed.

Lemma strip_ansi_COLOR_DIR (t : string) : strip_ansi (COLOR_DIR +:+ t) = strip_ansi t.
Proof. unfold strip_ansi. rewrite list_ascii_of_string_app. reflexivity. Qed.

Lemma strip_ansi_COLOR_FILE (t : string) : strip_ansi (COLOR_FILE +:+ t) = strip_ansi t.
Proof. unfold strip_ansi. rewrite list_ascii_of_string_app. reflexivity. Qed.

Lemma strip_ansi_RESET_ALL (t : string) : strip_ansi (RESET_ALL +:+ t) = strip_ansi t.
Proof. unfold strip_ansi. rewrite list_ascii_of_string_app. reflexivity. Qed.

(** X9 — Text without an escape character passes [strip_ansi] unchanged, and
    what [strip_ansi] returns is never longer than what it was given. *)
Theorem strip_ansi_keeps_plain_text (text : string) :
  (esc_free text = true -> strip_ansi text = text)
  /\ (String.length (strip_ansi text) <= String.length text)%nat.
Proof.
  split.
  - intros H. rewrite <- (string_app_nil_r text) at 1.
    rewrite strip_ansi_clean_app by exact H. apply string_app_nil_r.
  - unfold strip_ansi.
    assert (Hlen : forall l, String.length (string_of_list_ascii l) = length l).
    { induction l as [|c l IH]; simpl; [reflexivity | now rewrite IH]. }
    rewrite <- (string_of_list_ascii_of_string text) at 2. rewrite !Hlen.
    generalize (list_ascii_of_string text). intros l. generalize 0%nat.
    induction l as [|c l IH]; intros k; [simpl; lia|].
    cbn [strip_ansi_from]. destruct k as [|k].
    + destruct (ansi_escape (c :: l)); [specialize (IH (Nat.pred n)) | specialize (IH 0%nat)];
        simpl; lia.
    + specialize (IH k). simpl. lia.
Qed.

Lemma esc_free_uint (d : Decimal.uint) : esc_free (NilEmpty.string_of_uint d) = true.
Proof. induction d; simpl; try reflexivity; exact IHd. Qed.

Lemma esc_free_digits (z : Z) : esc_free (digits z) = true.
Proof.
  unfold digits, NilZero.string_of_uint.
  destruct (N.to_uint (Z.to_N z)) eqn:E; try reflexivity; rewrite <- E; apply esc_free_uint.
Qed.

Lemma esc_free_format_1f (x : number) : esc_free (format_1f x) = true.
Proof.
  unfold format_1f, show_tenths. rewrite !esc_free_app, !esc_free_digits.
  destruct (_ <? 0); reflexivity.
Qed.

Lemma esc_free_human_readable_size (size : Z) :
  esc_free (human_readable_size size) = true.
Proof.
  unfold human_readable_size. generalize (PyInt size).
  assert (H : forall units x,
            forallb esc_free units = true ->
            esc_free (human_readable_size_loop units x) = true).
  { induction units as [|u units IH]; intros x Hu; simpl.
    - now rewrite esc_free_app, esc_free_format_1f.
    - simpl in Hu. apply andb_true_iff in Hu as [Hu Hus].
      destruct (lt_1024 x); [|apply IH, Hus].
      now rewrite esc_free_app, esc_free_format_1f, Hu. }
  intros x. apply H. reflexivity.
Qed.

Lemma esc_free_connector (i n : nat) : esc_free (connector i n) = true.
Proof. unfold connector. destruct (i =? n - 1)%nat; reflexivity. Qed.

Lemma esc_free_extension (i n : nat) : esc_free (extension i n) = true.
Proof. unfold extension. destruct (i =? n - 1)%nat; reflexivity. Qed.

Lemma esc_free_plain_line (fs : entry) indent i n item show_sizes :
  esc_free indent = true -> esc_free (Path.name item) = true ->
  esc_free (plain_line fs indent i n item show_sizes) = true.
Proof.
  intros Hi Hn. unfold plain_line.
  rewrite !esc_free_app, Hi, Hn, esc_free_connector.
  destruct (show_sizes && Path.is_file fs item); [|reflexivity].
  now rewrite !esc_free_app, esc_free_human_readable_size.
Qed.

(** A rendered line followed by any text: the line loses its codes and
    the text is stripped on its own. *)
Lemma strip_ansi_render_app (fs : entry) indent i n item color show_sizes (t : string) :
  esc_free indent = true -> esc_free (Path.name item) = true ->
  strip_ansi (render fs indent i n item color show_sizes +:+ t)
  = plain_line fs indent i n item show_sizes +:+ strip_ansi t.
Proof.
  intros Hi Hn. unfold render, plain_line.
  set (size := if show_sizes && Path.is_file fs item then _ else _).
  assert (Hsize : esc_free size = true).
  { unfold size. destruct (show_sizes && Path.is_file fs item); [|reflexivity].
    now rewrite !esc_free_app, esc_free_human_readable_size. }
  destruct (color && Path.is_dir fs item); rewrite !string_app_assoc.
  - rewrite (strip_ansi_clean_app indent) by exact Hi.
    rewrite (strip_ansi_clean_app (connector i n)) by apply esc_free_connector.
    rewrite strip_ansi_COLOR_DIR.
    rewrite (strip_ansi_clean_app (Path.name item)) by exact Hn.
    rewrite strip_ansi_RESET_ALL.
    rewrite (strip_ansi_clean_app size) by exact Hsize. reflexivity.
  - rewrite (strip_ansi_clean_app indent) by exact Hi.
    rewrite (strip_ansi_clean_app (connector i n)) by apply esc_free_connector.
    rewrite strip_ansi_COLOR_FILE.
    rewrite (strip_ansi_clean_app (Path.name item)) by exact Hn.
    rewrite strip_ansi_RESET_ALL.
    rewrite (strip_ansi_clean_app size) by exact Hsize. reflexivity.
Qed.

(** X10 — For an entry whose name holds no escape character, drawn behind an
    indentation that holds none, [strip_ansi] takes exactly the color
    codes out of the line: what is left is indentation, connector, name
    and size, the same with color and without, and free of escape
    characters. *)
Theorem strip_ansi_undoes_coloring (fs : entry) (indent : string) (i n : nat)
    (item : path) (color show_sizes : bool) :
  esc_free indent = true -> esc_free (Path.name item) = true ->
  strip_ansi (render fs indent i n item color show_sizes)
  = plain_line fs indent i n item show_sizes
  /\ strip_ansi (render fs indent i n item color show_sizes)
     = strip_ansi (render fs indent i n item (negb color) show_sizes)
  /\ esc_free (strip_ansi (render fs indent i n item color show_sizes)) = true.
Proof.
  intros Hi Hn.
  assert (H : forall c, strip_ansi (render fs indent i n item c show_sizes)
                        = plain_line fs indent i n item show_sizes).
  { intros c. rewrite <- (string_app_nil_r (render fs indent i n item c show_sizes)).
    rewrite strip_ansi_render_app by assumption. apply string_app_nil_r. }
  split; [apply H|]. split; [now rewrite !H|].
  rewrite H. now apply esc_free_plain_line.
Qed.

Lemma strip_ansi_undoes_coloring_witness :
  strip_ansi (render scenario "│   " 0 1 ["sub"; "c.txt"]%string true true)
  = "│   └── c.txt (5.0B)"%string.
Proof.
  rewrite (proj1 (strip_ansi_undoes_coloring scenario "│   " 0 1
                    ["sub"; "c.txt"]%string true true eq_refl eq_refl)).
  reflexivity.
Defined.

(** ** Indentation *)

Section Indentation.
Context {L : PyStr}.
Variable fs : entry.

Lemma rows_indented fuel startpath indent exclude git_tracked color show_sizes compact
    depth current_level ancestors rows :
  build_tree_rows fs fuel startpath indent exclude git_tracked color show_sizes compact
    depth current_level ancestors = Ok rows ->
  Forall (fun r =>
            exists exts i n,
              Forall is_extension exts
              /\ row_level r = current_level + Z.of_nat (length exts)
              /\ row_line r
                 = render fs (indent +:+ fold_right String.append ""%string exts) i n
                     (row_item r) color show_sizes) rows.
Proof.
  revert startpath indent exclude current_level ancestors rows.
  induction fuel as [|fuel IH]; intros startpath indent exclude lvl anc rows H;
    [discriminate|].
  apply build_tree_rows_Ok in H as [dir [listing [blocks [_ [_ [HF ->]]]]]].
  apply Forall_concat, List.Forall_forall. intros b Hb.
  destruct (Forall2_In_r _ _ _ HF b Hb) as [[i item] [_ Hblock]].
  unfold row_block in Hblock. simpl in Hblock.
  destruct (depth_reached depth lvl); [injection Hblock as <-; constructor|].
  set (n := length (items_of fs git_tracked (default [] exclude) listing)) in *.
  assert (Hdirect : exists exts i0 n0,
            Forall is_extension exts
            /\ lvl = lvl + Z.of_nat (length exts)
            /\ render fs indent i n item color show_sizes
               = render fs (indent +:+ fold_right String.append ""%string exts) i0 n0
                   item color show_sizes).
  { exists [], i, n. simpl. rewrite string_app_nil_r.
    split; [constructor|]. split; [lia | reflexivity]. }
  destruct (Path.is_dir fs item).
  - apply bind_Ok in Hblock as [sub [Hsub [= <-]]].
    constructor; [exact Hdirect|].
    apply IH in Hsub. eapply List.Forall_impl; [|exact Hsub].
    intros r [exts [i0 [n0 [Hexts [Hl Hline]]]]].
    exists (extension i n :: exts), i0, n0. split; [|split].
    + constructor; [|exact Hexts].
      unfold extension, is_extension. destruct (i =? n - 1)%nat; auto.
    + simpl length. lia.
    + rewrite Hline. simpl fold_right. now rewrite string_app_assoc.
  - injection Hblock as <-. constructor; [exact Hdirect | constructor].
Qed.
End Indentation.

(** X11 — The indentation of a line tells its level: behind the indentation
    given to the run stand as many four-column blocks, blank or with a
    bar, as there are rendered directories above the entry, and then
    connector, name and size. *)
Theorem indentation_counts_the_level {L : PyStr} (fs : entry) (fuel : nat)
    (startpath : path) (indent : string) (exclude : option (list string))
    (git_tracked : option (gset path)) (color show_sizes compact : bool)
    (depth : option Z) (current_level : Z) (rows : list row) :
  build_tree_rows fs fuel startpath indent exclude git_tracked color show_sizes compact
    depth current_level [] = Ok rows ->
  build_tree_lines fs fuel startpath indent exclude git_tracked color show_sizes compact
    depth current_level = Ok (map row_line rows)
  /\ Forall (fun r =>
               exists exts i n,
                 Forall is_extension exts
                 /\ length exts = length (row_ancestors r)
                 /\ row_line r
                    = render fs (indent +:+ fold_right String.append ""%string exts) i n
                        (row_item r) color show_sizes) rows.
Proof.
  intros H.
  split; [rewrite (build_tree_lines_rows fs _ _ _ _ _ _ _ _ _ _ []), H; reflexivity|].
  pose proof (rows_indented fs _ _ _ _ _ _ _ _ _ _ _ _ H) as HF.
  apply List.Forall_forall. intros r Hr.
  rewrite List.Forall_forall in HF.
  destruct (HF r Hr) as [exts [i [n [Hexts [Hl Hline]]]]].
  destruct (rows_provenance fs _ _ _ _ _ _ _ _ _ _ _ _ H r Hr) as [_ [chain [Ha [Hlc _]]]].
  rewrite app_nil_r in Ha. subst chain.
  exists exts, i, n. split; [exact Hexts|]. split; [lia | exact Hline].
Qed.

Lemma indentation_counts_the_level_witness :
  exists rows,
    build_tree_lines (L := posix_ascii) scenario 2 [] "" None None false true false None 0
      = Ok (map row_line rows)
    /\ Forall (fun r =>
                 exists exts i n,
                   length exts = length (row_ancestors r)
                   /\ row_line r
                      = render scenario ("" +:+ fold_right String.append ""%string exts) i n
                          (row_item r) false true) rows.
Proof.
  destruct (build_tree_rows (L := posix_ascii) scenario 2 [] "" None None false true false
              None 0 []) as [rows| |] eqn:E; try (vm_compute in E; discriminate E).
  exists rows.
  destruct (indentation_counts_the_level (L := posix_ascii) scenario 2 [] "" None None
              false true false None 0 rows E) as [Hl HF].
  split; [exact Hl|]. eapply List.Forall_impl; [|exact HF].
  intros r [exts [i [n [_ [Hlen Hline]]]]]. exists exts, i, n. auto.
Defined.

(** ** The text that goes to the clipboard *)

Lemma esc_free_names_resolve (fs : entry) (p : path) (e : entry) :
  esc_free_names fs = true -> resolve fs p = Some e ->
  forallb esc_free p = true /\ esc_free_names e = true.
Proof.
  revert fs. induction p as [|n p IH]; intros fs Hfs; simpl.
  - intros [= <-]. auto.
  - destruct fs as [sz|cs|]; try discriminate.
    destruct (lookup_name n cs) as [e'|] eqn:E; [|discriminate].
    intros Hres. apply lookup_name_In in E.
    simpl in Hfs. rewrite forallb_forall in Hfs.
    specialize (Hfs _ E). simpl in Hfs. apply andb_true_iff in Hfs as [Hn He'].
    destruct (IH e' He' Hres) as [Hp He]. rewrite Hn, Hp. auto.
Qed.

Lemma listing_name_esc_free (fs : entry) (dir item : path) (listing : list path) :
  esc_free_names fs = true -> Path.iterdir fs dir = Ok listing -> In item listing ->
  esc_free (Path.name item) = true.
Proof.
  intros Hfs Hit Hin. apply iterdir_Ok in Hit as [cs [Hres ->]].
  apply in_map_iff in Hin as [[n e] [<- Hin]]. simpl. rewrite name_snoc.
  destruct (esc_free_names_resolve fs dir (Dir cs) Hfs Hres) as [_ Hcs].
  simpl in Hcs. rewrite forallb_forall in Hcs. specialize (Hcs _ Hin). simpl in Hcs.
  apply andb_true_iff in Hcs. tauto.
Qed.

Lemma esc_free_extensions (indent : string) (exts : list string) :
  esc_free indent = true -> Forall is_extension exts ->
  esc_free (indent +:+ fold_right String.append ""%string exts) = true.
Proof.
  intros Hi HF. rewrite esc_free_app, Hi. simpl.
  induction HF as [|x exts [->| ->] _ IH]; simpl; [reflexivity| |];
    rewrite esc_free_app, IH; reflexivity.
Qed.

Lemma strip_ansi_join (lines : list string) :
  Forall (fun line => forall t, strip_ansi (line +:+ t)
                                = strip_ansi line +:+ strip_ansi t) lines ->
  strip_ansi (join LF lines) = join LF (map strip_ansi lines).
Proof.
  induction 1 as [|x l Hx Hl IH]; [reflexivity|].
  destruct l as [|y l]; [reflexivity|].
  change (join LF (x :: y :: l)) with (x +:+ LF +:+ join LF (y :: l)).
  change (join LF (map strip_ansi (x :: y :: l)))
    with (strip_ansi x +:+ LF +:+ join LF (map strip_ansi (y :: l))).
  rewrite Hx, (strip_ansi_clean_app LF) by reflexivity. now rewrite IH.
Qed.

Lemma esc_free_join (lines : list string) :
  Forall (fun line => esc_free line = true) lines -> esc_free (join LF lines) = true.
Proof.
  induction 1 as [|x l Hx Hl IH]; [reflexivity|].
  destruct l as [|y l]; [exact Hx|].
  change (join LF (x :: y :: l)) with (x +:+ LF +:+ join LF (y :: l)).
  now rewrite !esc_free_app, Hx, IH.
Qed.

Lemma strip_ansi_render (fs : entry) indent i n item color show_sizes :
  esc_free indent = true -> esc_free (Path.name item) = true ->
  strip_ansi (render fs indent i n item color show_sizes)
  = plain_line fs indent i n item show_sizes.
Proof.
  intros Hi Hn. rewrite <- (string_app_nil_r (render fs indent i n item color show_sizes)).
  rewrite strip_ansi_render_app by assumption. apply string_app_nil_r.
Qed.

(** Every line of a run, on a tree without escape characters in names. *)
Lemma rows_strip {L : PyStr} (fs : entry) fuel startpath indent exclude git_tracked color
    show_sizes compact depth current_level rows :
  esc_free_names fs = true -> esc_free indent = true ->
  build_tree_rows fs fuel startpath indent exclude git_tracked color show_sizes compact
    depth current_level [] = Ok rows ->
  Forall (fun r =>
            exists indent' i n,
              esc_free indent' = true
              /\ esc_free (Path.name (row_item r)) = true
              /\ row_line r = render fs indent' i n (row_item r) color show_sizes) rows.
Proof.
  intros Hfs Hi H.
  pose proof (rows_indented fs _ _ _ _ _ _ _ _ _ _ _ _ H) as HF.
  pose proof (rows_calls fs _ _ _ _ _ _ _ _ _ _ _ H) as HC.
  apply List.Forall_forall. intros r Hr.
  rewrite List.Forall_forall in HF, HC.
  destruct (HF r Hr) as [exts [i [n [Hexts [_ Hline]]]]].
  destruct (HC r Hr) as [_ [_ Hl]].
  apply listed_inv in Hl as [listing [m [Hit [Hin _]]]].
  exists (indent +:+ fold_right String.append ""%string exts), i, n.
  split; [now apply esc_free_extensions|]. split; [|exact Hline].
  eapply listing_name_esc_free; eassumption.
Qed.

(** X12 — With [--clipboard], on a tree whose names hold no escape character,
    the text given to the clipboard is the lines of the tree, each with
    its color codes taken out, joined by line feeds; it holds no escape
    character, and the confirmation is all that is printed. *)
Theorem clipboard_text_is_plain {L : PyStr} (fs : entry) (fuel : nat) (git : process)
    (args : arguments) (c : console) :
  esc_free_names fs = true ->
  arg_clipboard args = true ->
  Path.exists_ fs (arg_path args) = true ->
  main fuel fs git args = Ok c ->
  printed c = "Tree copied to clipboard!"%string
  /\ exists git_tracked lines,
       build_tree_lines fs fuel (arg_path args) "" (Some (arg_exclude args)) git_tracked
         (negb (arg_no_color args)) (negb (arg_no_size args)) (arg_compact args)
         (arg_depth args) 0 = Ok lines
       /\ copied c = Some (join LF (map strip_ansi lines))
       /\ esc_free (join LF (map strip_ansi lines)) = true.
Proof.
  intros Hfs Hclip He Hmain. unfold main in Hmain. rewrite He, Hclip in Hmain.
  simpl negb in Hmain. cbv iota in Hmain.
  apply bind_Ok in Hmain as [git_tracked [_ Hmain]].
  apply bind_Ok in Hmain as [lines [Hlines Hmain]].
  injection Hmain as <-. simpl. split; [reflexivity|].
  exists git_tracked, lines. split; [exact Hlines|].
  rewrite (build_tree_lines_rows fs _ _ _ _ _ _ _ _ _ _ []) in Hlines.
  apply bind_Ok in Hlines as [rows [Hrows [= <-]]].
  pose proof (rows_strip fs _ _ ""%string _ _ _ _ _ _ _ _ Hfs eq_refl Hrows) as HF.
  split.
  - f_equal. apply strip_ansi_join. apply Forall_map.
    eapply List.Forall_impl; [|exact HF].
    intros r [indent' [i [n [Hi [Hn ->]]]]] t.
    rewrite strip_ansi_render_app, strip_ansi_render by assumption. reflexivity.
  - apply esc_free_join. apply Forall_map. apply Forall_map.
    eapply List.Forall_impl; [|exact HF].
    intros r [indent' [i [n [Hi [Hn ->]]]]].
    rewrite strip_ansi_render by assumption. now apply esc_free_plain_line.
Qed.

Lemma clipboard_text_is_plain_witness :
  exists c,
    main (L := posix_ascii) 2 scenario NotFound
      {| arg_path := []; arg_exclude := []; arg_git := false; arg_no_color := false;
         arg_no_size := false; arg_compact := false; arg_depth := None;
         arg_clipboard := true |} = Ok c
    /\ printed c = "Tree copied to clipboard!"%string
    /\ copied c = Some (join LF scenario_plain).
Proof.
  eexists. split; [vm_compute; reflexivity|].
  match goal with |- printed ?c = _ /\ _ =>
    destruct (clipboard_text_is_plain (L := posix_ascii) scenario 2 NotFound
                {| arg_path := []; arg_exclude := []; arg_git := false;
                   arg_no_color := false; arg_no_size := false; arg_compact := false;
                   arg_depth := None; arg_clipboard := true |} c
                eq_refl eq_refl eq_refl) as [Hp _]
  end.
  - vm_compute. reflexivity.
  - split; [exact Hp | vm_compute; reflexivity].
Defined.

(** ** Color and the visible text *)

Section Color.
Context {L : PyStr}.
Variable fs : entry.

Lemma for_each_item_strip recurse1 recurse2 indent color1 color2 show_sizes depth
    current_level n items lines1 lines2 :
  esc_free indent = true ->
  (forall x, In x items -> esc_free (Path.name (snd x)) = true) ->
  (forall x, In x items ->
     fmap_outcome (map strip_ansi) (recurse1 (snd x) (indent +:+ extension (fst x) n))
     = fmap_outcome (map strip_ansi) (recurse2 (snd x) (indent +:+ extension (fst x) n))) ->
  map strip_ansi lines1 = map strip_ansi lines2 ->
  fmap_outcome (map strip_ansi)
    (for_each_item fs recurse1 indent color1 show_sizes depth current_level n items lines1)
  = fmap_outcome (map strip_ansi)
      (for_each_item fs recurse2 indent color2 show_sizes depth current_level n items
         lines2).
Proof.
  intros Hi. revert lines1 lines2.
  induction items as [|[i item] items IH]; intros lines1 lines2 Hn Hrec Hl; simpl.
  - now rewrite Hl.
  - assert (Hn' : forall x, In x items -> esc_free (Path.name (snd x)) = true)
      by (intros x Hx; apply Hn; now right).
    assert (Hrec' : forall x, In x items ->
              fmap_outcome (map strip_ansi)
                (recurse1 (snd x) (indent +:+ extension (fst x) n))
              = fmap_outcome (map strip_ansi)
                  (recurse2 (snd x) (indent +:+ extension (fst x) n)))
      by (intros x Hx; apply Hrec; now right).
    destruct (depth_reached depth current_level); [now apply IH|].
    assert (Hline : map strip_ansi (lines1 ++ [render fs indent i n item color1 show_sizes])
                    = map strip_ansi
                        (lines2 ++ [render fs indent i n item color2 show_sizes])).
    { rewrite !map_app, Hl. simpl.
      rewrite !strip_ansi_render; try reflexivity; try exact Hi;
        apply (Hn (i, item)); now left. }
    destruct (Path.is_dir fs item); [|now apply IH].
    specialize (Hrec (i, item) ltac:(now left)). simpl in Hrec.
    destruct (recurse1 item _) as [sub1|e1|], (recurse2 item _) as [sub2|e2|];
      simpl in Hrec; try discriminate Hrec; simpl; try reflexivity.
    + injection Hrec as Hsub. apply IH; try assumption.
      rewrite map_app, Hline, Hsub. symmetry. apply map_app.
    + now injection Hrec as ->.
Qed.

Lemma build_tree_lines_strip fuel startpath indent exclude git_tracked color1 color2
    show_sizes compact depth current_level :
  esc_free_names fs = true -> esc_free indent = true ->
  fmap_outcome (map strip_ansi)
    (build_tree_lines fs fuel startpath indent exclude git_tracked color1 show_sizes
       compact depth current_level)
  = fmap_outcome (map strip_ansi)
      (build_tree_lines fs fuel startpath indent exclude git_tracked color2 show_sizes
         compact depth current_level).
Proof.
  intros Hfs. revert startpath indent exclude current_level.
  induction fuel as [|fuel IH]; intros startpath indent exclude lvl Hi; [reflexivity|].
  cbn [build_tree_lines].
  destruct (if compact then _ else _) as [dir| |]; try reflexivity. cbn [bind].
  destruct (Path.iterdir fs dir) as [listing| |] eqn:Hit; try reflexivity. cbn [bind].
  apply for_each_item_strip; [exact Hi | | | reflexivity].
  - intros [i item] Hin. apply in_enumerate in Hin. simpl.
    eapply listing_name_esc_free; [exact Hfs | exact Hit|].
    apply In_keep_tracked, In_sorted, filter_In in Hin. tauto.
  - intros [i item] _. simpl. apply IH.
    now rewrite esc_free_app, Hi, esc_free_extension.
Qed.
End Color.

(** X13 — Color changes nothing that is visible: on a tree whose names hold no
    escape character the lines of a run with color and of the same run
    without it are the same once their escape sequences are stripped
    (and the two runs fail alike when they fail). *)
Theorem color_changes_no_visible_text {L : PyStr} (fs : entry) (fuel : nat)
    (startpath : path) (indent : string) (exclude : option (list string))
    (git_tracked : option (gset path)) (show_sizes compact : bool)
    (depth : option Z) (current_level : Z) :
  esc_free_names fs = true -> esc_free indent = true ->
  fmap_outcome (map strip_ansi)
    (build_tree_lines fs fuel startpath indent exclude git_tracked true show_sizes
       compact depth current_level)
  = fmap_outcome (map strip_ansi)
      (build_tree_lines fs fuel startpath indent exclude git_tracked false show_sizes
         compact depth current_level).
Proof. intros Hfs Hi. now apply build_tree_lines_strip. Qed.

Lemma color_changes_no_visible_text_witness :
  esc_free_names scenario = true
  /\ fmap_outcome (map strip_ansi)
       (build_tree_lines (L := posix_ascii) scenario 2 [] "" None None true true false
          None 0)
     = Ok scenario_plain.
Proof.
  split; [reflexivity|].
  rewrite (color_changes_no_visible_text (L := posix_ascii) scenario 2 [] "" None None
             true false None 0 eq_refl eq_refl).
  vm_compute. reflexivity.
Defined.

(** ** The traversal of a directory returns *)

Section Fuel.
Context {L : PyStr}.
Variable fs : entry.

Lemma collapse_single_dirs_more_fuel fuel dir git_tracked exclude r :
  collapse_single_dirs fs fuel dir git_tracked exclude = Ok r ->
  collapse_single_dirs fs (S fuel) dir git_tracked exclude = Ok r.
Proof.
  revert dir. induction fuel as [|fuel IH]; intros dir; [discriminate|].
  rewrite (collapse_single_dirs_step fs (S fuel)), (collapse_single_dirs_step fs fuel).
  intros H. apply bind_Ok in H as [items [Hv H]]. rewrite Hv. cbn [bind].
  destruct (List.filter (Path.is_dir fs) items) as [|d [|d' dirs]]; try exact H.
  destruct (List.filter (Path.is_file fs) items); [apply IH, H | exact H].
Qed.

Lemma for_each_item_more_fuel recurse1 recurse2 indent color show_sizes depth
    current_level n items lines result :
  (forall item indent' sub, recurse1 item indent' = Ok sub -> recurse2 item indent' = Ok sub) ->
  for_each_item fs recurse1 indent color show_sizes depth current_level n items lines
  = Ok result ->
  for_each_item fs recurse2 indent color show_sizes depth current_level n items lines
  = Ok result.
Proof.
  intros Hrec. revert lines.
  induction items as [|[i item] items IH]; intros lines; simpl; [auto|].
  destruct (depth_reached depth current_level); [apply IH|].
  destruct (Path.is_dir fs item); [|apply IH].
  intros H. apply bind_Ok in H as [sub [Hsub H]].
  rewrite (Hrec _ _ _ Hsub). cbn [bind]. apply IH, H.
Qed.

Lemma build_tree_lines_more_fuel fuel startpath indent exclude git_tracked color
    show_sizes compact depth current_level lines :
  build_tree_lines fs fuel startpath indent exclude git_tracked color show_sizes compact
    depth current_level = Ok lines ->
  build_tree_lines fs (S fuel) startpath indent exclude git_tracked color show_sizes
    compact depth current_level = Ok lines.
Proof.
  revert startpath indent exclude current_level lines.
  induction fuel as [|fuel IH]; intros startpath indent exclude lvl lines;
    [discriminate|].
  intros H. cbn [build_tree_lines] in H.
  apply bind_Ok in H as [dir [Hdir H]].
  apply bind_Ok in H as [listing [Hit H]].
  change (build_tree_lines fs (S (S fuel)) startpath indent exclude git_tracked color
            show_sizes compact depth lvl)
    with (let exclude' := default [] exclude in
          let* dir :=
            (if compact
             then collapse_single_dirs fs (S (S fuel)) startpath git_tracked
                    (Some exclude')
             else Ok startpath) in
          let* listing := Path.iterdir fs dir in
          let items :=
            sorted key_le (sort_key fs) (List.filter (not_excluded exclude') listing) in
          let items := keep_tracked fs git_tracked items in
          for_each_item fs
            (fun item indent' =>
               build_tree_lines fs (S fuel) item indent' (Some exclude') git_tracked
                 color show_sizes compact depth (lvl + 1))
            indent color show_sizes depth lvl (length items) (enumerate items) []).
  cbv zeta.
  assert (Hdir' : (if compact
                   then collapse_single_dirs fs (S (S fuel)) startpath git_tracked
                          (Some (default [] exclude))
                   else Ok startpath) = Ok dir).
  { destruct compact; [|exact Hdir]. apply collapse_single_dirs_more_fuel, Hdir. }
  rewrite Hdir'. cbn [bind]. rewrite Hit. cbn [bind].
  eapply for_each_item_more_fuel; [|exact H].
  intros item indent' sub. apply IH.
Qed.
End Fuel.

(** X14 — On a directory the traversal raises nothing and returns its lines:
    the recursion enters directories only, so no listing fails.  In the
    embedding this holds from the fuel that covers the height of the tree
    under the start path, and more fuel gives the same lines. *)
Theorem traversal_of_a_directory_returns {L : PyStr} (fs : entry) (fuel : nat)
    (startpath : path) (indent : string) (exclude : option (list string))
    (git_tracked : option (gset path)) (color show_sizes compact : bool)
    (depth : option Z) (current_level : Z) :
  Path.is_dir fs startpath = true -> (height_at fs startpath <= fuel)%nat ->
  exists lines,
    build_tree_lines fs fuel startpath indent exclude git_tracked color show_sizes compact
      depth current_level = Ok lines
    /\ forall more,
         build_tree_lines fs (fuel + more) startpath indent exclude git_tracked color
           show_sizes compact depth current_level = Ok lines.
Proof.
  intros Hdir Hh.
  destruct (build_tree_rows_total fs fuel startpath indent exclude git_tracked color
              show_sizes compact depth current_level [] Hdir Hh) as [rows Hrows].
  exists (map row_line rows).
  assert (H : build_tree_lines fs fuel startpath indent exclude git_tracked color
                show_sizes compact depth current_level = Ok (map row_line rows)).
  { rewrite (build_tree_lines_rows fs _ _ _ _ _ _ _ _ _ _ []), Hrows. reflexivity. }
  split; [exact H|].
  intros more. induction more as [|more IH].
  - now rewrite Nat.add_0_r.
  - rewrite Nat.add_succ_r. apply build_tree_lines_more_fuel, IH.
Qed.

Lemma traversal_of_a_directory_returns_witness :
  Path.is_dir wrapped [] = true
  /\ exists lines,
       build_tree_lines (L := posix_ascii) wrapped 6 [] "" None None true true false None 0
       = Ok lines
       /\ build_tree_lines (L := posix_ascii) wrapped (6 + 10) [] "" None None true true
            false None 0 = Ok lines.
Proof.
  split; [reflexivity|].
  destruct (traversal_of_a_directory_returns (L := posix_ascii) wrapped 6 [] "" None None
              true true false None 0 eq_refl) as [lines [H Hmore]].
  - vm_compute. lia.
  - exists lines. split; [exact H | apply Hmore].
Defined.
